(** * The retrieval-and-citation pipeline of the chat backend

    A shallow embedding of
    - [services/matrix_retriever.py]   (module [MatrixRetriever]),
    - [services/document_retriever.py] (module [DocumentRetriever]),
    - [services/visualization.py]      (module [VisualizationService]),
    - [routers/chat.py]                (module [Chat]),
    - [services/citation.py]           (module [CitationGenerator]),
    - [state/store.py]                 (module [StateStore]),
    and the properties of these functions: those that the specification
    states, and those that the code shows besides.

    Conventions.
    - A Python [str] is a list of Unicode code points ([char] is [N]), so
      that [len] counts what Python counts.  ASCII literals are written
      [py "..."].
    - The interpreter's character tables (white space, decimal digits,
      case mapping) are not part of the repository: they are the members
      of the class [Unicode], and every definition is parametric in them.
      [ascii_tables] is the instance used to run the definitions on ASCII
      text.
    - A Python [float] that the code only adds, compares and caps is a
      rational [Q]: the decimal constants of the source denote themselves.
    - A [dict] iterated with [.items()] is an association list in insertion
      order; a [dict] only looked up is a [gmap]. *)

From Stdlib Require Import ZArith QArith Ascii String Bool Lia.
From stdpp Require Import base option list sorting gmap.

Open Scope Z_scope.

(** ** Python strings *)

Abbreviation char := N (only parsing).
Abbreviation str := (list N) (only parsing).

Definition py (s : string) : str :=
  (λ a, N_of_ascii a) <$> list_ascii_of_string s.

(** The placeholder of an empty cell, U+2014. *)
Definition em_dash : str := [8212%N].

Class Unicode := {
  (** [str.isspace] on one character; also the class [\s] of [re]. *)
  isspace : char → bool;
  (** The class [\d] of [re]: the decimal digits, category Nd. *)
  isdecimal : char → bool;
  (** The value of a decimal digit, as [float] and [int] read it. *)
  decimal_value : char → Z;
  (** [str.lower]. *)
  lower : str → str;
  (** Whether two characters match under [re.IGNORECASE]. *)
  ci_eq : char → char → bool
}.

Module Ascii_tables.

Definition isspace (c : char) : bool :=
  ((9 <=? c) && (c <=? 13) || (28 <=? c) && (c <=? 32))%N.

Definition isdecimal (c : char) : bool := ((48 <=? c) && (c <=? 57))%N.

Definition decimal_value (c : char) : Z := Z.of_N c - 48.

Definition lower_char (c : char) : char :=
  (if (65 <=? c) && (c <=? 90) then c + 32 else c)%N.

Definition lower (s : str) : str := lower_char <$> s.

Definition ci_eq (a b : char) : bool := (lower_char a =? lower_char b)%N.

End Ascii_tables.

Definition ascii_tables : Unicode := {|
  isspace := Ascii_tables.isspace;
  isdecimal := Ascii_tables.isdecimal;
  decimal_value := Ascii_tables.decimal_value;
  lower := Ascii_tables.lower;
  ci_eq := Ascii_tables.ci_eq
|}.

Module Str.

Definition eqb (a b : str) : bool := bool_decide (a = b).

(** [s.startswith(p)] *)
Fixpoint startswith (p s : str) : bool :=
  match p, s with
  | [], _ => true
  | _ :: _, [] => false
  | a :: p', b :: s' => (a =? b)%N && startswith p' s'
  end.

(** [sub in s] *)
Fixpoint contains (sub s : str) : bool :=
  startswith sub s ||
  match s with
  | [] => false
  | _ :: s' => contains sub s'
  end.

(** [s.split(sep)[0]] for a non-empty [sep]: the text before the first
    occurrence of [sep], all of [s] when there is none. *)
Fixpoint before (sep s : str) : str :=
  if startswith sep s then []
  else match s with
       | [] => []
       | c :: s' => c :: before sep s'
       end.

(** [s.count(sub)]: the occurrences of [sub] in [s] that do not overlap,
    read from the left; one more than the length of [s] when [sub] is
    empty.  [skip] counts the characters of the occurrence just
    counted. *)
Fixpoint count_from (sub : str) (skip : nat) (s : str) : nat :=
  match s with
  | [] => O
  | _ :: s' =>
      match skip with
      | S n => count_from sub n s'
      | O =>
          if startswith sub s then S (count_from sub (length sub - 1) s')
          else count_from sub 0 s'
      end
  end.

Definition count (sub s : str) : nat :=
  if sub is [] then S (length s) else count_from sub 0 s.

Section WithUnicode.
Context {U : Unicode}.

Fixpoint lstrip (s : str) : str :=
  match s with
  | c :: s' => if isspace c then lstrip s' else s
  | [] => []
  end.

Definition rstrip (s : str) : str := reverse (lstrip (reverse s)).

(** [s.strip()] *)
Definition strip (s : str) : str := rstrip (lstrip s).

(** [s.split()]: the maximal runs of characters that are not white
    space.  [cur] is the run being read, reversed. *)
Fixpoint split_from (cur : str) (s : str) : list str :=
  match s with
  | [] => if cur is [] then [] else [reverse cur]
  | c :: s' =>
      if isspace c
      then (if cur is [] then split_from [] s'
            else reverse cur :: split_from [] s')
      else split_from (c :: cur) s'
  end.

Definition split (s : str) : list str := split_from [] s.

End WithUnicode.

End Str.

(** ** The data model ([models/document.py], [models/matrix.py]) *)

Module Document.
Record t := mk {
  id : str;
  name : str;
  type : str;
  content : str;
  size : Z;
  blob_url : option str
}.
End Document.

Inductive MetricType := numeric | qualitative | binary.

Module Metric.
Record t := mk {
  id : str;
  label : str;
  description : option str;
  type : option MetricType
}.
End Metric.

Inductive Confidence := High | Medium | Exploratory.

Global Instance Confidence_eq_dec : EqDecision Confidence.
Proof. solve_decision. Defined.

Module CellData.
Record t := mk {
  value : option str;
  is_loading : bool;
  confidence : option Confidence;
  reasoning : option str;
  sources : option (list str);
  error : option str
}.
End CellData.

Module CellMatch.
Record t := mk {
  doc_id : str;
  doc_name : str;
  metric_id : str;
  metric_label : str;
  cell : CellData.t;
  relevance_score : Q
}.
End CellMatch.

Module DocChunk.
Record t := mk {
  doc_id : str;
  doc_name : str;
  content : str;
  section : option str;
  page : option Z;
  relevance_score : Q
}.
End DocChunk.

(** [min(a, b)] on numbers: the first argument unless the second is
    smaller. *)
Definition min_ (a b : Q) : Q := if Qle_bool a b then a else b.

(** [list.sort(key=score, reverse=True)]: Python's sort is stable, also
    when reversed, so elements of equal score keep their order. *)
Section SortDesc.
Context {A : Type} (score : A → Q).

Fixpoint insert_desc (x : A) (l : list A) : list A :=
  match l with
  | [] => [x]
  | y :: l' =>
      if Qle_bool (score y) (score x) then x :: l
      else y :: insert_desc x l'
  end.

Definition sort_desc (l : list A) : list A := foldr insert_desc [] l.
End SortDesc.

(** ** [services/matrix_retriever.py] *)

Module MatrixRetriever.
Import CellMatch.

Section WithUnicode.
Context {U : Unicode}.

Definition semantic_mappings : list (str * list str) :=
  [ (py "revenue", py <$> ["revenue"; "arr"; "mrr"; "sales"; "income"; "earnings"]%string);
    (py "margin", py <$> ["margin"; "profit"; "gross margin"; "net margin"; "profitability"]%string);
    (py "growth", py <$> ["growth"; "delta"; "change"; "increase"; "yoy"]%string);
    (py "leader", py <$> ["leadership"; "ceo"; "executive"; "management"; "founder"]%string);
    (py "risk", py <$> ["risk"; "threat"; "challenge"; "exposure"]%string);
    (py "churn", py <$> ["churn"; "retention"; "attrition"; "customer loss"]%string);
    (py "valuation", py <$> ["valuation"; "pe"; "price"; "multiple"; "cap"]%string);
    (py "debt", py <$> ["debt"; "leverage"; "loan"; "liability"]%string);
    (py "cash", py <$> ["cash"; "fcf"; "free cash flow"; "liquidity"]%string);
    (py "employee", py <$> ["employee"; "headcount"; "staff"; "workforce"]%string) ].

(** [any(kw in text for kw in keywords)] *)
Definition any_in (keywords : list str) (text : str) : bool :=
  existsb (λ kw, Str.contains kw text) keywords.

(** The result is [list(set(...))]: the terms without repetition, in
    an order the interpreter chooses.  The only consumer sums over
    the terms, so the order kept here is immaterial. *)
Definition _normalize_query (query : str) : list str :=
  let query_lower := lower query in
  let matched_concepts :=
    (List.filter (λ m, any_in m.2 query_lower) semantic_mappings).*1 in
  let words :=
    (λ w, lower (Str.strip w)) <$>
      List.filter (λ w, (3 <? length w)%nat) (Str.split query_lower) in
  remove_dups (matched_concepts ++ words).

Definition _score_metric_relevance (metric_label : str) (query_terms : list str) : Q :=
  let label_lower := lower metric_label in
  let score :=
    foldl (λ (score : Q) term,
             let score :=
               if Str.contains term label_lower then (score + 1)%Q else score in
             foldl (λ (score : Q) m,
                      if Str.eqb term m.1 && any_in m.2 label_lower
                      then (score + (8#10))%Q else score)
                   score semantic_mappings)
          0%Q query_terms in
  min_ score 1.

(** [{doc.id: doc for doc in documents}] *)
Definition doc_lookup (documents : list Document.t) : gmap (list N) Document.t :=
  foldl (λ m doc, <[Document.id doc := doc]> m) ∅ documents.

(** [cell.value and cell.value != "—"] *)
Definition has_value (c : CellData.t) : bool :=
  match CellData.value c with
  | Some v => negb (Str.eqb v []) && negb (Str.eqb v em_dash)
  | None => false
  end.

(** The matches one metric contributes: the inner loop of [retrieve]. *)
Definition metric_matches (lookup : gmap (list N) Document.t)
    (cells : list (str * CellData.t)) (metric : Metric.t) (relevance : Q)
  : list CellMatch.t :=
  let suffix := py "-" ++ Metric.id metric in
  flat_map (λ kc : str * CellData.t,
              let (cell_key, cell) := kc in
              if Str.contains suffix cell_key && has_value cell then
                let doc_id := Str.before suffix cell_key in
                match lookup !! doc_id with
                | Some doc =>
                    [ {| doc_id := doc_id;
                         doc_name := Document.name doc;
                         metric_id := Metric.id metric;
                         metric_label := Metric.label metric;
                         cell := cell;
                         relevance_score := relevance |} ]
                | None => []
                end
              else [])
           cells.

Definition retrieve (query : str) (cells : list (str * CellData.t))
    (metrics : list Metric.t) (documents : list Document.t)
    (min_relevance : Q) : list CellMatch.t :=
  let query_terms := _normalize_query query in
  let lookup := doc_lookup documents in
  let matches :=
    flat_map (λ metric,
                let relevance :=
                  _score_metric_relevance (Metric.label metric) query_terms in
                if Qle_bool min_relevance relevance
                then metric_matches lookup cells metric relevance
                else [])
             metrics in
  sort_desc relevance_score matches.

End WithUnicode.

Definition is_high (m : CellMatch.t) : bool :=
  bool_decide (CellData.confidence (cell m) = Some High).

Definition has_sufficient_data (matches : list CellMatch.t) (threshold : Z) : bool :=
  let high_confidence := List.filter is_high matches in
  (threshold <=? Z.of_nat (length high_confidence))
  || (threshold * 2 <=? Z.of_nat (length matches)).

End MatrixRetriever.

(** ** Python values as JSON delivers them, and [dict]s of them

    The scalars of JSON: [null], booleans, integers and strings.  (JSON
    floats, arrays and objects do not occur in the fields read below.) *)

Inductive pyval :=
| PNone
| PBool (b : bool)
| PInt (z : Z)
| PStr (s : list N).

Global Instance pyval_eq_dec : EqDecision pyval.
Proof. solve_decision. Defined.

Abbreviation dict := (gmap (list N) pyval) (only parsing).

Module Py.

(** Truth value testing: [if v], [not v]. *)
Definition truthy (v : pyval) : bool :=
  match v with
  | PNone => false
  | PBool b => b
  | PInt z => negb (z =? 0)
  | PStr s => negb (Str.eqb s [])
  end.

(** [d.get(key, default)] *)
Definition get (d : dict) (key : string) (default_ : pyval) : pyval :=
  default default_ (d !! py key).

(** [d.get(key)] *)
Definition get_ (d : dict) (key : string) : pyval := get d key PNone.

(** [d[key] = v] *)
Definition set (d : dict) (key : string) (v : pyval) : dict :=
  <[py key := v]> d.

Definition of_opt (o : option (list N)) : pyval :=
  match o with Some s => PStr s | None => PNone end.

(** An integer as a number: [bool] is a subclass of [int]. *)
Definition as_int (v : pyval) : option Z :=
  match v with
  | PInt z => Some z
  | PBool b => Some (Z.b2z b)
  | _ => None
  end.

(** [for x in l: if x not in acc: acc.append(x)]: the distinct elements
    in the order of their first occurrence. *)
Definition unique (l : list (list N)) : list (list N) :=
  foldl (λ acc x, if bool_decide (x ∈ acc) then acc else acc ++ [x]) [] l.

(** The decimal digits of a natural number, most significant first;
    [fuel] bounds the number of digits. *)
Fixpoint digits_of (fuel : nat) (n : N) (acc : str) : str :=
  match fuel with
  | O => acc
  | S fuel' =>
      let acc' := (48 + n mod 10)%N :: acc in
      if (n <? 10)%N then acc' else digits_of fuel' (n / 10)%N acc'
  end.

(** [str(z)] for an integer. *)
Definition str_of_Z (z : Z) : str :=
  let n := Z.to_N (Z.abs z) in
  let ds := digits_of (S (N.to_nat (N.log2 n))) n [] in
  if z <? 0 then 45%N :: ds else ds.

(** [str(v)] *)
Definition str_ (v : pyval) : str :=
  match v with
  | PNone => py "None"
  | PBool true => py "True"
  | PBool false => py "False"
  | PInt z => str_of_Z z
  | PStr s => s
  end.

End Py.

(** ** The fragment of [re] that the patterns of the repository use

    A backtracking matcher in continuation-passing style, as CPython's:
    alternatives are tried left to right, repetition is greedy and gives
    characters back one at a time, a group keeps the text of its last
    successful match.  Repetition occurs in the patterns only over
    character classes. *)

Module Re.

Inductive regex :=
| Eps
| Chr (c : N)
| Cls (p : N → bool)
| Star (p : N → bool)
| Seq (r1 r2 : regex)
| Alt (r1 r2 : regex)
| Grp (n : nat) (r : regex)
| Bol
| Eol.

(** [p+] and [r?] *)
Definition Plus (p : N → bool) : regex := Seq (Cls p) (Star p).
Definition Opt (r : regex) : regex := Alt r Eps.

Fixpoint Lit (s : str) : regex :=
  match s with
  | [] => Eps
  | c :: s' => Seq (Chr c) (Lit s')
  end.

(** [pos] is the index of the next character, [rest] the text from there
    on, [groups] the groups matched so far, the latest binding first. *)
Record state := mk {
  pos : nat;
  rest : str;
  groups : list (nat * str)
}.

(** [m.group(n)]; [None] for a group that did not take part. *)
Definition group (n : nat) (m : state) : option str :=
  snd <$> List.find (λ g, Nat.eqb g.1 n) (groups m).

Fixpoint star (p : N → bool) (k : state → option state)
    (i : nat) (s : str) (g : list (nat * str)) : option state :=
  match s with
  | c :: s' =>
      if p c then
        match star p k (S i) s' g with
        | Some m => Some m
        | None => k (mk i s g)
        end
      else k (mk i s g)
  | [] => k (mk i s g)
  end.

Fixpoint run (r : regex) (k : state → option state) (st : state) : option state :=
  match r with
  | Eps => k st
  | Chr c =>
      match rest st with
      | x :: s' => if (x =? c)%N then k (mk (S (pos st)) s' (groups st)) else None
      | [] => None
      end
  | Cls p =>
      match rest st with
      | x :: s' => if p x then k (mk (S (pos st)) s' (groups st)) else None
      | [] => None
      end
  | Star p => star p k (pos st) (rest st) (groups st)
  | Seq r1 r2 => run r1 (run r2 k) st
  | Alt r1 r2 =>
      match run r1 k st with
      | Some m => Some m
      | None => run r2 k st
      end
  | Grp n r =>
      run r (λ st', k (mk (pos st') (rest st')
                          ((n, take (pos st' - pos st) (rest st)) :: groups st')))
          st
  | Bol => if pos st is O then k st else None
  | Eol =>
      match rest st with
      | [] => k st
      | [c] => if (c =? 10)%N then k st else None
      | _ => None
      end
  end.

(** An attempt at index [i], where [s] is the text from [i] on. *)
Definition match_at (r : regex) (i : nat) (s : str) : option state :=
  run r Some (mk i s []).

(** [re.match(r, s)] *)
Definition match_ (r : regex) (s : str) : option state := match_at r 0 s.

(** The left-to-right scan behind [re.sub], [re.findall] and
    [re.split]: the text cut into the non-overlapping matches, each with
    the text it covers, and the characters between them.  [skip] counts
    the characters still covered by the last match. *)
Inductive piece :=
| Text (c : N)
| Hit (whole : list N) (m : state).

Fixpoint scan (r : regex) (skip : nat) (i : nat) (s : str) : list piece :=
  match skip with
  | S n =>
      match s with
      | _ :: s' => scan r n (S i) s'
      | [] => []
      end
  | O =>
      match match_at r i s with
      | Some m =>
          let len := (pos m - i)%nat in
          Hit (take len s) m ::
            match s with
            | c :: s' =>
                match len with
                | O => Text c :: scan r 0 (S i) s'
                | S n => scan r n (S i) s'
                end
            | [] => []
            end
      | None =>
          match s with
          | c :: s' => Text c :: scan r 0 (S i) s'
          | [] => []
          end
      end
  end.

(** [re.sub(r, repl, s)], [repl] a function of the match. *)
Definition sub (r : regex) (repl : list N → state → list N) (s : str) : str :=
  flat_map (λ p, match p with Text c => [c] | Hit w m => repl w m end)
           (scan r 0 0 s).

(** [re.findall(r, s)] for a pattern with one group. *)
Definition findall (r : regex) (s : str) : list str :=
  flat_map (λ p, match p with
                 | Text _ => []
                 | Hit _ m => [default [] (group 1 m)]
                 end)
           (scan r 0 0 s).

(** [re.split(r, s)] for a pattern without groups; [cur] is the
    segment being read, reversed. *)
Fixpoint split_pieces (cur : str) (ps : list piece) : list str :=
  match ps with
  | [] => [reverse cur]
  | Text c :: ps' => split_pieces (c :: cur) ps'
  | Hit _ _ :: ps' => reverse cur :: split_pieces [] ps'
  end.

Definition split (r : regex) (s : str) : list str :=
  split_pieces [] (scan r 0 0 s).

End Re.

(** A character literal. *)
Definition ch (a : ascii) : N := N_of_ascii a.
Arguments ch a%_char.

(** ** [services/visualization.py] *)

(** The names of the classes [AnalyticalIntent] and [ChartType]. *)
Module AnalyticalIntent.
Definition TREND : str := py "trend".
Definition DISTRIBUTION : str := py "distribution".
Definition COMPARISON : str := py "comparison".
Definition DELTA : str := py "delta".
Definition RELATIONSHIP : str := py "relationship".
Definition COMPOSITION : str := py "composition".
Definition names : list str :=
  [TREND; DISTRIBUTION; COMPARISON; DELTA; RELATIONSHIP; COMPOSITION].
End AnalyticalIntent.

Module ChartType.
Definition LINE : str := py "line".
Definition AREA : str := py "area".
Definition HISTOGRAM : str := py "histogram".
Definition BOXPLOT : str := py "boxplot".
Definition SCATTER : str := py "scatter".
Definition SLOPE : str := py "slope".
Definition DELTA_BAR : str := py "delta_bar".
Definition LOLLIPOP : str := py "lollipop".
Definition names : list str :=
  [LINE; AREA; HISTOGRAM; BOXPLOT; SCATTER; SLOPE; DELTA_BAR; LOLLIPOP].
End ChartType.

(** [models/visualization.py]: the fields of a validated [LLMChartSpec]
    that the service or its validator reads. *)
Module LLMChartSpec.
Record t := mk {
  should_render : bool;
  reason : option (list N);
  primary_question : option (list N);
  intent : option (list N);
  chart_type : option (list N);
  insight : option (list N)
}.

Definition nonempty (o : option (list N)) : bool :=
  match o with
  | Some (_ :: _) => true
  | _ => false
  end.

(** The [model_validator] [validate_render_fields]: [None] is the
    [ValueError]. *)
Definition validate_render_fields (self : t) : option t :=
  if should_render self then
    if negb (nonempty (intent self)) then None
    else if negb (nonempty (chart_type self)) then None
    else Some self
  else Some self.
End LLMChartSpec.

(** The dict that [analyze_column_async] returns. *)
Module ColumnAnalysis.
Record t := mk {
  visualizable : bool;
  data_type : option (list N);
  cardinality : nat;
  values : list Q;
  value_doc_indices : list nat;
  unit_type : option (list N);
  chart_type : option (list N);
  intent : option (list N);
  intent_confidence : Q;
  reveals_info : bool;
  info_reason : pyval;
  insight : pyval;
  llm_powered : bool
}.
End ColumnAnalysis.

(** What the service computes with operations on floats or hashes that
    have no exact counterpart here, and pydantic:
    - [sha256_key label values]: [ChartSpecCache._make_key], the truncated
      SHA-256 of the label and the sorted values;
    - [pydantic_fields raw]: pydantic's validation of the fields of
      the [LLMChartSpec] built from [raw], before the model validator runs;
    - [insight_text intent values unit label]: [generate_insight], which
      formats means and standard deviations. *)
Class Collaborators := {
  sha256_key : list N → list Q → list N;
  pydantic_fields : gmap (list N) pyval → option LLMChartSpec.t;
  insight_text : list N → list Q → option (list N) → list N → option (list N)
}.

(** The generative model behind [llm_service.generate_chart_spec], as
    awaited under [asyncio.wait_for]: [chart_provider label unit values
    related] is the raw response, [None] a timeout or an exception. *)
Class ChartLLM := {
  chart_provider :
    list N → option (list N) → list Q → list pyval → option (gmap (list N) pyval)
}.

Definition Qlt_bool (a b : Q) : bool := negb (Qle_bool b a).

(** [ChartSpecCache]: a chart spec and the time it was stored, by key.
    [now] is what [time.time()] returns in the call. *)
Module ChartSpecCache.
Record t := mk {
  _cache : gmap (list N) (gmap (list N) pyval * Q);
  _ttl : Q
}.

Section WithCollaborators.
Context {C : Collaborators}.

Definition _make_key (metric_label : str) (values : list Q) : str :=
  sha256_key metric_label values.

Definition get (self : t) (now : Q) (metric_label : str) (values : list Q)
  : option (gmap (list N) pyval) * t :=
  let key := _make_key metric_label values in
  match _cache self !! key with
  | Some (spec, timestamp) =>
      if Qlt_bool (now - timestamp) (_ttl self) then (Some spec, self)
      else (None, mk (delete key (_cache self)) (_ttl self))
  | None => (None, self)
  end.

Definition set (self : t) (now : Q) (metric_label : str) (values : list Q)
    (spec : gmap (list N) pyval) : t :=
  let key := _make_key metric_label values in
  mk (<[key := (spec, now)]> (_cache self)) (_ttl self).
Definition clear (self : t) : t := mk ∅ (_ttl self).

End WithCollaborators.
End ChartSpecCache.

Module VisualizationService.
Import Re.

(** The object: whether the LLM is used, the cache of chart specs, and
    the number of calls made to the LLM so far. *)
Record t := mk {
  _use_llm : bool;
  _cache : ChartSpecCache.t;
  llm_calls : nat
}.

(** [float(s)] on the strings that reach it in [parse_numeric_value]:
    decimal digits, ['.'], a sign, and in one branch a final letter.
    [None] is the [ValueError].  The result is the number the text
    denotes; Python rounds it to the nearest binary64. *)
Section Float.
Context {U : Unicode}.

Fixpoint digits_value (acc : Z) (s : str) : Z :=
  match s with
  | [] => acc
  | c :: s' => digits_value (acc * 10 + decimal_value c) s'
  end.

Fixpoint span_digits (s : str) : str * str :=
  match s with
  | c :: s' =>
      if isdecimal c then let (ds, r) := span_digits s' in (c :: ds, r)
      else ([], s)
  | [] => ([], [])
  end.

Definition unsigned_float (s : str) : option Q :=
  let (ip, r) := span_digits s in
  match r with
  | [] => if ip is [] then None else Some (digits_value 0 ip # 1)
  | c :: r' =>
      if (c =? ch ".")%N then
        let (fp, r'') := span_digits r' in
        match r'', ip ++ fp with
        | [], _ :: _ =>
            Some (digits_value 0 (ip ++ fp)
                  # Z.to_pos (10 ^ Z.of_nat (length fp)))
        | _, _ => None
        end
      else None
  end.

Definition float_ (s : str) : option Q :=
  match Str.strip s with
  | c :: s' =>
      if (c =? ch "+")%N then unsigned_float s'
      else if (c =? ch "-")%N then Qopp <$> unsigned_float s'
      else unsigned_float (c :: s')
  | [] => None
  end.
End Float.

Section WithUnicode.
Context {U : Unicode} {C : Collaborators} {L : ChartLLM}.

(** [[\d,]] *)
Definition digit_or_comma (c : N) : bool := isdecimal c || (c =? ch ",")%N.

(** A letter under [re.IGNORECASE]. *)
Definition ChrI (a : ascii) : regex := Cls (λ c, ci_eq c (ch a)).

(** [[kmb]] under [re.IGNORECASE] *)
Definition kmb (c : N) : bool :=
  ci_eq c (ch "k") || ci_eq c (ch "m") || ci_eq c (ch "b").

(** [[\d,]+\.?\d*] *)
Definition number : regex :=
  Seq (Plus digit_or_comma) (Seq (Opt (Chr (ch "."))) (Star isdecimal)).

(** [r'^[\d,]+\.?\d*\s*%$'] *)
Definition PERCENTAGE_PATTERN : regex :=
  Seq Bol (Seq number (Seq (Star isspace) (Seq (Chr (ch "%")) Eol))).

Definition CURRENCY_PATTERNS : list regex :=
  [ (* r'^\$[\d,]+\.?\d*[kmb]?$' *)
    Seq Bol (Seq (Chr (ch "$")) (Seq number (Seq (Opt (Cls kmb)) Eol)));
    (* r'^[\d,]+\.?\d*[kmb]?\s*\$' *)
    Seq Bol (Seq number (Seq (Opt (Cls kmb)) (Seq (Star isspace) (Chr (ch "$")))));
    (* r'^USD\s*[\d,]+\.?\d*' *)
    Seq Bol (Seq (ChrI "U") (Seq (ChrI "S") (Seq (ChrI "D")
      (Seq (Star isspace) number))));
    (* r'^EUR\s*[\d,]+\.?\d*' *)
    Seq Bol (Seq (ChrI "E") (Seq (ChrI "U") (Seq (ChrI "R")
      (Seq (Star isspace) number)))) ].

(** [r'^[\d,]+\.?\d*\s*x$'] *)
Definition MULTIPLE_PATTERN : regex :=
  Seq Bol (Seq number (Seq (Star isspace) (Seq (ChrI "x") Eol))).

Definition TIME_KEYWORDS : list str :=
  py <$> [ "growth"; "yoy"; "y/y"; "qoq"; "q/q"; "mom"; "m/m";
           "annual"; "quarterly"; "monthly"; "yearly";
           "trend"; "change"; "delta"; "increase"; "decrease";
           "over time"; "historical"; "forecast"; "projection" ]%string.

Definition COMPARISON_KEYWORDS : list str :=
  py <$> [ "vs"; "versus"; "compared"; "relative"; "benchmark";
           "peer"; "competitor"; "industry"; "average"; "median" ]%string.

Definition COMPOSITION_KEYWORDS : list str :=
  py <$> [ "breakdown"; "composition"; "mix"; "allocation";
           "segment"; "share"; "portion"; "split" ]%string.

Definition matches (r : regex) (s : str) : bool :=
  bool_decide (is_Some (match_ r s)).

(** [s.replace(c, '')] for a one-character [c] *)
Definition remove_char (c : N) (s : str) : str :=
  List.filter (λ x, negb (x =? c)%N) s.

(** [re.sub(r'[^\d.,]', '', s)] and [re.sub(r'[^\d.,\-+]', '', s)]:
    a substitution of single characters by nothing keeps the others. *)
Definition keep_number_chars (signs : bool) (s : str) : str :=
  List.filter (λ c, isdecimal c || (c =? ch ".")%N || (c =? ch ",")%N
                    || signs && ((c =? ch "-")%N || (c =? ch "+")%N)) s.

Definition parse_numeric_value (value_str : str) : option (Q * list N) :=
  if Str.eqb value_str [] || Str.eqb value_str em_dash
     || Str.eqb value_str (py "Fault")
  then None
  else
    let cleaned := Str.strip value_str in
    if matches PERCENTAGE_PATTERN cleaned then
      let num_str :=
        Str.strip (remove_char (ch ",") (remove_char (ch "%") cleaned)) in
      match float_ num_str with
      | Some v => Some (v, py "percentage")
      | None => None
      end
    else if existsb (λ pattern, matches pattern cleaned) CURRENCY_PATTERNS then
      let num_str := remove_char (ch ",") (keep_number_chars false cleaned) in
      let multiplier : Q :=
        (if Str.contains (py "k") (lower cleaned) then 1000
         else if Str.contains (py "m") (lower cleaned) then 1000000
         else if Str.contains (py "b") (lower cleaned) then 1000000000
         else 1)%Q in
      match float_ num_str with
      | Some v => Some ((v * multiplier)%Q, py "currency")
      | None => None
      end
    else if matches MULTIPLE_PATTERN cleaned then
      let num_str :=
        Str.strip (remove_char (ch ",") (remove_char (ch "x") cleaned)) in
      match float_ num_str with
      | Some v => Some (v, py "multiple")
      | None => None
      end
    else
      let num_str := remove_char (ch ",") (keep_number_chars true cleaned) in
      match float_ num_str with
      | Some v => if num_str is [] then None else Some (v, py "numeric")
      | None => None
      end.

(** [Counter(unit_types).most_common(1)[0][0]]: the unit counted most
    often, the one met first among equals; [None] for no units. *)
Definition count_of (u : str) (units : list str) : nat :=
  length (List.filter (Str.eqb u) units).

Definition most_common (units : list str) : option (list N) :=
  foldl (λ (best : option (list N)) u,
           match best with
           | None => Some u
           | Some b =>
               if (count_of b units <? count_of u units)%nat
               then Some u else best
           end)
        None (Py.unique units).

(** [sorted(values)] *)
Fixpoint insert_asc (x : Q) (l : list Q) : list Q :=
  match l with
  | [] => [x]
  | y :: l' => if Qle_bool y x then y :: insert_asc x l' else x :: l
  end.

Definition sorted (l : list Q) : list Q := foldr insert_asc [] l.

(** [sum(1 for kw in keywords if kw in label_lower)] *)
Definition keyword_score (keywords : list str) (label_lower : str) : nat :=
  length (List.filter (λ kw, Str.contains kw label_lower) keywords).

Definition resolve_intent (metric_label : str) (values : list Q)
    (unit_type : option (list N)) (all_metrics : list (gmap (list N) pyval))
    (all_values_by_metric : list (list N * list Q)) : list N * Q :=
  let label_lower := lower metric_label in
  let time_score := keyword_score TIME_KEYWORDS label_lower in
  if (0 <? time_score)%nat then
    (py "trend", min_ ((6#10) + inject_Z (Z.of_nat time_score) * (1#10)) (95#100))
  else
  let composition_score := keyword_score COMPOSITION_KEYWORDS label_lower in
  if (0 <? composition_score)%nat
     && bool_decide (unit_type = Some (py "percentage")) then
    (py "composition",
     min_ ((5#10) + inject_Z (Z.of_nat composition_score) * (15#100)) (9#10))
  else
  let comparison_score := keyword_score COMPARISON_KEYWORDS label_lower in
  if (0 <? comparison_score)%nat then
    (py "comparison",
     min_ ((5#10) + inject_Z (Z.of_nat comparison_score) * (15#100)) (9#10))
  else
  if existsb (λ kw, Str.contains kw label_lower)
       (py <$> ["change"; "delta"; "difference"; "gain"; "loss"]%string)
  then (py "delta", 75#100)
  else
  let other_numeric_columns :=
    List.filter (λ kv : list N * list Q,
                   negb (Str.eqb kv.1 metric_label) && (3 <=? length kv.2)%nat)
                all_values_by_metric in
  if other_numeric_columns is _ :: _ then (py "relationship", 4#10)
  else if (5 <=? length values)%nat then (py "distribution", 7#10)
  else (py "comparison", 5#10).

Definition select_chart_type (intent : str) (values : list Q)
    (unit_type : option (list N)) : option (list N) :=
  if Str.eqb intent (py "trend") then
    if bool_decide (unit_type = Some (py "percentage"))
    then Some (py "area") else Some (py "line")
  else if Str.eqb intent (py "distribution") then
    if (5 <=? length values)%nat then
      let sorted_values := sorted values in
      let q1_idx := (length sorted_values / 4)%nat in
      let q3_idx := (3 * length sorted_values / 4)%nat in
      let q1 := nth q1_idx sorted_values 0%Q in
      let q3 := nth q3_idx sorted_values 0%Q in
      let iqr := (q3 - q1)%Q in
      if Qlt_bool 0 iqr then
        let lower_bound := (q1 - (15#10) * iqr)%Q in
        let upper_bound := (q3 + (15#10) * iqr)%Q in
        let has_outliers :=
          existsb (λ v, Qlt_bool v lower_bound || Qlt_bool upper_bound v)
                  sorted_values in
        if has_outliers then Some (py "boxplot") else Some (py "histogram")
      else Some (py "histogram")
    else Some (py "histogram")
  else if Str.eqb intent (py "comparison") then Some (py "lollipop")
  else if Str.eqb intent (py "delta") then Some (py "delta_bar")
  else if Str.eqb intent (py "relationship") then Some (py "scatter")
  else if Str.eqb intent (py "composition") then Some (py "histogram")
  else Some (py "histogram").

Definition reveals_new_information (intent : str) (values : list Q)
    (cardinality : nat) : bool * list N :=
  if (cardinality <? 2)%nat then (false, py "Need at least 2 data points")
  else if Str.eqb intent (py "trend") then
    (true, py "Time-based patterns benefit from visualization")
  else if Str.eqb intent (py "delta") then
    (true, py "Change visualization clarifies direction and magnitude")
  else if Str.eqb intent (py "relationship") then
    (true, py "Relationship patterns not visible in tabular form")
  else if Str.eqb intent (py "distribution") then
    (true, py "Distribution visualization shows spread")
  else if Str.eqb intent (py "comparison") then
    (true, py "Comparison chart highlights differences")
  else if Str.eqb intent (py "composition") then
    (true, py "Composition chart shows proportions")
  else (true, py "Chart provides visual context").

Definition generate_insight (intent : str) (values : list Q)
    (unit_type : option (list N)) (metric_label : str) : option (list N) :=
  insight_text intent values unit_type metric_label.

Definition _fallback_analyze_column (metric_label : str)
    (parsed_values : list Q) (most_common_unit : option (list N))
    (all_metrics : list (gmap (list N) pyval))
    (all_values_by_metric : list (list N * list Q))
    (value_doc_map : list nat) (cardinality : nat) (units_consistent : bool)
  : ColumnAnalysis.t :=
  let (intent, intent_confidence) :=
    resolve_intent metric_label parsed_values most_common_unit
                   all_metrics all_values_by_metric in
  let chart_type := select_chart_type intent parsed_values most_common_unit in
  let (reveals_info, info_reason) :=
    reveals_new_information intent parsed_values cardinality in
  let insight := generate_insight intent parsed_values most_common_unit metric_label in
  let visualizable :=
    (2 <=? cardinality)%nat && bool_decide (most_common_unit ≠ None) in
  {| ColumnAnalysis.visualizable := visualizable;
     ColumnAnalysis.data_type := most_common_unit;
     ColumnAnalysis.cardinality := cardinality;
     ColumnAnalysis.values := parsed_values;
     ColumnAnalysis.value_doc_indices := value_doc_map;
     ColumnAnalysis.unit_type := most_common_unit;
     ColumnAnalysis.chart_type := chart_type;
     ColumnAnalysis.intent := Some intent;
     ColumnAnalysis.intent_confidence := intent_confidence;
     ColumnAnalysis.reveals_info := reveals_info;
     ColumnAnalysis.info_reason := PStr info_reason;
     ColumnAnalysis.insight := Py.of_opt insight;
     ColumnAnalysis.llm_powered := false |}.

Definition LLM_TO_FRONTEND_CHART_TYPE : list (list N * list N) :=
  [ (py "LINE", py "line"); (py "AREA", py "area"); (py "SLOPE", py "slope");
    (py "SCATTER", py "scatter"); (py "BOX", py "boxplot");
    (py "HISTOGRAM", py "histogram"); (py "WATERFALL", py "delta_bar");
    (py "LOLLIPOP", py "lollipop"); (py "DELTA_BAR", py "delta_bar") ].

Definition LLM_TO_FRONTEND_INTENT : list (list N * list N) :=
  [ (py "TREND", py "trend"); (py "DELTA", py "delta");
    (py "RELATIONSHIP", py "relationship"); (py "COMPARISON", py "comparison");
    (py "DISTRIBUTION", py "distribution"); (py "COMPOSITION", py "composition") ].

(** [table.get(key, default)] for a table keyed by strings *)
Definition table_get (table : list (list N * list N)) (key : pyval)
    (default_ : str) : str :=
  match key with
  | PStr s =>
      match List.find (λ kv, Str.eqb kv.1 s) table with
      | Some kv => kv.2
      | None => default_
      end
  | _ => default_
  end.

Definition _llm_spec_to_response (llm_spec : gmap (list N) pyval)
    (parsed_values : list Q) (most_common_unit : option (list N))
    (value_doc_map : list nat) (cardinality : nat) (units_consistent : bool)
  : ColumnAnalysis.t :=
  let should_render := Py.get llm_spec "should_render" (PBool false) in
  if negb (Py.truthy should_render) then
    {| ColumnAnalysis.visualizable := false;
       ColumnAnalysis.data_type := most_common_unit;
       ColumnAnalysis.cardinality := cardinality;
       ColumnAnalysis.values := parsed_values;
       ColumnAnalysis.value_doc_indices := value_doc_map;
       ColumnAnalysis.unit_type := most_common_unit;
       ColumnAnalysis.chart_type := None;
       ColumnAnalysis.intent := None;
       ColumnAnalysis.intent_confidence := 0;
       ColumnAnalysis.reveals_info := false;
       ColumnAnalysis.info_reason :=
         Py.get llm_spec "reason"
           (PStr (py "Matrix already communicates this information clearly"));
       ColumnAnalysis.insight := PNone;
       ColumnAnalysis.llm_powered := true |}
  else
    let llm_intent := Py.get llm_spec "intent" (PStr (py "DISTRIBUTION")) in
    let llm_chart_type := Py.get llm_spec "chart_type" (PStr (py "HISTOGRAM")) in
    let frontend_intent :=
      table_get LLM_TO_FRONTEND_INTENT llm_intent (py "distribution") in
    let frontend_chart_type :=
      table_get LLM_TO_FRONTEND_CHART_TYPE llm_chart_type (py "histogram") in
    let visualizable :=
      (2 <=? cardinality)%nat && bool_decide (most_common_unit ≠ None) in
    {| ColumnAnalysis.visualizable := visualizable;
       ColumnAnalysis.data_type := most_common_unit;
       ColumnAnalysis.cardinality := cardinality;
       ColumnAnalysis.values := parsed_values;
       ColumnAnalysis.value_doc_indices := value_doc_map;
       ColumnAnalysis.unit_type := most_common_unit;
       ColumnAnalysis.chart_type := Some frontend_chart_type;
       ColumnAnalysis.intent := Some frontend_intent;
       ColumnAnalysis.intent_confidence := 95#100;
       ColumnAnalysis.reveals_info := true;
       ColumnAnalysis.info_reason :=
         Py.get llm_spec "primary_question"
           (PStr (py "LLM-determined visualization"));
       ColumnAnalysis.insight := Py.get_ llm_spec "insight";
       ColumnAnalysis.llm_powered := true |}.

(** [generate_chart_spec_llm]; [t_get] and [t_set] are the clock as
    the cache reads it at lookup and at store. *)
Definition generate_chart_spec_llm (self : t) (t_get t_set : Q)
    (metric_label : str) (values : list Q) (unit_type : option (list N))
    (related_columns : list pyval) : option (gmap (list N) pyval) * t :=
  let (cached, cache) := ChartSpecCache.get (_cache self) t_get metric_label values in
  let self := mk (_use_llm self) cache (llm_calls self) in
  match cached with
  | Some spec => (Some spec, self)
  | None =>
      let self := mk (_use_llm self) (_cache self) (S (llm_calls self)) in
      match chart_provider metric_label unit_type values related_columns with
      | None => (None, self)
      | Some raw_response =>
          match pydantic_fields raw_response
                  ≫= LLMChartSpec.validate_render_fields with
          | None => (None, self)
          | Some validated_spec =>
              (Some raw_response,
               mk (_use_llm self)
                  (ChartSpecCache.set (_cache self) t_set metric_label values
                                      raw_response)
                  (llm_calls self))
          end
      end
  end.

(** The values of the cells of a column: the first loop of
    [analyze_column_async]. *)
Definition metric_cells (metric_id : str) (cells : list (list N * CellData.t))
  : list str :=
  flat_map (λ kc : list N * CellData.t,
              if Str.contains (py "-" ++ metric_id) kc.1 then
                match CellData.value kc.2 with
                | Some (c :: v) => [c :: v]
                | _ => []
                end
              else [])
           cells.

(** The second loop: each value that parses, with its index. *)
Definition parsed_cells (metric_cells : list str) : list (nat * (Q * list N)) :=
  flat_map (λ iv : nat * list N,
              match parse_numeric_value iv.2 with
              | Some parsed => [(iv.1, parsed)]
              | None => []
              end)
           (imap pair metric_cells).

Definition analyze_column_async (self : t) (t_get t_set : Q)
    (metric_id metric_label : str) (cells : list (list N * CellData.t))
    (all_metrics : list (gmap (list N) pyval))
    (all_values_by_metric : list (list N * list Q)) : ColumnAnalysis.t * t :=
  let parsed := parsed_cells (metric_cells metric_id cells) in
  let parsed_values := (λ p : nat * (Q * list N), p.2.1) <$> parsed in
  let unit_types := (λ p : nat * (Q * list N), p.2.2) <$> parsed in
  let value_doc_map := fst <$> parsed in
  let most_common_unit := most_common unit_types in
  let cardinality := length parsed_values in
  let units_consistent :=
    if unit_types is [] then false
    else (length (Py.unique unit_types) <=? 1)%nat in
  let fallback :=
    _fallback_analyze_column metric_label parsed_values most_common_unit
      all_metrics all_values_by_metric value_doc_map cardinality
      units_consistent in
  if (cardinality <? 2)%nat || bool_decide (most_common_unit = None) then
    (fallback, self)
  else if _use_llm self then
    let related_columns :=
      List.filter (λ l, negb (bool_decide (l = PStr metric_label)))
        ((λ m, Py.get m "label" (PStr [])) <$> all_metrics) in
    let (llm_spec, self) :=
      generate_chart_spec_llm self t_get t_set metric_label parsed_values
        most_common_unit related_columns in
    match llm_spec with
    | Some llm_spec =>
        if Py.truthy (Py.get llm_spec "should_render" (PBool false)) then
          (_llm_spec_to_response llm_spec parsed_values most_common_unit
             value_doc_map cardinality units_consistent, self)
        else (fallback, self)
    | None => (fallback, self)
    end
  else (fallback, self).

(** [analyze_column]: the same two loops, then the rules. *)
Definition analyze_column (metric_id metric_label : str)
    (cells : list (list N * CellData.t))
    (all_metrics : list (gmap (list N) pyval))
    (all_values_by_metric : list (list N * list Q)) : ColumnAnalysis.t :=
  let parsed := parsed_cells (metric_cells metric_id cells) in
  let parsed_values := (λ p : nat * (Q * list N), p.2.1) <$> parsed in
  let unit_types := (λ p : nat * (Q * list N), p.2.2) <$> parsed in
  let value_doc_map := fst <$> parsed in
  let most_common_unit := most_common unit_types in
  let cardinality := length parsed_values in
  let units_consistent :=
    if unit_types is [] then false
    else (length (Py.unique unit_types) <=? 1)%nat in
  _fallback_analyze_column metric_label parsed_values most_common_unit
    all_metrics all_values_by_metric value_doc_map cardinality
    units_consistent.

End WithUnicode.
End VisualizationService.

(** ** [services/document_retriever.py] *)

Module DocumentRetriever.
Import Re.

Record t := mk {
  chunk_size : Z;
  chunk_overlap : Z
}.

(** [DocumentRetriever()] *)
Definition default_ : t := mk 2000 200.

(** The variables of the loop of [_chunk_document]. *)
Record loop := Loop {
  chunks : list DocChunk.t;
  current_chunk : list N;
  current_section : option (list N)
}.

Section WithUnicode.
Context {U : Unicode}.

Definition newline : N := 10%N.

(** [r'\n\s*\n'] *)
Definition paragraph_break : regex :=
  Seq (Chr newline) (Seq (Star isspace) (Chr newline)).

Definition dot (c : N) : bool := negb (c =? newline)%N.
Definition upper (c : N) : bool := ((65 <=? c) && (c <=? 90))%N.
Definition upper_or_space (c : N) : bool := upper c || isspace c.

(** [r'^#+\s*(.+)$|^([A-Z][A-Z\s]+)$'] *)
Definition header : regex :=
  Alt (Seq Bol (Seq (Plus (N.eqb (ch "#")))
         (Seq (Star isspace) (Seq (Grp 1 (Plus dot)) Eol))))
      (Seq Bol (Seq (Grp 2 (Seq (Cls upper) (Plus upper_or_space))) Eol)).

(** [header_match.group(1) or header_match.group(2)] *)
Definition header_title (m : state) : option (list N) :=
  match group 1 m with
  | Some (c :: s) => Some (c :: s)
  | _ => group 2 m
  end.

Definition new_chunk (doc : Document.t) (content : str)
    (section : option (list N)) : DocChunk.t :=
  {| DocChunk.doc_id := Document.id doc;
     DocChunk.doc_name := Document.name doc;
     DocChunk.content := Str.strip content;
     DocChunk.section := section;
     DocChunk.page := None;
     DocChunk.relevance_score := 0 |}.

(** One turn of [for para in paragraphs]. *)
Definition step (self : t) (doc : Document.t) (st : loop) (para : str) : loop :=
  let current_section :=
    match match_ header (Str.strip para) with
    | Some header_match => header_title header_match
    | None => current_section st
    end in
  if chunk_size self <? Z.of_nat (length (current_chunk st) + length para) then
    let chunks :=
      if current_chunk st is [] then chunks st
      else chunks st ++ [new_chunk doc (current_chunk st) current_section] in
    Loop chunks para current_section
  else
    Loop (chunks st)
         (if current_chunk st is [] then para
          else current_chunk st ++ [newline; newline] ++ para)
         current_section.

Definition paragraphs (doc : Document.t) : list str :=
  split paragraph_break (Document.content doc).

Definition _chunk_document (self : t) (doc : Document.t) : list DocChunk.t :=
  let st := foldl (step self doc) (Loop [] [] None) (paragraphs doc) in
  if current_chunk st is [] then chunks st
  else chunks st ++ [new_chunk doc (current_chunk st) (current_section st)].

(** [_score_chunk_relevance] *)
Definition _score_chunk_relevance (chunk : DocChunk.t) (query_terms : list str) : Q :=
  let content_lower := lower (DocChunk.content chunk) in
  let score :=
    foldl (λ (score : Q) term,
             let count := Str.count (lower term) content_lower in
             if (0 <? count)%nat
             then (score + min_ (inject_Z (Z.of_nat count) * (2#10)) 1)%Q
             else score)
          0%Q query_terms in
  let score :=
    match DocChunk.section chunk with
    | Some (c :: s) =>
        let section_lower := lower (c :: s) in
        foldl (λ (score : Q) term,
                 if Str.contains (lower term) section_lower
                 then (score + (5#10))%Q else score)
              score query_terms
    | _ => score
    end in
  min_ score 1.

(** [[w.strip() for w in query.lower().split() if len(w) > 3]] *)
Definition query_terms_of (query : str) : list str :=
  Str.strip <$> List.filter (λ w, (3 <? length w)%nat) (Str.split (lower query)).

(** [chunk.relevance_score = score] *)
Definition with_score (chunk : DocChunk.t) (score : Q) : DocChunk.t :=
  {| DocChunk.doc_id := DocChunk.doc_id chunk;
     DocChunk.doc_name := DocChunk.doc_name chunk;
     DocChunk.content := DocChunk.content chunk;
     DocChunk.section := DocChunk.section chunk;
     DocChunk.page := DocChunk.page chunk;
     DocChunk.relevance_score := score |}.

(** [l[:n]]: a negative [n] counts from the end. *)
Definition up_to {A : Type} (n : Z) (l : list A) : list A :=
  if 0 <=? n then take (Z.to_nat n) l
  else take (length l - Z.to_nat (- n)) l.

(** The chunks of one document that [retrieve] keeps, scored. *)
Definition relevant_chunks (self : t) (query_terms : list str)
    (min_relevance : Q) (doc : Document.t) : list DocChunk.t :=
  flat_map (λ chunk,
              let chunk :=
                with_score chunk (_score_chunk_relevance chunk query_terms) in
              if Qle_bool min_relevance (DocChunk.relevance_score chunk)
              then [chunk] else [])
           (_chunk_document self doc).

Definition retrieve (self : t) (query : str) (documents : list Document.t)
    (max_chunks : Z) (min_relevance : Q) : list DocChunk.t :=
  let query_terms := query_terms_of query in
  let all_chunks :=
    flat_map (relevant_chunks self query_terms min_relevance) documents in
  up_to max_chunks (sort_desc DocChunk.relevance_score all_chunks).

End WithUnicode.
End DocumentRetriever.

(** ** [models/chat.py] *)

Module CellCitation.
Record t := mk {
  index : nat;
  doc_id : list N;
  doc_name : list N;
  metric_id : list N;
  metric_label : list N;
  value : list N
}.
End CellCitation.

Module DocumentCitation.
Record t := mk {
  index : nat;
  doc_id : list N;
  doc_name : list N;
  section : option (list N);
  page : option Z;
  excerpt : list N
}.
End DocumentCitation.

Inductive Citation :=
| Cell (c : CellCitation.t)
| Doc (d : DocumentCitation.t).

Definition Citation_index (c : Citation) : nat :=
  match c with
  | Cell c => CellCitation.index c
  | Doc d => DocumentCitation.index d
  end.

(** pydantic's validation of one field, by the type the model declares
    for it; [None] is the [ValidationError]. *)
Class Pydantic := {
  field_str : pyval → option (list N);
  field_optional_str : pyval → option (option (list N));
  field_optional_int : pyval → option (option Z)
}.

(** The integer that pydantic reads in a string: white space around it
    is dropped, then come an optional sign and decimal digits, and a
    fraction of zeros only is accepted (["3"], [" 3 "], ["-3"], ["3.0"]).
    Other spellings are invalid here. *)
Module IntOfStr.

(** White space as Rust's [str::trim] has it. *)
Definition white_space (c : N) : bool :=
  ((9 <=? c) && (c <=? 13) || (c =? 32) || (c =? 133) || (c =? 160)
   || (c =? 5760) || (8192 <=? c) && (c <=? 8202) || (c =? 8232)
   || (c =? 8233) || (c =? 8239) || (c =? 8287) || (c =? 12288))%N.

Fixpoint drop_while (p : N → bool) (s : str) : str :=
  match s with
  | c :: s' => if p c then drop_while p s' else s
  | [] => []
  end.

Fixpoint take_while (p : N → bool) (s : str) : str :=
  match s with
  | c :: s' => if p c then c :: take_while p s' else []
  | [] => []
  end.

Definition trim (s : str) : str :=
  reverse (drop_while white_space (reverse (drop_while white_space s))).

Definition digit (c : N) : bool := ((48 <=? c) && (c <=? 57))%N.

Definition digits (s : str) : option Z :=
  if s is [] then None
  else if forallb digit s
  then Some (foldl (λ acc c, acc * 10 + (Z.of_N c - 48)) 0 s)
  else None.

(** The text without a fraction made of zeros. *)
Definition strip_decimal_zeros (s : str) : str :=
  let integral := take_while (λ c, negb (c =? 46)%N) s in
  match drop_while (λ c, negb (c =? 46)%N) s with
  | _ :: fraction => if forallb (N.eqb 48) fraction then integral else s
  | [] => s
  end.

Definition signed (s : str) : option Z :=
  match s with
  | c :: s' =>
      if (c =? 43)%N then digits s'
      else if (c =? 45)%N then Z.opp <$> digits s'
      else digits s
  | [] => None
  end.

Definition parse (s : str) : option Z :=
  let s := trim s in
  match signed s with
  | Some z => Some z
  | None => signed (strip_decimal_zeros s)
  end.

End IntOfStr.

(** pydantic 2, in its default (lax) mode, on JSON scalars: a string
    field takes strings only; an integer field takes integers, booleans
    and the strings that spell an integer. *)
Definition pydantic_v2 : Pydantic := {|
  field_str := λ v, match v with PStr s => Some s | _ => None end;
  field_optional_str := λ v,
    match v with PStr s => Some (Some s) | PNone => Some None | _ => None end;
  field_optional_int := λ v,
    match v with
    | PInt z => Some (Some z)
    | PBool b => Some (Some (Z.b2z b))
    | PStr s => Some <$> IntOfStr.parse s
    | PNone => Some None
    end
|}.

(** ** [routers/chat.py] *)

Module Chat.
Import Re.

(** The context maps [{i: match for i, match in enumerate(..., 1)}]:
    integer keys, in insertion order. *)
Abbreviation cell_map_t := (list (Z * CellMatch.t)) (only parsing).
Abbreviation doc_map_t := (list (Z * DocChunk.t)) (only parsing).

Section Maps.
Context {A : Type}.

(** [m[key]] for an integer key; [None] when [key not in m]. *)
Definition map_get (key : Z) (m : list (Z * A)) : option A :=
  snd <$> List.find (λ kv, (kv.1 =? key)%Z) m.

(** [idx in m] and [m[idx]] for a value [idx]: only numbers can equal
    an integer key. *)
Definition map_lookup (idx : pyval) (m : list (Z * A)) : option A :=
  match Py.as_int idx with
  | Some z => map_get z m
  | None => None
  end.

(** [list(m.values())[min(idx - 1, len(m) - 1)] if idx > 0 else
    list(m.values())[0]], for a non-empty [m]; [None] is the
    [TypeError] of comparing [idx], when it is not a number, with
    [0]. *)
Definition map_fallback (idx : pyval) (m : list (Z * A)) : option A :=
  match Py.as_int idx with
  | Some z =>
      if 0 <? z
      then m.*2 !! Z.to_nat (Z.min (z - 1) (Z.of_nat (length m) - 1))
      else m.*2 !! 0%nat
  | None => None
  end.
End Maps.

(** [not doc_id or doc_id == "..." or len(doc_id) < 5]; [None] is the
    [TypeError] of [len] on a number. *)
Definition is_placeholder (doc_id : pyval) : option bool :=
  if negb (Py.truthy doc_id) then Some true
  else match doc_id with
       | PStr s => Some (Str.eqb s (py "...") || (length s <? 5)%nat)
       | _ => None
       end.

Definition fill_from_cell (citation : dict) (m : CellMatch.t) : dict :=
  let citation := Py.set citation "doc_id" (PStr (CellMatch.doc_id m)) in
  let citation := Py.set citation "doc_name" (PStr (CellMatch.doc_name m)) in
  let citation := Py.set citation "metric_id" (PStr (CellMatch.metric_id m)) in
  let citation := Py.set citation "metric_label" (PStr (CellMatch.metric_label m)) in
  Py.set citation "value" (Py.of_opt (CellData.value (CellMatch.cell m))).

Definition fill_from_chunk (citation : dict) (chunk : DocChunk.t) : dict :=
  let citation := Py.set citation "doc_id" (PStr (DocChunk.doc_id chunk)) in
  let citation := Py.set citation "doc_name" (PStr (DocChunk.doc_name chunk)) in
  let citation := Py.set citation "section" (Py.of_opt (DocChunk.section chunk)) in
  Py.set citation "excerpt" (PStr (DocChunk.content chunk)).

(** The repair of one citation against its context map: the body shared
    by the two branches of the loop of [_enrich_citations]. *)
Definition enrich_from {A : Type} (fill : dict → A → dict)
    (citation : dict) (m : list (Z * A)) : option dict :=
  let idx := Py.get citation "index" (PInt 0) in
  let doc_id := Py.get citation "doc_id" (PStr []) in
  placeholder ← is_placeholder doc_id;
  if placeholder : bool then
    match map_lookup idx m with
    | Some found => Some (fill citation found)
    | None =>
        if m is [] then Some citation
        else fill citation <$> map_fallback idx m
    end
  else Some citation.

(** One turn of the loop of [_enrich_citations]. *)
Definition enrich_one (c : dict) (cell_map : cell_map_t) (doc_map : doc_map_t)
  : option dict :=
  let citation := c in
  if bool_decide (Py.get_ citation "type" = PStr (py "cell")) then
    enrich_from fill_from_cell citation cell_map
  else if bool_decide (Py.get_ citation "type" = PStr (py "document")) then
    enrich_from fill_from_chunk citation doc_map
  else Some citation.

(** [_enrich_citations]; [None] when a [TypeError] escapes. *)
Definition _enrich_citations (raw_citations : list dict)
    (cell_map : cell_map_t) (doc_map : doc_map_t) : option (list dict) :=
  mapM (λ c, enrich_one c cell_map doc_map) raw_citations.

Section WithUnicode.
Context {U : Unicode} {P : Pydantic}.

Definition not_rparen (c : N) : bool := negb (c =? ch ")")%N.

(** [\[(Doc|Cell)\s*(\d+)\]] *)
Definition marker : regex :=
  Seq (Chr (ch "["))
      (Seq (Grp 1 (Alt (Lit (py "Doc")) (Lit (py "Cell"))))
           (Seq (Star isspace) (Seq (Grp 2 (Plus isdecimal)) (Chr (ch "]"))))).

(** [r'\[(Doc|Cell)\s*(\d+)\]\s*\([^)]*\)'] *)
Definition pattern : regex :=
  Seq marker
      (Seq (Star isspace)
           (Seq (Chr (ch "(")) (Seq (Star not_rparen) (Chr (ch ")"))))).

(** [r'\[(Doc|Cell)\s*(\d+)\]'] *)
Definition pattern2 : regex := marker.

(** [r'\s*\(doc_id=[^)]*\)'] *)
Definition pattern3 : regex :=
  Seq (Star isspace)
      (Seq (Lit (py "(doc_id=")) (Seq (Star not_rparen) (Chr (ch ")")))).

(** The replacement [r'[\2]'] *)
Definition bracket_group2 (whole : str) (m : state) : str :=
  [ch "["] ++ default [] (group 2 m) ++ [ch "]"].

Definition _clean_citation_leakage (content : str) : str :=
  let content := sub pattern bracket_group2 content in
  let content := sub pattern2 bracket_group2 content in
  let content := sub pattern3 (λ _ _, []) content in
  content.

(** [r'\[(\d+)\]'] *)
Definition ref_pattern : regex :=
  Seq (Chr (ch "[")) (Seq (Grp 1 (Plus isdecimal)) (Chr (ch "]"))).

(** [CellCitation(index=..., doc_id=data.get("doc_id", ...), ...)];
    [None] is the [ValidationError]. *)
Definition new_CellCitation (index : nat) (data : dict) : option Citation :=
  doc_id ← field_str (Py.get data "doc_id" (PStr []));
  doc_name ← field_str (Py.get data "doc_name" (PStr (py "Unknown")));
  metric_id ← field_str (Py.get data "metric_id" (PStr []));
  metric_label ← field_str (Py.get data "metric_label" (PStr (py "Unknown")));
  value ← field_str (Py.get data "value" (PStr []));
  Some (Cell (CellCitation.mk index doc_id doc_name metric_id metric_label value)).

Definition new_DocumentCitation (index : nat) (data : dict) : option Citation :=
  doc_id ← field_str (Py.get data "doc_id" (PStr []));
  doc_name ← field_str (Py.get data "doc_name" (PStr (py "Unknown")));
  section ← field_optional_str (Py.get_ data "section");
  page ← field_optional_int (Py.get_ data "page");
  excerpt ← field_str (Py.get data "excerpt" (PStr []));
  Some (Doc (DocumentCitation.mk index doc_id doc_name section page excerpt)).

(** The [try] block that appends a citation with the given index: the
    citations it adds to the list, none for a type that is neither
    ["cell"] nor ["document"] and none when the construction fails. *)
Definition typed_citation (index : nat) (data : dict) : list Citation :=
  if bool_decide (Py.get_ data "type" = PStr (py "cell")) then
    option_list (new_CellCitation index data)
  else if bool_decide (Py.get_ data "type" = PStr (py "document")) then
    option_list (new_DocumentCitation index data)
  else [].

Definition _parse_citations (raw_citations : list dict) : list Citation :=
  mjoin (imap (λ i c, typed_citation (S i) c) raw_citations).

(** [citation_by_index]: the raw citations by the text of their own
    index, a later one replacing an earlier one. *)
Definition citation_by_index (raw_citations : list dict)
  : gmap (list N) (gmap (list N) pyval) :=
  foldl (λ m c,
           match Py.get_ c "index" with
           | PNone => m
           | idx => <[Py.str_ idx := c]> m
           end)
        ∅ raw_citations.

(** The citation a reference resolves to: by its own index, else by
    position. *)
Definition resolve (raw_citations : list dict) (new_index : nat)
    (old_ref : str) : option dict :=
  match citation_by_index raw_citations !! old_ref with
  | Some citation_data => Some citation_data
  | None => raw_citations !! (new_index - 1)%nat
  end.

(** The loop over [enumerate(unique_refs, start=1)]: the normalized
    citations and the map from old reference to new index. *)
Definition renumber (raw_citations : list dict) (unique_refs : list str)
  : list Citation * gmap (list N) nat :=
  foldl (λ (acc : list Citation * gmap (list N) nat) (ir : nat * list N),
           let (normalized_citations, old_to_new) := acc in
           let new_index := S ir.1 in
           let old_ref := ir.2 in
           match resolve raw_citations new_index old_ref with
           | None => acc
           | Some citation_data =>
               (normalized_citations ++ typed_citation new_index citation_data,
                <[old_ref := new_index]> old_to_new)
           end)
        ([], ∅) (imap pair unique_refs).

Definition replace_ref (old_to_new : gmap (list N) nat) (whole : str)
    (m : state) : str :=
  match old_to_new !! default [] (group 1 m) with
  | Some new_idx => [ch "["] ++ Py.str_of_Z (Z.of_nat new_idx) ++ [ch "]"]
  | None => whole
  end.

Definition _normalize_citations (content : str) (raw_citations : list dict)
  : list N * list Citation :=
  let content := _clean_citation_leakage content in
  let refs_in_text := findall ref_pattern content in
  let unique_refs := Py.unique refs_in_text in
  if unique_refs is [] then (content, _parse_citations raw_citations)
  else if raw_citations is [] then (content, _parse_citations raw_citations)
  else
    let (normalized_citations, old_to_new) := renumber raw_citations unique_refs in
    let normalized_content := sub ref_pattern (replace_ref old_to_new) content in
    (normalized_content, normalized_citations).

End WithUnicode.
End Chat.

(** The context maps of the endpoint:
    [{i: match for i, match in enumerate(cell_matches, 1)}]. *)
Definition context_map {A : Type} (l : list A) : list (Z * A) :=
  imap (λ i x, (Z.of_nat (S i), x)) l.

(** ** [services/citation.py] *)

Module CitationGenerator.

Record t := mk { _citation_index : nat }.

(** [CitationGenerator()] *)
Definition new : t := mk 0.

Definition reset (self : t) : t := mk 0.

Definition create_cell_citation (self : t) (match_ : CellMatch.t)
  : CellCitation.t * t :=
  let self := mk (_citation_index self + 1) in
  ({| CellCitation.index := _citation_index self;
      CellCitation.doc_id := CellMatch.doc_id match_;
      CellCitation.doc_name := CellMatch.doc_name match_;
      CellCitation.metric_id := CellMatch.metric_id match_;
      CellCitation.metric_label := CellMatch.metric_label match_;
      CellCitation.value :=
        match CellData.value (CellMatch.cell match_) with
        | Some (c :: v) => c :: v
        | _ => []
        end |},
   self).

Definition create_document_citation (self : t) (chunk : DocChunk.t)
  : DocumentCitation.t * t :=
  let self := mk (_citation_index self + 1) in
  ({| DocumentCitation.index := _citation_index self;
      DocumentCitation.doc_id := DocChunk.doc_id chunk;
      DocumentCitation.doc_name := DocChunk.doc_name chunk;
      DocumentCitation.section := DocChunk.section chunk;
      DocumentCitation.page := DocChunk.page chunk;
      DocumentCitation.excerpt := DocChunk.content chunk |},
   self).

(** The two loops of [build_citations_from_matches] thread the list and
    the generator. *)
Definition build_citations_from_matches (self : t)
    (cell_matches : list CellMatch.t) (doc_chunks : list DocChunk.t)
  : list Citation * t :=
  let self := reset self in
  let st :=
    foldl (λ (st : list Citation * t) match_,
             let (c, self) := create_cell_citation st.2 match_ in
             (st.1 ++ [Cell c], self))
          ([], self) cell_matches in
  foldl (λ (st : list Citation * t) chunk,
           let (c, self) := create_document_citation st.2 chunk in
           (st.1 ++ [Doc c], self))
        st doc_chunks.

End CitationGenerator.

(** ** [state/store.py] *)

Inductive Role := user | assistant.

Module ChatMessage.
Record t := mk {
  id : str;
  role : Role;
  content : str;
  timestamp : Q;
  citations : option (list Citation)
}.
End ChatMessage.

(** A [dict] with string keys in insertion order: assigning to a key
    that is present keeps its place. *)
Module PyDict.
Section WithValues.
Context {V : Type}.

(** [d.get(k)] *)
Definition get (k : str) (d : list (str * V)) : option V :=
  snd <$> List.find (λ kv, Str.eqb kv.1 k) d.

(** [d[k] = v] *)
Fixpoint set (k : str) (v : V) (d : list (str * V)) : list (str * V) :=
  match d with
  | [] => [(k, v)]
  | kv :: d' => if Str.eqb kv.1 k then (k, v) :: d' else kv :: set k v d'
  end.

(** [del d[k]] for a key that is present *)
Definition del (k : str) (d : list (str * V)) : list (str * V) :=
  List.filter (λ kv, negb (Str.eqb kv.1 k)) d.

End WithValues.
End PyDict.

(** [l[start:]]: a negative [start] counts from the end. *)
Definition slice_from {A : Type} (start : Z) (l : list A) : list A :=
  if 0 <=? start then drop (Z.to_nat start) l
  else drop (length l - Z.to_nat (- start)) l.

Module StateStore.

Record t := mk {
  _documents : list (str * Document.t);
  _cells : list (str * CellData.t);
  _metrics : list (str * Metric.t);
  _chat_history : gmap (list N) (list ChatMessage.t)
}.

(** [StateStore()] *)
Definition new : t := mk [] [] [] ∅.

Definition add_document (self : t) (doc : Document.t) : t :=
  mk (PyDict.set (Document.id doc) doc (_documents self))
     (_cells self) (_metrics self) (_chat_history self).

Definition get_document (self : t) (doc_id : str) : option Document.t :=
  PyDict.get doc_id (_documents self).

Definition get_all_documents (self : t) : list Document.t :=
  (_documents self).*2.

(** [f"{doc_id}-"] *)
Definition cell_prefix (doc_id : str) : str := doc_id ++ py "-".

Definition remove_document (self : t) (doc_id : str) : bool * t :=
  match PyDict.get doc_id (_documents self) with
  | Some _ =>
      let documents := PyDict.del doc_id (_documents self) in
      let keys_to_remove :=
        List.filter (Str.startswith (cell_prefix doc_id)) (_cells self).*1 in
      let cells := foldl (λ cells key, PyDict.del key cells)
                         (_cells self) keys_to_remove in
      (true, mk documents cells (_metrics self) (_chat_history self))
  | None => (false, self)
  end.

(** [f"{doc_id}-{metric_id}"] *)
Definition cell_key (doc_id metric_id : str) : str :=
  doc_id ++ py "-" ++ metric_id.

Definition set_cell (self : t) (doc_id metric_id : str) (cell : CellData.t) : t :=
  let key := cell_key doc_id metric_id in
  mk (_documents self) (PyDict.set key cell (_cells self))
     (_metrics self) (_chat_history self).

Definition get_cell (self : t) (doc_id metric_id : str) : option CellData.t :=
  let key := cell_key doc_id metric_id in
  PyDict.get key (_cells self).

Definition get_all_cells (self : t) : list (str * CellData.t) := _cells self.

Definition set_metric (self : t) (metric : Metric.t) : t :=
  mk (_documents self) (_cells self)
     (PyDict.set (Metric.id metric) metric (_metrics self))
     (_chat_history self).

Definition get_metric (self : t) (metric_id : str) : option Metric.t :=
  PyDict.get metric_id (_metrics self).

Definition get_all_metrics (self : t) : list Metric.t := (_metrics self).*2.

Definition add_chat_message (self : t) (session_id : str)
    (message : ChatMessage.t) : t :=
  let history := default [] (_chat_history self !! session_id) in
  mk (_documents self) (_cells self) (_metrics self)
     (<[session_id := history ++ [message]]> (_chat_history self)).

Definition get_chat_history (self : t) (session_id : str) (limit : Z)
  : list ChatMessage.t :=
  let history := default [] (_chat_history self !! session_id) in
  slice_from (- limit) history.

Definition clear_chat_history (self : t) (session_id : str) : t :=
  match _chat_history self !! session_id with
  | Some _ =>
      mk (_documents self) (_cells self) (_metrics self)
         (<[session_id := []]> (_chat_history self))
  | None => self
  end.

End StateStore.

(** * What the specification promises, as predicates *)

(** What [MatrixRetriever.retrieve] promises of each match. *)
Definition good_match (documents : list Document.t) (min_relevance : Q)
    (m : CellMatch.t) : Prop :=
  (min_relevance <= CellMatch.relevance_score m)%Q
  ∧ (∃ v, CellData.value (CellMatch.cell m) = Some v ∧ v ≠ [] ∧ v ≠ em_dash)
  ∧ (∃ d, d ∈ documents ∧ Document.id d = CellMatch.doc_id m
          ∧ Document.name d = CellMatch.doc_name m).

(** The numeric values of a column with their units, as
    [analyze_column_async] collects them from the cells. *)
Definition column_values {U : Unicode} (metric_id : list N)
    (cells : list (list N * CellData.t)) : list (Q * list N) :=
  snd <$> VisualizationService.parsed_cells
            (VisualizationService.metric_cells metric_id cells).

(** The unit [analyze_column_async] detects for a column. *)
Definition column_unit {U : Unicode} (metric_id : list N)
    (cells : list (list N * CellData.t)) : option (list N) :=
  VisualizationService.most_common (snd <$> column_values metric_id cells).

(** The columns related to a metric, as sent to the model. *)
Definition related_columns (metric_label : list N)
    (all_metrics : list (gmap (list N) pyval)) : list pyval :=
  List.filter (λ l, negb (bool_decide (l = PStr metric_label)))
    ((λ m, Py.get m "label" (PStr [])) <$> all_metrics).

(** The result of the rule-based path for a column: what
    [_fallback_analyze_column] returns on the values parsed from it. *)
Definition rule_based_result {U : Unicode} {C : Collaborators}
    (metric_id metric_label : list N) (cells : list (list N * CellData.t))
    (all_metrics : list (gmap (list N) pyval))
    (all_values_by_metric : list (list N * list Q)) : ColumnAnalysis.t :=
  let parsed :=
    VisualizationService.parsed_cells
      (VisualizationService.metric_cells metric_id cells) in
  let unit_types := (λ p : nat * (Q * list N), p.2.2) <$> parsed in
  VisualizationService._fallback_analyze_column metric_label
    ((λ p : nat * (Q * list N), p.2.1) <$> parsed)
    (VisualizationService.most_common unit_types)
    all_metrics all_values_by_metric (fst <$> parsed) (length parsed)
    (if unit_types is [] then false
     else (length (Py.unique unit_types) <=? 1)%nat).

(** ** Inputs on which the properties are exercised *)

Module Sample.

Definition cell (v : string) (c : Confidence) : CellData.t :=
  CellData.mk (Some (py v)) false (Some c) None None None.

Definition cell_match (v : string) (c : Confidence) : CellMatch.t :=
  CellMatch.mk (py "N_6F03AD") (py "Annual report") (py "m1")
               (py "Revenue (EUR)") (cell v c) 1.

(** A column of two cells. *)
Definition cells : list (list N * CellData.t) :=
  [ (py "N_6F03AD-m1", cell "10" High); (py "N_7A11C2-m1", cell "20" Medium) ].

(** Collaborators that accept a spec whose [should_render] is a boolean
    and read nothing else. *)
Definition collaborators : Collaborators := {|
  sha256_key := λ label _, label;
  pydantic_fields := λ raw,
    match Py.get_ raw "should_render" with
    | PBool b => Some (LLMChartSpec.mk b None None None None None)
    | _ => None
    end;
  insight_text := λ _ _ _ _, None
|}.

(** A model that always answers: no chart. *)
Definition no_chart : gmap (list N) pyval :=
  Py.set ∅ "should_render" (PBool false).

Definition says_no : ChartLLM := {| chart_provider := λ _ _ _ _, Some no_chart |}.

(** A model that asks for a chart without naming intent or chart type:
    [validate_render_fields] refuses its answer. *)
Definition bare_chart : gmap (list N) pyval :=
  Py.set ∅ "should_render" (PBool true).

Definition says_chart : ChartLLM :=
  {| chart_provider := λ _ _ _ _, Some bare_chart |}.

Definition service : VisualizationService.t :=
  VisualizationService.mk true (ChartSpecCache.mk ∅ 300) 0.

(** A citation as the model returns it when it copies no id: a
    placeholder [doc_id] and its own [index]. *)
Definition citation (type : string) (index : pyval) : gmap (list N) pyval :=
  Py.set (Py.set (Py.set ∅ "type" (PStr (py type))) "index" index)
         "doc_id" (PStr (py "...")).

(** A citation that carries a real id. *)
Definition cited (type : string) (index : pyval) : gmap (list N) pyval :=
  Py.set (citation type index) "doc_id" (PStr (py "N_6F03AD")).

(** A document of two paragraphs: 1999 characters of text under no
    heading, then the heading ["# B"]. *)
Definition report : Document.t :=
  Document.mk (py "N_6F03AD") (py "Annual report") (py "text")
    (repeat (ch "x") 1999 ++ [10; 10]%N ++ py "# B") 2004 None.

(** The context map of one retrieved cell. *)
Definition cell_map : list (Z * CellMatch.t) := [ (1, cell_match "714m" High) ].

End Sample.

(** A raw citation that [_enrich_citations] can process without a
    [TypeError]: its [index], when present, is an integer (or a boolean,
    which Python counts as one), and its [doc_id], when present, is a
    string or [None]. *)
Definition well_typed (c : gmap (list N) pyval) : Prop :=
  is_Some (Py.as_int (Py.get c "index" (PInt 0)))
  ∧ match Py.get c "doc_id" (PStr []) with
    | PStr _ | PNone => True
    | _ => False
    end.

(** A [doc_id] that is not a placeholder: a string of at least five
    characters other than ["..."]. *)
Definition real_doc_id (c : gmap (list N) pyval) : Prop :=
  ∃ s, c !! py "doc_id" = Some (PStr s) ∧ (5 ≤ length s)%nat ∧ s ≠ py "...".

(** Neither a cell citation nor a document citation. *)
Definition unrecognized (c : gmap (list N) pyval) : Prop :=
  Py.get_ c "type" ≠ PStr (py "cell") ∧ Py.get_ c "type" ≠ PStr (py "document").

(** The distinct [[n]] references of a response, in the order of their
    first appearance in the cleaned text. *)
Definition references {U : Unicode} (content : list N) : list (list N) :=
  Py.unique (Re.findall Chat.ref_pattern (Chat._clean_citation_leakage content)).

(** Whether the [i]-th reference (counted from 1) yields a citation: it
    resolves, to a citation of a known type that validates. *)
Definition yields {P : Pydantic} (raw : list (gmap (list N) pyval))
    (refs : list (list N)) (i : nat) : bool :=
  match refs !! (i - 1)%nat ≫= Chat.resolve raw i with
  | Some data => bool_decide (Chat.typed_citation i data ≠ [])
  | None => false
  end.

(** Whether the [i]-th raw citation (counted from 1) yields a citation:
    it is of a known type and validates. *)
Definition parses {P : Pydantic} (raw : list (gmap (list N) pyval)) (i : nat) : bool :=
  match raw !! (i - 1)%nat with
  | Some c => bool_decide (Chat.typed_citation i c ≠ [])
  | None => false
  end.

(** The new index of the [i]-th reference (counted from 0): its rank,
    when it resolves. *)
Definition new_index (raw : list (gmap (list N) pyval)) (i : nat)
    (old_ref : list N) : option nat :=
  if Chat.resolve raw (S i) old_ref is Some _ then Some (S i) else None.

(** The buffer that [_chunk_document] builds from a run of paragraphs
    that it accumulates without flushing. *)
Definition buffer_of (group : list (list N)) : list N :=
  foldl (λ cur para,
           if cur is [] then para
           else cur ++ [DocumentRetriever.newline; DocumentRetriever.newline] ++ para)
        [] group.

Definition nonempty (s : list N) : bool := if s is [] then false else true.

(** The end of [_chunk_document]: the last buffer is flushed. *)
Definition flush_last {U : Unicode} (doc : Document.t)
    (st : DocumentRetriever.loop) : list DocChunk.t :=
  if DocumentRetriever.current_chunk st is [] then DocumentRetriever.chunks st
  else DocumentRetriever.chunks st
         ++ [DocumentRetriever.new_chunk doc (DocumentRetriever.current_chunk st)
               (DocumentRetriever.current_section st)].

(** ** Readers: the three patterns of [_clean_citation_leakage] read
    without backtracking

    A reader looks at the start of a text and answers with the
    replacement and the number of characters it covers. *)

Module Reader.

Section WithUnicode.
Context {U : Unicode}.

(** The longest prefix in a class, and what follows it. *)
Fixpoint span (p : N → bool) (s : list N) : list N * list N :=
  match s with
  | c :: s' => if p c then let (a, b) := span p s' in (c :: a, b) else ([], s)
  | [] => ([], [])
  end.

(** The length of the kind, [Doc] or [Cell], that a text starts with. *)
Definition kind_len (s : list N) : option nat :=
  if Str.startswith (py "Doc") s then Some 3%nat
  else if Str.startswith (py "Cell") s then Some 4%nat
  else None.

(** The kind of the marker that [s] starts with. *)
Definition kind_of (s : list N) : list N :=
  take (default 0%nat (kind_len (tail s))) (tail s).

(** [[Doc n]] or [[Cell n]] at the start of [s]: the digits and the
    length of the marker. *)
Definition marker (s : list N) : option (list N * nat) :=
  match s with
  | x :: s1 =>
      if (x =? ch "[")%N then
        match kind_len s1 with
        | Some k =>
            let (ws, s3) := span isspace (drop k s1) in
            let (d, s4) := span isdecimal s3 in
            match d, s4 with
            | _ :: _, y :: _ =>
                if (y =? ch "]")%N
                then Some (d, S (k + length ws + length d + 1))
                else None
            | _, _ => None
            end
        | None => None
        end
      else None
  | [] => None
  end.

(** A parenthetical at the start of [s], white space before it included:
    its length. *)
Definition parenthetical (s : list N) : option nat :=
  let (ws, s1) := span isspace s in
  match s1 with
  | x :: s2 =>
      if (x =? ch "(")%N then
        let (inner, s3) := span Chat.not_rparen s2 in
        match s3 with
        | _ :: _ => Some (length ws + 1 + length inner + 1)%nat
        | [] => None
        end
      else None
  | [] => None
  end.

(** A [(doc_id=...)] fragment at the start of [s], white space before it
    included: its length. *)
Definition fragment (s : list N) : option nat :=
  let (ws, s1) := span isspace s in
  if Str.startswith (py "(doc_id=") s1 then
    let (inner, s3) := span Chat.not_rparen (drop 8 s1) in
    match s3 with
    | _ :: _ => Some (length ws + 8 + length inner + 1)%nat
    | [] => None
    end
  else None.

Definition bracketed (d : list N) : list N := [ch "["] ++ d ++ [ch "]"].

(** The readers of [pattern], [pattern2] and [pattern3] with their
    replacements. *)
Definition reader1 (s : list N) : option (list N * nat) :=
  '(d, n) ← marker s;
  m ← parenthetical (drop n s);
  Some (bracketed d, (n + m)%nat).

Definition reader2 (s : list N) : option (list N * nat) :=
  '(d, n) ← marker s; Some (bracketed d, n).

Definition reader3 (s : list N) : option (list N * nat) :=
  n ← fragment s; Some ([], n).

(** A reference [[n]] at the start of [s]: the digits and the length of
    the reference. *)
Definition reference (s : list N) : option (list N * nat) :=
  match s with
  | x :: s1 =>
      if (x =? ch "[")%N then
        let (d, s2) := span isdecimal s1 in
        match d, s2 with
        | _ :: _, y :: _ =>
            if (y =? ch "]")%N then Some (d, S (length d + 1)) else None
        | _, _ => None
        end
      else None
  | [] => None
  end.

(** The reader of [ref_pattern]: each reference is read with the number
    [f] gives for its own. *)
Definition reader_ref (f : list N → list N) (s : list N)
  : option (list N * nat) :=
  '(d, n) ← reference s; Some (bracketed (f d), n).

(** Whether [s] starts, white space apart, with an opening parenthesis
    that nothing in [s] closes. *)
Definition opens (s : list N) : bool :=
  let (ws, s1) := span isspace s in
  match s1 with
  | x :: s2 => (x =? ch "(")%N && forallb Chat.not_rparen s2
  | [] => false
  end.

(** Whether a marker of [s] is followed by a parenthesis that [s] leaves
    open: what comes after [s] can then end up in its parenthetical. *)
Fixpoint open_parenthetical (s : list N) : bool :=
  match s with
  | [] => false
  | _ :: s' =>
      match marker s with
      | Some (_, n) => opens (drop n s)
      | None => false
      end || open_parenthetical s'
  end.

(** Whether a [(doc_id=] of [s] is left open: no closing parenthesis
    follows it in [s]. *)
Fixpoint open_fragment (s : list N) : bool :=
  match s with
  | [] => false
  | _ :: s' =>
      Str.startswith (py "(doc_id=") s && forallb Chat.not_rparen (drop 8 s)
      || open_fragment s'
  end.

End WithUnicode.

(** Whether [reader] reads nothing in [s], wherever it starts. *)
Fixpoint silent (reader : list N → option (list N * nat)) (s : list N) : bool :=
  match reader s with
  | Some _ => false
  | None =>
      match s with
      | [] => true
      | _ :: s' => silent reader s'
      end
  end.

(** The text with every reading replaced, left to right; [skip] counts
    the characters still covered by the last reading. *)
Fixpoint rewrite_from (reader : list N → option (list N * nat))
    (skip : nat) (s : list N) : list N :=
  match skip with
  | S n =>
      match s with
      | _ :: s' => rewrite_from reader n s'
      | [] => []
      end
  | O =>
      match reader s with
      | Some (out, len) =>
          out ++
            match s with
            | c :: s' =>
                match len with
                | O => c :: rewrite_from reader 0 s'
                | S n => rewrite_from reader n s'
                end
            | [] => []
            end
      | None =>
          match s with
          | c :: s' => c :: rewrite_from reader 0 s'
          | [] => []
          end
      end
  end.

Definition rewrite (reader : list N → option (list N * nat)) (s : list N) : list N :=
  rewrite_from reader 0 s.

(** A pattern and its replacement are read by [reader]. *)
Definition reads (r : Re.regex) (repl : list N → Re.state → list N)
    (reader : list N → option (list N * nat)) : Prop :=
  ∀ (i : nat) (s : list N),
    match Re.match_at r i s with
    | Some m =>
        reader s = Some (repl (take (Re.pos m - i) s) m, (Re.pos m - i)%nat)
    | None => reader s = None
    end.

End Reader.

(** The text after the parenthetical it starts with, if it starts with
    one. *)
Definition after_parenthetical {U : Unicode} (tail : list N) : list N :=
  match Reader.parenthetical tail with
  | Some n => drop n tail
  | None => tail
  end.

(** The shape of a marker: a bracket, the kind, white space, digits, a
    bracket. *)
Definition marker_text (kind ws digits : list N) : list N :=
  [ch "["] ++ kind ++ ws ++ digits ++ [ch "]"].

(** The shape of a [(doc_id=...)] fragment. *)
Definition fragment_text (inner : list N) : list N :=
  py "(doc_id=" ++ inner ++ [ch ")"].

(** The text after the first two patterns: the markers rewritten, the
    fragments still there. *)
Definition markers_rewritten {U : Unicode} (s : list N) : list N :=
  Reader.rewrite Reader.reader2 (Reader.rewrite Reader.reader1 s).

(** What [_normalize_citations] writes for a reference: its rank,
    counted from 1, among the distinct references when it resolves to a
    citation, and the reference itself when it does not. *)
Definition renamed (raw : list (gmap (list N) pyval)) (refs : list (list N))
    (old_ref : list N) : list N :=
  match list_find (λ r, r = old_ref) refs with
  | Some (i, _) =>
      if Chat.resolve raw (S i) old_ref is Some _
      then Py.str_of_Z (Z.of_nat (S i)) else old_ref
  | None => old_ref
  end.

(** The number that takes the place of a reference in the text: its new
    index when it was given one, else the reference itself. *)
Definition renumbered (old_to_new : gmap (list N) nat) (old_ref : list N)
  : list N :=
  match old_to_new !! old_ref with
  | Some new_idx => Py.str_of_Z (Z.of_nat new_idx)
  | None => old_ref
  end.

(** Tables in which no character is both white space and a decimal
    digit, and in which the brackets, the parentheses and the letters [D]
    and [C] are neither: every table of Unicode is such. *)
Record conforming (U : Unicode) : Prop := {
  space_not_digit : ∀ c, isspace c = true → isdecimal c = false;
  mark_not_space : ∀ c, c ∈ py "[]()DC" → isspace c = false;
  mark_not_digit : ∀ c, c ∈ py "[]()DC" → isdecimal c = false
}.

(** ** What the other functions of these files guarantee *)

(** What [DocumentRetriever.retrieve] may return: a chunk of one of the
    documents, with its score for the query, which is at least
    [min_relevance]. *)
Definition retrievable {U : Unicode} (self : DocumentRetriever.t)
    (query : list N) (documents : list Document.t) (min_relevance : Q)
    (c : DocChunk.t) : Prop :=
  ∃ doc chunk,
    doc ∈ documents ∧ chunk ∈ DocumentRetriever._chunk_document self doc
    ∧ c = DocumentRetriever.with_score chunk
            (DocumentRetriever._score_chunk_relevance chunk
               (DocumentRetriever.query_terms_of query))
    ∧ (min_relevance <= DocChunk.relevance_score c)%Q.

(** A cell that [MatrixRetriever.retrieve] reports for a metric, and the
    document it reports it for: the key of the cell contains ["-"] and the
    id of the metric, the value is neither empty nor the placeholder, and
    [doc] is the last of the documents whose id is the key up to there. *)
Definition matched_cell (documents : list Document.t) (metric : Metric.t)
    (cell_key : list N) (cell : CellData.t) (doc : Document.t) : Prop :=
  Str.contains (py "-" ++ Metric.id metric) cell_key = true
  ∧ MatrixRetriever.has_value cell = true
  ∧ last (List.filter
            (λ d, Str.eqb (Document.id d)
                    (Str.before (py "-" ++ Metric.id metric) cell_key))
            documents) = Some doc.

(** The entry of a context that a citation with index [z] is repaired
    from: entry [z] counted from 1, the last entry for a larger [z], the
    first for a [z] below 1; none in an empty context. *)
Definition clamped {A : Type} (z : Z) (l : list A) : option A :=
  l !! Z.to_nat (Z.min (Z.max z 1) (Z.of_nat (length l)) - 1).

(** * Properties *)

(** ** Sorting by decreasing score *)

Section SortDescFacts.
Context {A : Type} (score : A → Q).

Lemma insert_desc_perm (x : A) (l : list A) : insert_desc score x l ≡ₚ x :: l.
Proof.
  induction l as [|y l IH]; simpl; [done|].
  destruct (Qle_bool (score y) (score x)); [done|].
  rewrite IH. apply Permutation_swap.
Qed.

Lemma sort_desc_perm (l : list A) : sort_desc score l ≡ₚ l.
Proof.
  induction l as [|x l IH]; simpl; [done|].
  rewrite insert_desc_perm. by f_equiv.
Qed.

Lemma insert_desc_sorted (x : A) (l : list A) :
  StronglySorted (λ a b, (score b <= score a)%Q) l →
  StronglySorted (λ a b, (score b <= score a)%Q) (insert_desc score x l).
Proof.
  induction 1 as [|y l Hs IH Hall]; simpl.
  - repeat constructor.
  - destruct (Qle_bool (score y) (score x)) eqn:E.
    + apply Qle_bool_iff in E.
      constructor; [by constructor|].
      constructor; [done|].
      eapply Forall_impl; [exact Hall|].
      intros b Hb; simpl in Hb. by eapply Qle_trans.
    + constructor; [done|].
      rewrite insert_desc_perm. constructor; [|done].
      destruct (Qlt_le_dec (score x) (score y)) as [Hlt|Hle].
      * by apply Qlt_le_weak.
      * apply Qle_bool_iff in Hle. congruence.
Qed.

Lemma sort_desc_sorted (l : list A) :
  StronglySorted (λ a b, (score b <= score a)%Q) (sort_desc score l).
Proof.
  induction l as [|x l IH]; simpl; [constructor|].
  by apply insert_desc_sorted.
Qed.

End SortDescFacts.

(** ** The matrix retriever *)

Section MatrixRetrieverFacts.
Context {U : Unicode}.
Import MatrixRetriever.

Lemma doc_lookup_from (documents : list Document.t)
    (m : gmap (list N) Document.t) (k : list N) (d : Document.t) :
  foldl (λ m doc, <[Document.id doc := doc]> m) m documents !! k = Some d →
  (d ∈ documents ∧ Document.id d = k) ∨ m !! k = Some d.
Proof.
  revert m. induction documents as [|doc documents IH]; intros m H; simpl in H.
  - by right.
  - destruct (IH _ H) as [[Hin Hid]|Hm].
    + left. split; [by right|done].
    + destruct (decide (Document.id doc = k)) as [<-|Hne].
      * rewrite lookup_insert_eq in Hm. injection Hm as <-.
        left. split; [by left|done].
      * rewrite lookup_insert_ne in Hm by done. by right.
Qed.

(** A document found by [doc_lookup] is one of the documents, and is the
    one with that id. *)
Lemma doc_lookup_Some (documents : list Document.t) (k : list N) (d : Document.t) :
  doc_lookup documents !! k = Some d → d ∈ documents ∧ Document.id d = k.
Proof.
  intros H. destruct (doc_lookup_from _ _ _ _ H) as [?|Hm]; [done|].
  by rewrite lookup_empty in Hm.
Qed.

Lemma has_value_Some (c : CellData.t) :
  has_value c = true →
  ∃ v, CellData.value c = Some v ∧ v ≠ [] ∧ v ≠ em_dash.
Proof.
  unfold has_value, Str.eqb. destruct (CellData.value c) as [v|]; [|done].
  intros H. exists v. split; [done|].
  apply andb_prop in H as [H1 H2].
  apply negb_true_iff, bool_decide_eq_false in H1, H2. done.
Qed.

Lemma metric_matches_good (documents : list Document.t)
    (cells : list (list N * CellData.t)) (metric : Metric.t)
    (relevance min_relevance : Q) :
  (min_relevance <= relevance)%Q →
  Forall (good_match documents min_relevance)
         (metric_matches (doc_lookup documents) cells metric relevance).
Proof.
  intros Hrel. unfold metric_matches.
  induction cells as [|[cell_key cell] cells IH]; simpl; [constructor|].
  apply Forall_app. split; [|exact IH].
  destruct (Str.contains _ cell_key && has_value cell) eqn:E; [|constructor].
  apply andb_prop in E as [_ Hv].
  destruct (doc_lookup documents !! _) as [doc|] eqn:Hd; [|constructor].
  apply doc_lookup_Some in Hd as [Hin Hid].
  constructor; [|constructor].
  split; [exact Hrel|]. split; [by apply has_value_Some|].
  by exists doc.
Qed.

(** C5. For every query, cell map, metric list, document list and
    [min_relevance], [MatrixRetriever.retrieve] returns its matches by
    non-increasing [relevance_score]; every match scores at least
    [min_relevance], holds a cell whose value is neither empty nor the
    placeholder, and carries the id (and name) of one of the documents. *)
Theorem retrieve_sorted_and_sound (query : list N)
    (cells : list (list N * CellData.t)) (metrics : list Metric.t)
    (documents : list Document.t) (min_relevance : Q) :
  let matches := retrieve query cells metrics documents min_relevance in
  StronglySorted
    (λ a b, (CellMatch.relevance_score b <= CellMatch.relevance_score a)%Q) matches
  ∧ Forall (good_match documents min_relevance) matches.
Proof.
  simpl. unfold retrieve. split; [apply sort_desc_sorted|].
  rewrite sort_desc_perm.
  induction metrics as [|metric metrics IH]; simpl; [constructor|].
  apply Forall_app. split; [|exact IH].
  destruct (Qle_bool min_relevance _) eqn:E; [|constructor].
  apply metric_matches_good. by apply Qle_bool_iff.
Qed.

End MatrixRetrieverFacts.

Section SufficiencyFacts.
Import MatrixRetriever.

Lemma high_count_insert (l1 l2 : list CellMatch.t) (m : CellMatch.t) :
  (length (List.filter is_high (l1 ++ l2))
   ≤ length (List.filter is_high (l1 ++ m :: l2)))%nat.
Proof.
  rewrite !List.filter_app, !length_app. simpl.
  destruct (is_high m); simpl; lia.
Qed.

(** C8. [has_sufficient_data] is monotone under adding a match, of high
    confidence or not, anywhere in the list (appending is [l2 = []]): a
    sufficient list stays sufficient, so adding can only turn the answer
    from false to true. *)
Theorem has_sufficient_data_monotone (l1 l2 : list CellMatch.t)
    (m : CellMatch.t) (threshold : Z) :
  has_sufficient_data (l1 ++ l2) threshold = true →
  has_sufficient_data (l1 ++ m :: l2) threshold = true.
Proof.
  unfold has_sufficient_data. intros H.
  apply orb_true_iff in H. apply orb_true_iff.
  pose proof (high_count_insert l1 l2 m) as Hh.
  destruct H as [H|H]; [left|right]; apply Z.leb_le in H; apply Z.leb_le.
  - lia.
  - rewrite length_app in *. simpl. lia.
Qed.

End SufficiencyFacts.

Lemma has_sufficient_data_monotone_witness :
  let high := Sample.cell_match "714m" High in
  let medium := Sample.cell_match "12%" Medium in
  MatrixRetriever.has_sufficient_data ([high] ++ [high]) 2 = true
  ∧ MatrixRetriever.has_sufficient_data ([high] ++ medium :: [high]) 2 = true.
Proof.
  intros high medium. split; [reflexivity|].
  apply (has_sufficient_data_monotone [high] [high] medium 2). reflexivity.
Defined.

(** ** The column visualization analyzer *)

Section VisualizationFacts.
Context {U : Unicode}.
Import VisualizationService.

Lemma unique_from_nonempty (l acc : list (list N)) :
  acc ≠ [] →
  foldl (λ acc x, if bool_decide (x ∈ acc) then acc else acc ++ [x]) acc l ≠ [].
Proof.
  revert acc. induction l as [|x l IH]; intros acc Hacc; simpl; [done|].
  apply IH. case_bool_decide; [done|]. by destruct acc.
Qed.

Lemma unique_nonempty (x : list N) (l : list (list N)) : Py.unique (x :: l) ≠ [].
Proof. unfold Py.unique. simpl. by apply unique_from_nonempty. Qed.

Lemma most_common_from_Some (units l : list (list N)) (b : list N) :
  is_Some
    (foldl (λ (best : option (list N)) u,
              match best with
              | None => Some u
              | Some b =>
                  if (count_of b units <? count_of u units)%nat
                  then Some u else best
              end)
           (Some b) l).
Proof.
  revert b. induction l as [|u l IH]; intros b; simpl; [by eexists|].
  destruct (_ <? _)%nat; apply IH.
Qed.

(** A unit is detected exactly when some value parsed. *)
Lemma most_common_None (units : list (list N)) :
  most_common units = None ↔ units = [].
Proof.
  split; [|by intros ->].
  destruct units as [|u units]; [done|]. intros H. exfalso.
  unfold most_common in H.
  pose proof (unique_nonempty u units) as Hne.
  destruct (Py.unique (u :: units)) as [|x xs]; [done|]. simpl in H.
  destruct (most_common_from_Some (u :: units) xs x) as [b Hb].
  rewrite Hb in H. done.
Qed.

Lemma parsed_cells_from (g : nat → list N → nat * list N) (l : list (list N)) :
  (∀ i v, (g i v).2 = v) →
  snd <$> flat_map (λ iv : nat * list N,
                      match parse_numeric_value iv.2 with
                      | Some parsed => [(iv.1, parsed)]
                      | None => []
                      end)
                   (imap g l)
  = omap parse_numeric_value l.
Proof.
  revert g. induction l as [|v l IH]; intros g Hg; simpl; [done|].
  rewrite fmap_app, IH by (intros; apply Hg).
  rewrite Hg. destruct (parse_numeric_value v); done.
Qed.

Lemma parsed_cells_values (l : list (list N)) :
  snd <$> parsed_cells l = omap parse_numeric_value l.
Proof. by apply parsed_cells_from. Qed.

Lemma metric_cells_app (metric_id : list N) (c1 c2 : list (list N * CellData.t)) :
  metric_cells metric_id (c1 ++ c2)
  = metric_cells metric_id c1 ++ metric_cells metric_id c2.
Proof. unfold metric_cells. by rewrite flat_map_app. Qed.

Lemma column_values_app (metric_id : list N) (c1 c2 : list (list N * CellData.t)) :
  column_values metric_id (c1 ++ c2)
  = column_values metric_id c1 ++ column_values metric_id c2.
Proof.
  unfold column_values. rewrite !parsed_cells_values, metric_cells_app.
  apply omap_app.
Qed.

Lemma parse_numeric_value_Fault : parse_numeric_value (py "Fault") = None.
Proof. reflexivity. Qed.

Lemma parse_numeric_value_em_dash : parse_numeric_value em_dash = None.
Proof. reflexivity. Qed.

Lemma column_values_unparsed (metric_id key : list N) (cell : CellData.t) :
  (∀ v, CellData.value cell = Some v → parse_numeric_value v = None) →
  column_values metric_id [(key, cell)] = [].
Proof.
  intros H. unfold column_values. rewrite parsed_cells_values.
  unfold metric_cells. simpl. destruct (Str.contains _ key); [|done].
  destruct (CellData.value cell) as [[|c v]|] eqn:E; [done| |done].
  simpl. by rewrite (H _ eq_refl).
Qed.

(** C10. [parse_numeric_value] returns [None] on the empty string, on the
    placeholder and on ["Fault"]; so a cell holding ["Fault"] (or the
    placeholder), whatever its key and other fields, adds nothing to the
    numeric values of a column nor to the units its unit is detected
    from. *)
Theorem parse_numeric_value_sentinels :
  parse_numeric_value [] = None
  ∧ parse_numeric_value em_dash = None
  ∧ parse_numeric_value (py "Fault") = None
  ∧ ∀ (metric_id key : list N) (before after : list (list N * CellData.t))
      (loading : bool) (confidence : option Confidence)
      (reasoning : option (list N)) (sources : option (list (list N)))
      (error : option (list N)),
      let fault :=
        CellData.mk (Some (py "Fault")) loading confidence reasoning sources error in
      let dash :=
        CellData.mk (Some em_dash) loading confidence reasoning sources error in
      column_values metric_id (before ++ (key, fault) :: after)
        = column_values metric_id (before ++ after)
      ∧ column_unit metric_id (before ++ (key, fault) :: after)
        = column_unit metric_id (before ++ after)
      ∧ column_values metric_id (before ++ (key, dash) :: after)
        = column_values metric_id (before ++ after).
Proof.
  split; [reflexivity|]. split; [reflexivity|]. split; [reflexivity|].
  intros metric_id key before after loading confidence reasoning sources error.
  simpl.
  assert (Hf : column_values metric_id
                 (before ++ (key, CellData.mk (Some (py "Fault")) loading
                                    confidence reasoning sources error) :: after)
               = column_values metric_id (before ++ after)).
  { rewrite (column_values_app _ before (_ :: after)).
    change (?x :: after) with ([x] ++ after).
    rewrite (column_values_app _ [_] after), column_values_unparsed.
    - by rewrite column_values_app.
    - simpl. intros v [= <-]. reflexivity. }
  split; [exact Hf|]. split.
  - unfold column_unit. by rewrite Hf.
  - rewrite (column_values_app _ before (_ :: after)).
    change (?x :: after) with ([x] ++ after).
    rewrite (column_values_app _ [_] after), column_values_unparsed.
    + by rewrite column_values_app.
    + simpl. intros v [= <-]. reflexivity.
Qed.

End VisualizationFacts.

(** C2. On ["714m"] the parser answers 714 with unit ["numeric"]: no
    currency pattern matches a text without a currency sign, so the branch
    that applies the k/m/b multipliers is not taken, and the plain branch
    drops the suffix. With a currency sign the multiplier is applied. *)
Theorem parse_numeric_value_714m :
  @VisualizationService.parse_numeric_value ascii_tables (py "714m")
    = Some (714 # 1, py "numeric")
  ∧ @VisualizationService.parse_numeric_value ascii_tables (py "$714m")
    = Some (714000000 # 1, py "currency").
Proof. split; vm_compute; reflexivity. Qed.

Section AnalyzeFacts.
Context {U : Unicode} {C : Collaborators}.
Import VisualizationService.

(** The column's cardinality is the number of values that parsed. *)
Lemma column_values_length (metric_id : list N) (cells : list (list N * CellData.t)) :
  length (column_values metric_id cells)
  = length (parsed_cells (metric_cells metric_id cells)).
Proof. unfold column_values. by rewrite length_fmap. Qed.

Lemma column_unit_parsed (metric_id : list N) (cells : list (list N * CellData.t)) :
  column_unit metric_id cells
  = most_common ((λ p : nat * (Q * list N), p.2.2)
                   <$> parsed_cells (metric_cells metric_id cells)).
Proof.
  unfold column_unit, column_values. by rewrite <- list_fmap_compose.
Qed.

(** No unit is detected exactly when no value parsed. *)
Lemma column_unit_None (metric_id : list N) (cells : list (list N * CellData.t)) :
  column_unit metric_id cells = None ↔ column_values metric_id cells = [].
Proof.
  unfold column_unit. rewrite most_common_None.
  destruct (column_values metric_id cells); simpl; split; done.
Qed.

Lemma fallback_visualizable (metric_label : list N) (parsed_values : list Q)
    (most_common_unit : option (list N))
    (all_metrics : list (gmap (list N) pyval))
    (all_values_by_metric : list (list N * list Q)) (value_doc_map : list nat)
    (cardinality : nat) (units_consistent : bool) :
  ColumnAnalysis.visualizable
    (_fallback_analyze_column metric_label parsed_values most_common_unit
       all_metrics all_values_by_metric value_doc_map cardinality units_consistent)
  = (2 <=? cardinality)%nat && bool_decide (most_common_unit ≠ None).
Proof.
  unfold _fallback_analyze_column.
  destruct (resolve_intent _ _ _ _ _) as [intent conf].
  by destruct (reveals_new_information _ _ _) as [r reason].
Qed.

Lemma fallback_not_llm_powered (metric_label : list N) (parsed_values : list Q)
    (most_common_unit : option (list N))
    (all_metrics : list (gmap (list N) pyval))
    (all_values_by_metric : list (list N * list Q)) (value_doc_map : list nat)
    (cardinality : nat) (units_consistent : bool) :
  ColumnAnalysis.llm_powered
    (_fallback_analyze_column metric_label parsed_values most_common_unit
       all_metrics all_values_by_metric value_doc_map cardinality units_consistent)
  = false.
Proof.
  unfold _fallback_analyze_column.
  destruct (resolve_intent _ _ _ _ _) as [intent conf].
  by destruct (reveals_new_information _ _ _) as [r reason].
Qed.

(** The rule-based result is visualizable exactly when two values parsed. *)
Lemma rule_based_visualizable (metric_id metric_label : list N)
    (cells : list (list N * CellData.t))
    (all_metrics : list (gmap (list N) pyval))
    (all_values_by_metric : list (list N * list Q)) :
  ColumnAnalysis.visualizable
    (rule_based_result metric_id metric_label cells all_metrics all_values_by_metric)
  = (2 <=? length (column_values metric_id cells))%nat.
Proof.
  unfold rule_based_result. rewrite fallback_visualizable.
  rewrite <- column_values_length, <- column_unit_parsed.
  destruct (2 <=? _)%nat eqn:E; [|done]. simpl.
  apply bool_decide_eq_true. rewrite column_unit_None.
  apply Nat.leb_le in E.
  destruct (column_values metric_id cells); simpl in *; [lia|done].
Qed.

Lemma rule_based_not_llm_powered (metric_id metric_label : list N)
    (cells : list (list N * CellData.t))
    (all_metrics : list (gmap (list N) pyval))
    (all_values_by_metric : list (list N * list Q)) :
  ColumnAnalysis.llm_powered
    (rule_based_result metric_id metric_label cells all_metrics all_values_by_metric)
  = false.
Proof. unfold rule_based_result. apply fallback_not_llm_powered. Qed.

(** [analyze_column_async] in terms of the values and the unit of the
    column. *)
Lemma analyze_column_async_unfold {L : ChartLLM}
    (self : VisualizationService.t) (t_get t_set : Q)
    (metric_id metric_label : list N) (cells : list (list N * CellData.t))
    (all_metrics : list (gmap (list N) pyval))
    (all_values_by_metric : list (list N * list Q)) :
  let fallback :=
    rule_based_result metric_id metric_label cells all_metrics all_values_by_metric in
  analyze_column_async self t_get t_set metric_id metric_label cells
    all_metrics all_values_by_metric
  = if (length (column_values metric_id cells) <? 2)%nat
       || bool_decide (column_unit metric_id cells = None)
    then (fallback, self)
    else if _use_llm self then
      match generate_chart_spec_llm self t_get t_set metric_label
              (fst <$> column_values metric_id cells) (column_unit metric_id cells)
              (related_columns metric_label all_metrics) with
      | (Some llm_spec, self') =>
          if Py.truthy (Py.get llm_spec "should_render" (PBool false)) then
            (_llm_spec_to_response llm_spec (fst <$> column_values metric_id cells)
               (column_unit metric_id cells)
               (fst <$> parsed_cells (metric_cells metric_id cells))
               (length (column_values metric_id cells))
               (if snd <$> column_values metric_id cells is []
                then false
                else (length (Py.unique (snd <$> column_values metric_id cells))
                      <=? 1)%nat),
             self')
          else (fallback, self')
      | (None, self') => (fallback, self')
      end
    else (fallback, self).
Proof.
  simpl. unfold analyze_column_async, rule_based_result, column_unit,
    column_values, related_columns.
  rewrite <- !list_fmap_compose, !length_fmap.
  destruct (_ || _); [reflexivity|].
  destruct (_use_llm self); [|reflexivity].
  change (fst ∘ snd) with (λ p : nat * (Q * list N), p.2.1).
  change (snd ∘ snd) with (λ p : nat * (Q * list N), p.2.2).
  destruct (generate_chart_spec_llm _ _ _ _ _ _ _) as [[llm_spec|] self'];
    reflexivity.
Qed.

(** C6. For a column with at least two parsed values (a unit is then
    detected), when the LLM is enabled and [generate_chart_spec_llm] hands
    back a spec whose [should_render] is false, [analyze_column_async]
    returns the rule-based result, which is visualizable and not marked
    as decided by the LLM. *)
Theorem analyze_column_async_overrides_no_chart {L : ChartLLM}
    (self self' : VisualizationService.t) (t_get t_set : Q)
    (metric_id metric_label : list N) (cells : list (list N * CellData.t))
    (all_metrics : list (gmap (list N) pyval))
    (all_values_by_metric : list (list N * list Q))
    (llm_spec : gmap (list N) pyval) :
  (2 ≤ length (column_values metric_id cells))%nat →
  _use_llm self = true →
  generate_chart_spec_llm self t_get t_set metric_label
    (fst <$> column_values metric_id cells) (column_unit metric_id cells)
    (related_columns metric_label all_metrics) = (Some llm_spec, self') →
  Py.get llm_spec "should_render" (PBool false) = PBool false →
  let fallback :=
    rule_based_result metric_id metric_label cells all_metrics all_values_by_metric in
  analyze_column_async self t_get t_set metric_id metric_label cells
    all_metrics all_values_by_metric = (fallback, self')
  ∧ column_unit metric_id cells ≠ None
  ∧ ColumnAnalysis.visualizable fallback = true
  ∧ ColumnAnalysis.llm_powered fallback = false.
Proof.
  intros Hlen Huse Hllm Hno fallback.
  assert (Hunit : column_unit metric_id cells ≠ None).
  { rewrite column_unit_None. destruct (column_values metric_id cells);
      simpl in *; [lia|done]. }
  split; [|split; [done|split]].
  - rewrite analyze_column_async_unfold.
    replace (length (column_values metric_id cells) <? 2)%nat with false
      by (symmetry; apply Nat.ltb_ge; lia).
    rewrite bool_decide_eq_false_2 by done. simpl.
    rewrite Huse, Hllm, Hno. reflexivity.
  - unfold fallback. rewrite rule_based_visualizable.
    apply Nat.leb_le. done.
  - apply rule_based_not_llm_powered.
Qed.

(** C7. For a column with fewer than two parsed values, or with no unit
    detected, [analyze_column_async] returns the rule-based result, which
    is not visualizable, and leaves the service as it was: no call to the
    LLM is counted and the cache is not touched.  The result is the same
    whatever the model [L1] or [L2] behind the service would answer and
    whenever the call is made. *)
Theorem analyze_column_async_too_few (L1 L2 : ChartLLM)
    (self : VisualizationService.t) (t_get t_set t_get' t_set' : Q)
    (metric_id metric_label : list N) (cells : list (list N * CellData.t))
    (all_metrics : list (gmap (list N) pyval))
    (all_values_by_metric : list (list N * list Q)) :
  (length (column_values metric_id cells) < 2)%nat
  ∨ column_unit metric_id cells = None →
  let fallback :=
    rule_based_result metric_id metric_label cells all_metrics all_values_by_metric in
  analyze_column_async (L := L1) self t_get t_set metric_id metric_label cells
    all_metrics all_values_by_metric = (fallback, self)
  ∧ analyze_column_async (L := L2) self t_get' t_set' metric_id metric_label cells
      all_metrics all_values_by_metric = (fallback, self)
  ∧ ColumnAnalysis.visualizable fallback = false.
Proof.
  intros Hfew fallback.
  assert (Hlen : (length (column_values metric_id cells) < 2)%nat).
  { destruct Hfew as [?|Hnone]; [done|].
    apply column_unit_None in Hnone. rewrite Hnone. simpl. lia. }
  assert (Hrun : ∀ (L : ChartLLM) (t1 t2 : Q),
             analyze_column_async (L := L) self t1 t2 metric_id metric_label cells
               all_metrics all_values_by_metric = (fallback, self)).
  { intros L t1 t2. rewrite analyze_column_async_unfold.
    replace (length (column_values metric_id cells) <? 2)%nat with true
      by (symmetry; apply Nat.ltb_lt; lia).
    reflexivity. }
  split; [apply Hrun|]. split; [apply Hrun|].
  unfold fallback. rewrite rule_based_visualizable.
  apply Nat.leb_gt. done.
Qed.

End AnalyzeFacts.

Lemma analyze_column_async_overrides_no_chart_witness :
  let U := ascii_tables in
  let C := Sample.collaborators in
  let L := Sample.says_no in
  let run :=
    VisualizationService.analyze_column_async Sample.service 10 11
      (py "m1") (py "Revenue") Sample.cells [] [] in
  run.1 = rule_based_result (py "m1") (py "Revenue") Sample.cells [] []
  ∧ ColumnAnalysis.visualizable run.1 = true
  ∧ VisualizationService.llm_calls run.2 = 1%nat.
Proof.
  intros U C L run.
  destruct (analyze_column_async_overrides_no_chart (U := U) (C := C) (L := L)
              Sample.service run.2 10 11 (py "m1") (py "Revenue") Sample.cells
              [] [] Sample.no_chart)
    as (Hrun & _ & Hvis & _).
  - vm_compute. lia.
  - reflexivity.
  - vm_compute. reflexivity.
  - reflexivity.
  - fold run in Hrun. split; [by rewrite Hrun|]. split; [by rewrite Hrun|].
    vm_compute. reflexivity.
Defined.

Lemma analyze_column_async_too_few_witness :
  let U := ascii_tables in
  let C := Sample.collaborators in
  let one_cell := [ (py "N_6F03AD-m1", Sample.cell "10" High) ] in
  (VisualizationService.analyze_column_async (L := Sample.says_no) Sample.service
     10 11 (py "m1") (py "Revenue") one_cell [] []).2 = Sample.service
  ∧ ColumnAnalysis.visualizable
      (rule_based_result (py "m1") (py "Revenue") one_cell [] []) = false.
Proof.
  intros U C one_cell.
  destruct (analyze_column_async_too_few (U := U) (C := C)
              Sample.says_no Sample.says_no Sample.service 10 11 10 11
              (py "m1") (py "Revenue") one_cell [] [])
    as (Hrun & _ & Hvis).
  - left. vm_compute. lia.
  - split; [by rewrite Hrun|exact Hvis].
Defined.

(** ** Citation enrichment *)

Section EnrichFacts.
Import Chat.

Lemma is_placeholder_real (c : gmap (list N) pyval) :
  real_doc_id c → is_placeholder (Py.get c "doc_id" (PStr [])) = Some false.
Proof.
  intros (s & Hs & Hlen & Hne). unfold Py.get. rewrite Hs. simpl.
  unfold is_placeholder, Py.truthy, Str.eqb.
  destruct s as [|x s]; [simpl in Hlen; lia|].
  rewrite bool_decide_eq_false_2 by done. simpl negb. cbn iota.
  rewrite bool_decide_eq_false_2 by done.
  replace (length (x :: s) <? 5)%nat with false
    by (symmetry; apply Nat.ltb_ge; lia).
  reflexivity.
Qed.

Lemma enrich_from_real {A : Type} (fill : gmap (list N) pyval → A → gmap (list N) pyval)
    (c : gmap (list N) pyval) (m : list (Z * A)) :
  real_doc_id c → enrich_from fill c m = Some c.
Proof.
  intros H. unfold enrich_from. by rewrite (is_placeholder_real c H).
Qed.

(** A citation with a real id comes back as it went in. *)
Lemma enrich_one_real (c : gmap (list N) pyval)
    (cell_map : list (Z * CellMatch.t)) (doc_map : list (Z * DocChunk.t)) :
  real_doc_id c → enrich_one c cell_map doc_map = Some c.
Proof.
  intros H. unfold enrich_one.
  repeat case_bool_decide; try done; by apply enrich_from_real.
Qed.

(** A citation of another type comes back as it went in. *)
Lemma enrich_one_unrecognized (c : gmap (list N) pyval)
    (cell_map : list (Z * CellMatch.t)) (doc_map : list (Z * DocChunk.t)) :
  unrecognized c → enrich_one c cell_map doc_map = Some c.
Proof.
  intros [H1 H2]. unfold enrich_one.
  by rewrite !bool_decide_eq_false_2.
Qed.

Lemma map_fallback_number {A : Type} (idx : pyval) (m : list (Z * A)) :
  m ≠ [] → is_Some (Py.as_int idx) → is_Some (map_fallback idx m).
Proof.
  intros Hm [z Hz]. unfold map_fallback. rewrite Hz.
  assert (Hlen : (0 < length m.*2)%nat).
  { rewrite length_fmap. destruct m; [done|simpl; lia]. }
  destruct (0 <? z) eqn:E; apply lookup_lt_is_Some.
  - apply Z.ltb_lt in E. rewrite length_fmap in *. lia.
  - done.
Qed.

Lemma enrich_from_well_typed {A : Type}
    (fill : gmap (list N) pyval → A → gmap (list N) pyval)
    (c : gmap (list N) pyval) (m : list (Z * A)) :
  well_typed c → is_Some (enrich_from fill c m).
Proof.
  intros [Hidx Hdoc]. unfold enrich_from.
  destruct (Py.get c "doc_id" (PStr [])) as [|b|z|s] eqn:E; try done.
  - simpl. destruct (map_lookup _ m); [by eexists|].
    destruct m as [|kv m]; [by eexists|].
    destruct (map_fallback_number (Py.get c "index" (PInt 0)) (kv :: m))
      as [a Ha]; [done|done|].
    rewrite Ha. by eexists.
  - unfold is_placeholder. destruct (negb (Py.truthy (PStr s))); simpl.
    + destruct (map_lookup _ m); [by eexists|].
      destruct m as [|kv m]; [by eexists|].
      destruct (map_fallback_number (Py.get c "index" (PInt 0)) (kv :: m))
        as [a Ha]; [done|done|].
      rewrite Ha. by eexists.
    + destruct (_ || _); [|by eexists].
      destruct (map_lookup _ m); [by eexists|].
      destruct m as [|kv m]; [by eexists|].
      destruct (map_fallback_number (Py.get c "index" (PInt 0)) (kv :: m))
        as [a Ha]; [done|done|].
      rewrite Ha. by eexists.
Qed.

Lemma enrich_one_well_typed (c : gmap (list N) pyval)
    (cell_map : list (Z * CellMatch.t)) (doc_map : list (Z * DocChunk.t)) :
  well_typed c → is_Some (enrich_one c cell_map doc_map).
Proof.
  intros H. unfold enrich_one.
  repeat case_bool_decide;
    first [by apply enrich_from_well_typed | by eexists].
Qed.

(** The frame of [_enrich_citations].  On citations whose [index] is an
    integer (or a boolean, which Python counts as one) or is absent, and
    whose [doc_id] is a string, [None] or absent, it returns a list of the
    length of its input, each citation repaired in its place; a citation
    with a real [doc_id] and a citation of an unrecognized type come back
    unchanged.  (With an [index] of another type, a string or a
    fraction, the code can raise a [TypeError].) *)
Theorem _enrich_citations_frame (raw_citations : list (gmap (list N) pyval))
    (cell_map : list (Z * CellMatch.t)) (doc_map : list (Z * DocChunk.t)) :
  Forall well_typed raw_citations →
  ∃ enriched,
    _enrich_citations raw_citations cell_map doc_map = Some enriched
    ∧ length enriched = length raw_citations
    ∧ ∀ (i : nat) (c : gmap (list N) pyval),
        raw_citations !! i = Some c →
        ∃ c', enriched !! i = Some c'
              ∧ enrich_one c cell_map doc_map = Some c'
              ∧ (real_doc_id c ∨ unrecognized c → c' = c).
Proof.
  intros Hall. unfold _enrich_citations.
  destruct (mapM (λ c, enrich_one c cell_map doc_map) raw_citations)
    as [enriched|] eqn:E.
  - exists enriched. split; [done|].
    apply mapM_Some in E. split; [symmetry; by eapply Forall2_length|].
    intros i c Hi.
    destruct (Forall2_lookup_l _ _ _ _ _ E Hi) as (c' & Hc' & He).
    exists c'. split; [done|]. split; [done|].
    intros [Hreal|Hun].
    + rewrite enrich_one_real in He by done. congruence.
    + rewrite enrich_one_unrecognized in He by done. congruence.
  - exfalso. apply mapM_None in E.
    apply Exists_exists in E as (c & Hc & Hnone).
    rewrite Forall_forall in Hall.
    destruct (enrich_one_well_typed c cell_map doc_map (Hall c Hc)) as [? ?].
    congruence.
Qed.

End EnrichFacts.

Lemma _enrich_citations_frame_witness :
  let raw := [ Sample.cited "cell" (PInt 1); Sample.citation "note" (PInt 2);
               Sample.citation "cell" (PInt 7) ] in
  ∃ enriched,
    Chat._enrich_citations raw Sample.cell_map [] = Some enriched
    ∧ length enriched = length raw
    ∧ ∀ (i : nat) (c : gmap (list N) pyval),
        raw !! i = Some c →
        ∃ c', enriched !! i = Some c'
              ∧ Chat.enrich_one c Sample.cell_map [] = Some c'
              ∧ (real_doc_id c ∨ unrecognized c → c' = c).
Proof.
  intros raw. apply (_enrich_citations_frame raw Sample.cell_map []).
  repeat constructor; vm_compute; by eexists.
Defined.

(** C9. A citation of type ["cell"] whose [doc_id] is a placeholder and
    whose [index] is a string, as in the docstring's "context indices like
    [Cell 1]", makes [_enrich_citations] raise a [TypeError] as soon as
    the context map is not empty: no list is returned.  The same holds
    for an [index] that is [None]. *)
Theorem _enrich_citations_raises :
  Chat._enrich_citations [ Sample.citation "cell" (PStr (py "[Cell 1]")) ]
                         Sample.cell_map [] = None
  ∧ Chat._enrich_citations [ Sample.citation "cell" PNone ] Sample.cell_map []
    = None
  ∧ Chat._enrich_citations [ Sample.citation "cell" (PStr (py "[Cell 1]")) ] [] []
    = Some [ Sample.citation "cell" (PStr (py "[Cell 1]")) ].
Proof. repeat split; vm_compute; reflexivity. Qed.

(** ** Citation normalization *)

Section NormalizeFacts.
Context {U : Unicode} {P : Pydantic}.
Import Chat.

Lemma unique_from_NoDup (l acc : list (list N)) :
  NoDup acc →
  NoDup (foldl (λ acc x, if bool_decide (x ∈ acc) then acc else acc ++ [x]) acc l).
Proof.
  revert acc. induction l as [|x l IH]; intros acc Hacc; simpl; [done|].
  apply IH. case_bool_decide; [done|].
  apply NoDup_app. split; [done|]. split; [|apply NoDup_singleton].
  intros y Hy Hy'. apply list_elem_of_singleton in Hy' as ->. done.
Qed.

(** The references are pairwise distinct. *)
Lemma unique_NoDup (l : list (list N)) : NoDup (Py.unique l).
Proof. apply unique_from_NoDup. constructor. Qed.

(** A citation is built with the index it is given, and at most one is
    built. *)
Lemma typed_citation_index (i : nat) (data : gmap (list N) pyval) :
  Citation_index <$> typed_citation i data
  = if bool_decide (typed_citation i data ≠ []) then [i] else [].
Proof.
  unfold typed_citation, new_CellCitation, new_DocumentCitation.
  repeat case_bool_decide; simpl in *;
    repeat (match goal with
            | |- context [field_str ?v] => destruct (field_str v)
            | |- context [field_optional_str ?v] => destruct (field_optional_str v)
            | |- context [field_optional_int ?v] => destruct (field_optional_int v)
            | H : context [field_str ?v] |- _ => destruct (field_str v)
            | H : context [field_optional_str ?v] |- _ => destruct (field_optional_str v)
            | H : context [field_optional_int ?v] |- _ => destruct (field_optional_int v)
            end; simpl in *);
    try done.
Qed.

Lemma filter_seq_snoc (f : nat → bool) (n : nat) :
  List.filter f (seq 1 (S n))
  = List.filter f (seq 1 n) ++ (if f (S n) then [S n] else []).
Proof. rewrite seq_S, List.filter_app. simpl. by destruct (f (S n)). Qed.

Lemma filter_seq_ext (f g : nat → bool) (n : nat) :
  (∀ i, (1 ≤ i ≤ n)%nat → f i = g i) →
  List.filter f (seq 1 n) = List.filter g (seq 1 n).
Proof.
  intros H. apply List.filter_ext_in. intros i Hi.
  apply in_seq in Hi. apply H. lia.
Qed.

Lemma filter_seq_sorted (f : nat → bool) (a n : nat) :
  StronglySorted lt (List.filter f (seq a n)).
Proof.
  revert a. induction n as [|n IH]; intros a; simpl; [constructor|].
  destruct (f a); [|apply IH].
  constructor; [apply IH|].
  apply Forall_forall. intros x Hx.
  apply list_elem_of_In, List.filter_In in Hx as [Hx _].
  apply in_seq in Hx. lia.
Qed.

Lemma _parse_citations_snoc (raw : list (gmap (list N) pyval))
    (c : gmap (list N) pyval) :
  _parse_citations (raw ++ [c])
  = _parse_citations raw ++ typed_citation (S (length raw)) c.
Proof.
  unfold _parse_citations. rewrite imap_app. simpl.
  rewrite Nat.add_0_r. rewrite join_app. simpl.
  by rewrite app_nil_r.
Qed.

(** Without references the indices are the positions of the raw
    citations that yield a citation. *)
Lemma _parse_citations_indices (raw : list (gmap (list N) pyval)) :
  Citation_index <$> _parse_citations raw
  = List.filter (parses raw) (seq 1 (length raw)).
Proof.
  induction raw as [|c raw IH] using rev_ind; [done|].
  rewrite _parse_citations_snoc, fmap_app, IH, typed_citation_index.
  rewrite length_app. simpl. rewrite Nat.add_1_r, filter_seq_snoc.
  f_equal.
  - apply filter_seq_ext. intros i Hi. unfold parses.
    rewrite lookup_app_l by lia. done.
  - unfold parses. simpl. rewrite Nat.sub_0_r.
    rewrite lookup_app_r, Nat.sub_diag by lia. done.
Qed.

Lemma renumber_snoc (raw : list (gmap (list N) pyval)) (refs : list (list N))
    (old_ref : list N) :
  renumber raw (refs ++ [old_ref])
  = match resolve raw (S (length refs)) old_ref with
    | None => renumber raw refs
    | Some citation_data =>
        ((renumber raw refs).1 ++ typed_citation (S (length refs)) citation_data,
         <[old_ref := S (length refs)]> (renumber raw refs).2)
    end.
Proof.
  unfold renumber. rewrite imap_app, foldl_app. simpl.
  rewrite Nat.add_0_r.
  destruct (foldl _ _ (imap pair refs)) as [cs m]. simpl.
  by destruct (resolve raw (S (length refs)) old_ref).
Qed.

(** With references the indices are the ranks of the references that
    yield a citation. *)
Lemma renumber_indices (raw : list (gmap (list N) pyval)) (refs : list (list N)) :
  Citation_index <$> (renumber raw refs).1
  = List.filter (yields raw refs) (seq 1 (length refs)).
Proof.
  induction refs as [|old_ref refs IH] using rev_ind; [done|].
  rewrite length_app. simpl. rewrite Nat.add_1_r, filter_seq_snoc.
  assert (Hext : List.filter (yields raw (refs ++ [old_ref])) (seq 1 (length refs))
                 = List.filter (yields raw refs) (seq 1 (length refs))).
  { apply filter_seq_ext. intros i Hi. unfold yields.
    rewrite lookup_app_l by lia. done. }
  rewrite Hext, renumber_snoc. unfold yields at 2. simpl.
  rewrite Nat.sub_0_r, lookup_app_r, Nat.sub_diag by lia. simpl.
  destruct (resolve raw (S (length refs)) old_ref) as [data|]; simpl.
  - by rewrite fmap_app, IH, typed_citation_index.
  - by rewrite IH, app_nil_r.
Qed.

(** Each reference that resolves is mapped to its rank, and nothing else
    is mapped. *)
Lemma renumber_map (raw : list (gmap (list N) pyval)) (refs : list (list N)) :
  NoDup refs →
  (∀ (i : nat) (old_ref : list N),
     refs !! i = Some old_ref →
     (renumber raw refs).2 !! old_ref = new_index raw i old_ref)
  ∧ (∀ old_ref, old_ref ∉ refs → (renumber raw refs).2 !! old_ref = None).
Proof.
  induction refs as [|x refs IH] using rev_ind; intros Hnd.
  - split; [done|]. intros. apply lookup_empty.
  - apply NoDup_app in Hnd as (Hnd & Hx & _).
    destruct (IH Hnd) as [IH1 IH2]. clear IH.
    assert (Hxl : x ∉ refs).
    { intros Hin. apply (Hx x Hin). by apply list_elem_of_singleton. }
    rewrite renumber_snoc. split.
    + intros i old_ref Hi.
      destruct (decide (i < length refs)%nat) as [Hlt|Hge].
      * rewrite lookup_app_l in Hi by done.
        assert (old_ref ≠ x).
        { intros ->. apply Hxl. by eapply list_elem_of_lookup_2. }
        destruct (resolve raw (S (length refs)) x); simpl;
          [rewrite lookup_insert_ne by done|]; by apply IH1.
      * rewrite lookup_app_r in Hi by lia.
        apply list_lookup_singleton_Some in Hi as [Hi ->].
        assert (i = length refs) as -> by lia.
        unfold new_index.
        destruct (resolve raw (S (length refs)) old_ref); simpl.
        -- by rewrite lookup_insert_eq.
        -- by apply IH2.
    + intros old_ref Hnot.
      apply not_elem_of_app in Hnot as [Hnot Hne].
      apply not_elem_of_cons in Hne as [Hne _].
      destruct (resolve raw (S (length refs)) x); simpl;
        [rewrite lookup_insert_ne by done|]; by apply IH2.
Qed.

End NormalizeFacts.

(** ** Document chunking *)

Section ChunkFacts.
Context {U : Unicode}.
Import DocumentRetriever.
Arguments buffer_of : simpl never.

Lemma buffer_of_snoc (group : list (list N)) (para : list N) :
  buffer_of (group ++ [para])
  = if buffer_of group is [] then para
    else buffer_of group ++ [newline; newline] ++ para.
Proof. unfold buffer_of. by rewrite foldl_app. Qed.

(** A flush: when the paragraph does not fit, a non-empty buffer becomes
    a chunk, tagged with the section as it is after the paragraph's own
    header was read, and the paragraph starts the next buffer. *)
Lemma step_flush (self : t) (doc : Document.t) (st : loop) (para : list N) :
  chunk_size self < Z.of_nat (length (current_chunk st) + length para) →
  current_chunk st ≠ [] →
  let st' := step self doc st para in
  chunks st' = chunks st ++ [new_chunk doc (current_chunk st) (current_section st')]
  ∧ current_chunk st' = para.
Proof.
  intros Hbig Hne. unfold step. simpl.
  replace (chunk_size self <? _) with true by (symmetry; by apply Z.ltb_lt).
  simpl. by destruct (current_chunk st).
Qed.

(** No flush: a paragraph that fits joins the buffer. *)
Lemma step_accumulate (self : t) (doc : Document.t) (st : loop) (para : list N) :
  Z.of_nat (length (current_chunk st) + length para) ≤ chunk_size self →
  let st' := step self doc st para in
  chunks st' = chunks st
  ∧ current_chunk st'
    = if current_chunk st is [] then para
      else current_chunk st ++ [newline; newline] ++ para.
Proof.
  intros Hfit. unfold step. simpl.
  replace (chunk_size self <? _) with false by (symmetry; apply Z.ltb_ge; lia).
  done.
Qed.

Lemma chunk_loop_partition (self : t) (doc : Document.t)
    (paras : list (list N)) (st : loop) (group : list (list N)) :
  current_chunk st = buffer_of group →
  ∃ groups : list (list (list N)),
    concat groups = group ++ paras
    ∧ DocChunk.content <$> flush_last doc (foldl (step self doc) st paras)
      = (DocChunk.content <$> chunks st)
        ++ ((λ g, Str.strip (buffer_of g))
              <$> List.filter (λ g, nonempty (buffer_of g)) groups).
Proof.
  revert st group. induction paras as [|para paras IH]; intros st group Hcur.
  - exists [group]. split; [simpl; by rewrite !app_nil_r|].
    cbn [foldl List.filter]. unfold flush_last. rewrite Hcur.
    destruct (buffer_of group) as [|c b] eqn:E; simpl; rewrite ?E.
    + by rewrite app_nil_r.
    + rewrite fmap_app. reflexivity.
  - simpl foldl.
    destruct (decide (chunk_size self
                      < Z.of_nat (length (current_chunk st) + length para)))
      as [Hbig|Hfit].
    + destruct (IH (step self doc st para) [para]) as (groups & Hcat & Hcont).
      { unfold step. simpl.
        replace (chunk_size self <? _) with true by (symmetry; by apply Z.ltb_lt).
        done. }
      exists (group :: groups). split; [simpl; by rewrite Hcat|].
      rewrite Hcont. unfold step.
      replace (chunk_size self <? _) with true by (symmetry; by apply Z.ltb_lt).
      cbn [List.filter]. rewrite Hcur.
      destruct (buffer_of group) as [|c b] eqn:E; simpl; rewrite ?E; [done|].
      rewrite fmap_app. simpl. by rewrite <- app_assoc.
    + destruct (IH (step self doc st para) (group ++ [para]))
        as (groups & Hcat & Hcont).
      { rewrite buffer_of_snoc, <- Hcur.
        apply step_accumulate. lia. }
      exists groups. split; [by rewrite Hcat, <- app_assoc|].
      rewrite Hcont. f_equal. f_equal.
      apply step_accumulate. lia.
Qed.

(** Chunks do not overlap: the paragraphs of the document are cut into
    consecutive runs, and the chunks are the runs whose buffer is not
    empty, each stripped, in order.  No paragraph is in two chunks, and
    [chunk_overlap] plays no part. *)
Theorem _chunk_document_partition (self : t) (doc : Document.t) :
  ∃ groups : list (list (list N)),
    concat groups = paragraphs doc
    ∧ DocChunk.content <$> _chunk_document self doc
      = (λ g, Str.strip (buffer_of g))
          <$> List.filter (λ g, nonempty (buffer_of g)) groups.
Proof.
  destruct (chunk_loop_partition self doc (paragraphs doc) (Loop [] [] None) [])
    as (groups & Hcat & Hcont); [done|].
  exists groups. split; [done|]. exact Hcont.
Qed.

End ChunkFacts.

(** C3. Two paragraphs: 1999 characters of text under no heading, then
    the heading ["# B"].  The heading does not fit, so the text is flushed
    as a chunk of its own; it is tagged with the section ["B"], which the
    heading that stays out of the chunk has just opened, and not with the
    section (none) under which the text was accumulated. *)
Theorem _chunk_document_tags_next_section :
  let U := ascii_tables in
  DocumentRetriever.paragraphs Sample.report = [ repeat (ch "x") 1999; py "# B" ]
  ∧ (λ c, (length (DocChunk.content c), DocChunk.section c))
      <$> DocumentRetriever._chunk_document DocumentRetriever.default_ Sample.report
    = [ (1999%nat, Some (py "B")); (3%nat, Some (py "B")) ].
Proof. vm_compute. split; reflexivity. Qed.

(** ** Leakage cleanup *)

Lemma ascii_tables_conforming : conforming ascii_tables.
Proof.
  split.
  - intros c. simpl. unfold Ascii_tables.isspace, Ascii_tables.isdecimal.
    intros H. apply andb_false_iff.
    apply orb_true_iff in H as [H|H]; apply andb_true_iff in H as [H1 H2];
      apply N.leb_le in H1, H2; left; apply N.leb_gt; lia.
  - intros c Hc. repeat (apply elem_of_cons in Hc as [->|Hc]; [reflexivity|]).
    by apply elem_of_nil in Hc.
  - intros c Hc. repeat (apply elem_of_cons in Hc as [->|Hc]; [reflexivity|]).
    by apply elem_of_nil in Hc.
Qed.

Section RewriteFacts.
Import Reader.
Context (reader : list N → option (list N * nat)).

Lemma rewrite_from_skip (w s : list N) :
  rewrite_from reader (length w) (w ++ s) = rewrite reader s.
Proof. induction w as [|c w IH]; simpl; [done|exact IH]. Qed.

Lemma rewrite_miss (c : N) (s : list N) :
  reader (c :: s) = None → rewrite reader (c :: s) = c :: rewrite reader s.
Proof. intros H. unfold rewrite. simpl. by rewrite H. Qed.

Lemma rewrite_hit (w s out : list N) :
  w ≠ [] → reader (w ++ s) = Some (out, length w) →
  rewrite reader (w ++ s) = out ++ rewrite reader s.
Proof.
  intros Hw H. destruct w as [|c w]; [done|].
  unfold rewrite at 1. simpl in *. rewrite H. simpl.
  by rewrite rewrite_from_skip.
Qed.

(** A stretch in which nothing is read is copied. *)
Lemma rewrite_app_miss (a b : list N) :
  (∀ t1 t2, a = t1 ++ t2 → t2 ≠ [] → reader (t2 ++ b) = None) →
  rewrite reader (a ++ b) = a ++ rewrite reader b.
Proof.
  induction a as [|c a IH]; intros H; [done|].
  simpl. rewrite rewrite_miss.
  - f_equal. apply IH. intros t1 t2 -> Ht2. by apply (H (c :: t1) t2).
  - by apply (H [] (c :: a)).
Qed.

Lemma rewrite_all_miss (a : list N) :
  (∀ t1 t2, a = t1 ++ t2 → reader t2 = None) → rewrite reader a = a.
Proof.
  intros H. rewrite <- (app_nil_r a) at 1. rewrite rewrite_app_miss.
  - unfold rewrite. simpl. rewrite (H a []) by (by rewrite app_nil_r).
    by rewrite app_nil_r.
  - intros t1 t2 Ha _. rewrite app_nil_r. by eapply H.
Qed.

(** [re.sub] with a pattern that a reader reads is the rewriting by that
    reader, wherever the scan starts. *)
Lemma scan_rewrite (r : Re.regex) (repl : list N → Re.state → list N) :
  reads r repl reader →
  ∀ (s : list N) (skip i : nat),
    flat_map (λ p, match p with Re.Text c => [c] | Re.Hit w m => repl w m end)
             (Re.scan r skip i s)
    = rewrite_from reader skip s.
Proof.
  intros Hr s. induction s as [|c s IH]; intros skip i.
  - destruct skip; [|done]. simpl.
    specialize (Hr i []). destruct (Re.match_at r i []) as [m|]; rewrite Hr; done.
  - destruct skip as [|n]; [|apply IH]. simpl.
    specialize (Hr i (c :: s)).
    destruct (Re.match_at r i (c :: s)) as [m|]; rewrite Hr.
    + simpl. f_equal. destruct (Re.pos m - i)%nat; simpl; by rewrite IH.
    + simpl. by rewrite IH.
Qed.

Lemma sub_rewrite (r : Re.regex) (repl : list N → Re.state → list N) (s : list N) :
  reads r repl reader → Re.sub r repl s = rewrite reader s.
Proof. intros Hr. by apply scan_rewrite. Qed.

End RewriteFacts.

(** *** The matcher on classes and literals *)

Section MatcherFacts.
Import Re Reader.

Lemma span_app (p : N → bool) (s : list N) : (span p s).1 ++ (span p s).2 = s.
Proof.
  induction s as [|c s IH]; simpl; [done|].
  destruct (p c); [|done]. destruct (span p s). simpl in *. by f_equal.
Qed.

Lemma span_all (p : N → bool) (s : list N) : Forall (λ c, p c = true) (span p s).1.
Proof.
  induction s as [|c s IH]; simpl; [constructor|].
  destruct (p c) eqn:E; [|constructor]. destruct (span p s). simpl in *.
  by constructor.
Qed.

Lemma span_stop (p : N → bool) (s : list N) :
  match (span p s).2 with
  | c :: _ => p c = false
  | [] => True
  end.
Proof.
  induction s as [|c s IH]; simpl; [done|].
  destruct (p c) eqn:E; [|done]. by destruct (span p s).
Qed.

(** What [span] answers on a run of the class followed by a text that
    does not start in it. *)
Lemma span_run (p : N → bool) (a b : list N) :
  Forall (λ c, p c = true) a →
  match b with c :: _ => p c = false | [] => True end →
  span p (a ++ b) = (a, b).
Proof.
  intros Ha Hb. induction Ha as [|c a Hc Ha IH]; simpl.
  - destruct b as [|c b]; [done|]. simpl. by rewrite Hb.
  - by rewrite Hc, IH.
Qed.

(** A greedy repetition takes the whole run when what follows the
    repetition in the pattern cannot start in the class: giving a
    character back never helps. *)
Lemma star_span (p : N → bool) (k : state → option state)
    (i : nat) (s : list N) (g : list (nat * list N)) :
  (∀ i' c s' g', p c = true → k (mk i' (c :: s') g') = None) →
  star p k i s g
  = k (mk (length (span p s).1 + i) (span p s).2 g).
Proof.
  intros Hk. revert i. induction s as [|c s IH]; intros i; simpl; [done|].
  destruct (p c) eqn:E; [|done].
  rewrite IH. destruct (span p s) as [a b]. simpl.
  rewrite Nat.add_succ_r.
  destruct (k (mk (S (length a + i)) b g)); [done|]. by apply Hk.
Qed.

Lemma run_Lit (w : list N) (k : state → option state)
    (i : nat) (s : list N) (g : list (nat * list N)) :
  run (Lit w) k (mk i s g)
  = if Str.startswith w s then k (mk (length w + i) (drop (length w) s) g)
    else None.
Proof.
  revert i s. induction w as [|c w IH]; intros i s; simpl; [done|].
  destruct s as [|x s]; [done|]. simpl.
  rewrite (N.eqb_sym x c). destruct (c =? x)%N; [|done]. simpl.
  rewrite IH. by rewrite Nat.add_succ_r.
Qed.

End MatcherFacts.

(** *** The three patterns are read by their readers *)

(** Literals as lists of code points. *)
Ltac norm_lits :=
  repeat match goal with
         | |- context [py ?s] =>
             let v := eval vm_compute in (py s) in change (py s) with v
         | |- context [ch ?a] =>
             let v := eval vm_compute in (ch a) in change (ch a) with v
         end.

Section ReaderFacts.
Context {U : Unicode} (HU : conforming U).
Import Re Reader Chat.

Lemma digit_not_space (c : N) : isdecimal c = true → isspace c = false.
Proof.
  intros Hd. destruct (isspace c) eqn:E; [|done].
  apply (space_not_digit U HU) in E. congruence.
Qed.

Lemma mark_neq_digit (c x : N) :
  x ∈ py "[]()DC" → isdecimal c = true → (c =? x)%N = false.
Proof.
  intros Hx Hc. apply N.eqb_neq. intros ->.
  rewrite (mark_not_digit U HU) in Hc by done. done.
Qed.

Lemma mark_neq_space (c x : N) :
  x ∈ py "[]()DC" → isspace c = true → (c =? x)%N = false.
Proof.
  intros Hx Hc. apply N.eqb_neq. intros ->.
  rewrite (mark_not_space U HU) in Hc by done. done.
Qed.

Lemma in_marks (x : N) :
  x = ch "[" ∨ x = ch "]" ∨ x = ch "(" ∨ x = ch ")" ∨ x = ch "D" ∨ x = ch "C" →
  x ∈ py "[]()DC".
Proof.
  intros H. unfold py. simpl.
  repeat (destruct H as [->|H]; [repeat ((by left) || right)|]).
  subst. repeat ((by left) || right).
Qed.

Lemma Doc_not_Cell (s : list N) :
  Str.startswith (py "Doc") s = true → Str.startswith (py "Cell") s = false.
Proof.
  norm_lits. destruct s as [|x s]; [done|]. cbn [Str.startswith].
  destruct (68 =? x)%N eqn:E; [|done]. apply N.eqb_eq in E as <-. done.
Qed.

Lemma startswith_app (w s : list N) :
  Str.startswith w s = true → s = w ++ drop (length w) s.
Proof.
  revert s. induction w as [|c w IH]; intros s H; simpl in *; [done|].
  destruct s as [|x s]; [done|].
  apply andb_prop in H as [H1 H2]. apply N.eqb_eq in H1 as ->.
  simpl. f_equal. by apply IH.
Qed.

Lemma kind_len_app (s : list N) (n : nat) :
  kind_len s = Some n → s = take n s ++ drop n s ∧ length (take n s) = n
  ∧ (take n s = py "Doc" ∨ take n s = py "Cell").
Proof.
  unfold kind_len. intros H. split; [by rewrite take_drop|].
  destruct (Str.startswith (py "Doc") s) eqn:E1;
    [|destruct (Str.startswith (py "Cell") s) eqn:E2; [|done]];
    injection H as <-.
  - apply startswith_app in E1.
    assert (Ht : take 3 s = py "Doc") by (rewrite E1; reflexivity).
    rewrite Ht. split; [reflexivity|by left].
  - apply startswith_app in E2.
    assert (Ht : take 4 s = py "Cell") by (rewrite E2; reflexivity).
    rewrite Ht. split; [reflexivity|by right].
Qed.

(** The marker, whatever follows it in the pattern. *)
Lemma run_marker (k : state → option state) (i : nat) (s : list N)
    (g : list (nat * list N)) :
  run marker k (mk i s g)
  = match Reader.marker s with
    | Some (d, n) => k (mk (n + i) (drop n s) ((2%nat, d) :: (1%nat, kind_of s) :: g))
    | None => None
    end.
Proof.
  unfold marker, Reader.marker, kind_of.
  destruct s as [|x s1]; [done|].
  cbn [run rest pos groups tail]. change (ch "[") with 91%N.
  destruct (x =? 91)%N; [|done].
  cbn [run rest pos groups]. rewrite !run_Lit. cbn [rest pos groups].
  assert (Hk : match kind_len s1 with
               | Some n => Str.startswith (py "Doc") s1
                           || Str.startswith (py "Cell") s1 = true
               | None => Str.startswith (py "Doc") s1 = false
                         ∧ Str.startswith (py "Cell") s1 = false
               end).
  { unfold kind_len. destruct (Str.startswith (py "Doc") s1); [done|].
    by destruct (Str.startswith (py "Cell") s1). }
  destruct (kind_len s1) as [n|] eqn:En.
  2:{ destruct Hk as [-> ->]. done. }
  clear Hk. cbn [default].
  (* the rest of the pattern, from the end of the kind *)
  set (K := λ st' : state,
         star isspace
           (λ st, run (Seq (Grp 2 (Plus isdecimal)) (Chr (ch "]"))) k st)
           (pos st') (rest st') (groups st')).
  assert (HK : ∀ j : nat,
             K (mk (n + S i) (drop n s1) ((1%nat, take n s1) :: g))
             = let (ws, s3) := span isspace (drop n s1) in
               let (d, s4) := span isdecimal s3 in
               match d with
               | [] => None
               | _ :: _ =>
                   match s4 with
                   | [] => None
                   | y :: _ =>
                       if (y =? ch "]")%N
                       then k (mk (S (n + length ws + length d + 1) + i)
                                  (drop (S (n + length ws + length d + 1)) (x :: s1))
                                  ((2%nat, d) :: (1%nat, take n s1) :: g))
                       else None
                   end
               end).
  { intros _. unfold K. cbn [pos rest groups].
    rewrite star_span.
    2:{ intros i' c s' g' Hc. cbn [run rest pos groups Plus].
        by rewrite (space_not_digit U HU c Hc). }
    pose proof (span_app isspace (drop n s1)) as Hws.
    destruct (span isspace (drop n s1)) as [ws s3]. cbn [fst snd] in *.
    cbn [run rest pos groups Plus].
    pose proof (span_app isdecimal s3) as Hd.
    destruct s3 as [|y s3']; [done|]. cbn [span] in *.
    destruct (isdecimal y) eqn:Ey; [|done].
    rewrite star_span.
    2:{ intros i' c s' g' Hc. cbn [run rest pos groups].
        rewrite (mark_neq_digit c (ch "]")) by (done || by apply in_marks; auto).
        done. }
    destruct (span isdecimal s3') as [d' s4]. cbn [fst snd length] in *.
    cbn [run rest pos groups].
    destruct s4 as [|y2 s5]; [done|].
    destruct (y2 =? ch "]")%N eqn:Ey2; [|done].
    injection Hd as Hd.
    assert (Hs1 : x :: s1 = (x :: take n s1 ++ ws ++ y :: d') ++ y2 :: s5).
    { destruct (kind_len_app s1 n En) as (Hs1 & _ & _).
      rewrite Hs1 at 1. rewrite <- Hws, <- Hd. simpl.
      by rewrite <- !app_assoc. }
    assert (Hlen : length (x :: take n s1 ++ ws ++ y :: d')
                   = S (n + length ws + S (length d'))).
    { destruct (kind_len_app s1 n En) as (_ & Hn & _).
      simpl. rewrite !length_app, Hn. simpl. lia. }
    f_equal. f_equal.
    - lia.
    - rewrite Hs1.
      replace (S (n + length ws + S (length d') + 1))
        with (length ((x :: take n s1 ++ ws ++ y :: d') ++ [y2]))
        by (rewrite length_app, Hlen; simpl; lia).
      rewrite (app_assoc _ [y2] s5) at 1.
      replace ((x :: take n s1 ++ ws ++ y :: d') ++ y2 :: s5)
        with (((x :: take n s1 ++ ws ++ y :: d') ++ [y2]) ++ s5)
        by (by rewrite <- app_assoc).
      by rewrite drop_app_length.
    - f_equal. f_equal.
      replace (length d' + S (length ws + (n + S i)) - (length ws + (n + S i)))%nat
        with (S (length d')) by lia.
      rewrite <- Hd. simpl. by rewrite take_app_length. }
  destruct (Str.startswith (py "Doc") s1) eqn:E1.
  - rewrite (Doc_not_Cell s1 E1).
    assert (n = 3%nat) as -> by (unfold kind_len in En; rewrite E1 in En; congruence).
    change (length (py "Doc")) with 3%nat.
    replace (3 + S i - S i)%nat with 3%nat by lia.
    change (star isspace _ (3 + S i)%nat (drop 3 s1) ((1%nat, take 3 s1) :: g))
      with (K (mk (3 + S i) (drop 3 s1) ((1%nat, take 3 s1) :: g))).
    rewrite (HK 0%nat). unfold id.
    destruct (span isspace (drop 3 s1)) as [ws s3].
    destruct (span isdecimal s3) as [d s4].
    destruct d; [done|]. destruct s4 as [|y2 s5]; [done|].
    destruct (y2 =? ch "]")%N; [|done].
    by destruct (k _).
  - destruct (Str.startswith (py "Cell") s1) eqn:E2.
    2:{ unfold kind_len in En. rewrite E1, E2 in En. done. }
    assert (n = 4%nat) as -> by (unfold kind_len in En; rewrite E1, E2 in En; congruence).
    change (length (py "Cell")) with 4%nat.
    replace (4 + S i - S i)%nat with 4%nat by lia.
    change (star isspace _ (4 + S i)%nat (drop 4 s1) ((1%nat, take 4 s1) :: g))
      with (K (mk (4 + S i) (drop 4 s1) ((1%nat, take 4 s1) :: g))).
    rewrite (HK 0%nat). unfold id.
    destruct (span isspace (drop 4 s1)) as [ws s3].
    destruct (span isdecimal s3) as [d s4].
    destruct d; [done|]. destruct s4 as [|y2 s5]; [done|].
    by destruct (y2 =? ch "]")%N.
Qed.

Lemma drop_exact (w t s : list N) (n : nat) :
  s = w ++ t → n = length w → drop n s = t.
Proof. intros -> ->. by rewrite drop_app_length. Qed.

Lemma not_rparen_stop (c : N) : not_rparen c = false → (c =? ch ")")%N = true.
Proof. unfold not_rparen. by intros ->%negb_false_iff. Qed.

(** The parenthetical, whatever follows it in the pattern. *)
Lemma run_parenthetical (k : state → option state) (i : nat) (s : list N)
    (g : list (nat * list N)) :
  run (Seq (Star isspace)
         (Seq (Chr (ch "(")) (Seq (Star not_rparen) (Chr (ch ")"))))) k (mk i s g)
  = match Reader.parenthetical s with
    | Some n => k (mk (n + i) (drop n s) g)
    | None => None
    end.
Proof.
  unfold Reader.parenthetical. cbn [run rest pos groups].
  rewrite star_span.
  2:{ intros i' c s' g' Hc. cbn [run rest pos groups].
      rewrite (mark_neq_space c (ch "(")) by (done || by apply in_marks; auto).
      done. }
  pose proof (span_app isspace s) as Hws.
  destruct (span isspace s) as [ws s1]. cbn [fst snd] in *.
  destruct s1 as [|x s2]; [done|]. cbn [run rest pos groups].
  destruct (x =? ch "(")%N; [|done].
  rewrite star_span.
  2:{ intros i' c s' g' Hc. cbn [run rest pos groups].
      unfold not_rparen in Hc. apply negb_true_iff in Hc. by rewrite Hc. }
  pose proof (span_app not_rparen s2) as Hin.
  pose proof (span_stop not_rparen s2) as Hstop.
  destruct (span not_rparen s2) as [inner s3]. cbn [fst snd] in *.
  destruct s3 as [|c s4]; [done|]. cbn [run rest pos groups].
  rewrite (not_rparen_stop c Hstop).
  f_equal. f_equal; [lia|].
  symmetry. apply (drop_exact (ws ++ x :: inner ++ [c])).
  - rewrite <- Hws, <- Hin. rewrite <- ?app_assoc. simpl.
    by rewrite <- ?app_assoc.
  - rewrite !length_app. simpl. rewrite length_app. simpl. lia.
Qed.

(** The fragment, whatever follows it in the pattern. *)
Lemma run_fragment (k : state → option state) (i : nat) (s : list N)
    (g : list (nat * list N)) :
  run pattern3 k (mk i s g)
  = match Reader.fragment s with
    | Some n => k (mk (n + i) (drop n s) g)
    | None => None
    end.
Proof.
  unfold pattern3, Reader.fragment. cbn [run rest pos groups].
  rewrite star_span.
  2:{ intros i' c s' g' Hc. rewrite run_Lit.
      change (py "(doc_id=") with (ch "(" :: py "doc_id=").
      cbn [Str.startswith].
      rewrite N.eqb_sym, (mark_neq_space c (ch "("))
        by (done || by apply in_marks; auto).
      done. }
  pose proof (span_app isspace s) as Hws.
  destruct (span isspace s) as [ws s1]. cbn [fst snd] in *.
  rewrite run_Lit.
  destruct (Str.startswith (py "(doc_id=") s1) eqn:E; [|done].
  apply startswith_app in E. change (length (py "(doc_id=")) with 8%nat in *.
  cbn [run rest pos groups].
  rewrite star_span.
  2:{ intros i' c s' g' Hc. cbn [run rest pos groups].
      unfold not_rparen in Hc. apply negb_true_iff in Hc. by rewrite Hc. }
  pose proof (span_app not_rparen (drop 8 s1)) as Hin.
  pose proof (span_stop not_rparen (drop 8 s1)) as Hstop.
  destruct (span not_rparen (drop 8 s1)) as [inner s3]. cbn [fst snd] in *.
  destruct s3 as [|c s4]; [done|]. cbn [run rest pos groups].
  rewrite (not_rparen_stop c Hstop).
  f_equal. f_equal; [lia|].
  symmetry. apply (drop_exact (ws ++ py "(doc_id=" ++ inner ++ [c])).
  - rewrite <- Hws, E, <- Hin. rewrite <- ?app_assoc. simpl.
    by rewrite <- ?app_assoc.
  - rewrite !length_app. simpl. rewrite ?length_app. simpl. lia.
Qed.

Lemma marker_length (s d : list N) (n : nat) :
  Reader.marker s = Some (d, n) → (0 < n ≤ length s)%nat.
Proof.
  unfold Reader.marker. destruct s as [|x s1]; [done|].
  destruct (x =? ch "[")%N; [|done].
  destruct (kind_len s1) as [k|] eqn:Ek; [|done].
  destruct (kind_len_app s1 k Ek) as (Hs1 & Hk & _).
  pose proof (span_app isspace (drop k s1)) as Hws.
  destruct (span isspace (drop k s1)) as [ws s3].
  pose proof (span_app isdecimal s3) as Hd.
  destruct (span isdecimal s3) as [d' s4]. cbn [fst snd] in *.
  destruct d' as [|y d']; [done|]. destruct s4 as [|y2 s5]; [done|].
  destruct (y2 =? ch "]")%N; [|done]. intros [= <- <-].
  rewrite Hs1. simpl. rewrite length_app, Hk, <- Hws, length_app, <- Hd.
  rewrite length_app. simpl. lia.
Qed.

Lemma reads_pattern2 : reads pattern2 bracket_group2 reader2.
Proof.
  intros i s. unfold match_at, pattern2, reader2. rewrite run_marker.
  destruct (Reader.marker s) as [[d n]|]; [|done]. simpl.
  replace (n + i - i)%nat with n by lia. done.
Qed.

Lemma reads_pattern : reads pattern bracket_group2 reader1.
Proof.
  intros i s. unfold match_at, pattern, reader1.
  change (run (Seq marker ?r) Some ?st) with (run marker (run r Some) st).
  rewrite run_marker.
  destruct (Reader.marker s) as [[d n]|]; [|done]. cbn [mbind option_bind].
  rewrite run_parenthetical.
  destruct (Reader.parenthetical (drop n s)) as [m|]; [|done]. simpl.
  replace (m + (n + i) - i)%nat with (n + m)%nat by lia. done.
Qed.

Lemma reads_pattern3 : reads pattern3 (λ _ _, []) reader3.
Proof.
  intros i s. unfold match_at, reader3. rewrite run_fragment.
  destruct (Reader.fragment s) as [n|]; [|done]. simpl.
  replace (n + i - i)%nat with n by lia. done.
Qed.

(** [_clean_citation_leakage] is the three rewritings in turn. *)
Lemma _clean_citation_leakage_rewrite (content : list N) :
  _clean_citation_leakage content
  = rewrite reader3 (rewrite reader2 (rewrite reader1 content)).
Proof.
  unfold _clean_citation_leakage.
  rewrite (sub_rewrite _ _ _ _ reads_pattern3).
  rewrite (sub_rewrite _ _ _ _ reads_pattern2).
  by rewrite (sub_rewrite _ _ _ _ reads_pattern).
Qed.

(** *** Where the readers read *)

Lemma span_app_stop (p : N → bool) (r b : list N) :
  match b with c :: _ => p c = false | [] => True end →
  span p (r ++ b) = ((span p r).1, (span p r).2 ++ b).
Proof.
  intros Hb. induction r as [|c r IH]; simpl.
  - destruct b as [|c b]; [done|]. simpl. by rewrite Hb.
  - destruct (p c); [|done]. rewrite IH. by destruct (span p r).
Qed.

Lemma startswith_extend (w t : list N) (x : N) (b : list N) :
  x ∉ w → Str.startswith w (t ++ x :: b) = Str.startswith w t.
Proof.
  revert t. induction w as [|c w IH]; intros t Hx; [done|].
  apply not_elem_of_cons in Hx as [Hne Hx].
  destruct t as [|y t]; simpl.
  - replace (c =? x)%N with false; [done|].
    symmetry. apply N.eqb_neq. congruence.
  - by rewrite IH.
Qed.

Lemma startswith_length (w t : list N) :
  Str.startswith w t = true → (length w ≤ length t)%nat.
Proof.
  revert t. induction w as [|c w IH]; intros t H; simpl; [lia|].
  destruct t as [|y t]; [done|]. simpl in *.
  apply andb_prop in H as [_ H]. apply IH in H. lia.
Qed.

Lemma kind_len_extend (t b : list N) :
  kind_len (t ++ ch "[" :: b) = kind_len t.
Proof.
  unfold kind_len. rewrite !startswith_extend; [done| |].
  - norm_lits. set_solver.
  - norm_lits. set_solver.
Qed.

Lemma kind_len_le (t : list N) (k : nat) : kind_len t = Some k → (k ≤ length t)%nat.
Proof.
  unfold kind_len. intros H.
  destruct (Str.startswith (py "Doc") t) eqn:E1;
    [|destruct (Str.startswith (py "Cell") t) eqn:E2; [|done]];
    injection H as <-.
  - by apply startswith_length in E1.
  - by apply startswith_length in E2.
Qed.

(** A marker is found in a text, or not, whatever comes after the text,
    as long as that starts with an opening bracket. *)
Lemma marker_extend (t b : list N) :
  t ≠ [] → Reader.marker (t ++ ch "[" :: b) = Reader.marker t.
Proof.
  intros Ht. destruct t as [|x t]; [done|]. unfold Reader.marker.
  rewrite <- app_comm_cons.
  destruct (x =? ch "[")%N; [|done].
  rewrite kind_len_extend.
  destruct (kind_len t) as [k|] eqn:Ek; [|done].
  rewrite drop_app_le by (by apply kind_len_le).
  rewrite span_app_stop
    by (apply (mark_not_space U HU); apply in_marks; auto).
  destruct (span isspace (drop k t)) as [ws s3]. cbn [fst snd].
  rewrite span_app_stop
    by (apply (mark_not_digit U HU); apply in_marks; auto).
  destruct (span isdecimal s3) as [d s4]. cbn [fst snd].
  destruct d as [|y d]; [done|].
  destruct s4 as [|y2 s5]; [|done]. done.
Qed.

Lemma marker_digits (s d : list N) (n : nat) :
  Reader.marker s = Some (d, n) → Forall (λ c, isdecimal c = true) d.
Proof.
  unfold Reader.marker. destruct s as [|x s1]; [done|].
  destruct (x =? ch "[")%N; [|done].
  destruct (kind_len s1) as [k|]; [|done].
  destruct (span isspace (drop k s1)) as [ws s3].
  pose proof (span_all isdecimal s3) as Hd.
  destruct (span isdecimal s3) as [d' s4]. cbn [fst snd] in *.
  destruct d' as [|y d']; [done|]. destruct s4 as [|y2 s5]; [done|].
  destruct (y2 =? ch "]")%N; [|done]. by intros [= <- <-].
Qed.

Lemma marker_not_bracket (x : N) (s : list N) :
  x ≠ ch "[" → Reader.marker (x :: s) = None.
Proof.
  intros Hx. unfold Reader.marker.
  replace (x =? ch "[")%N with false; [done|].
  symmetry. by apply N.eqb_neq.
Qed.

Lemma marker_shape (kind ws digits tail : list N) :
  kind = py "Doc" ∨ kind = py "Cell" →
  Forall (λ c, isspace c = true) ws →
  Forall (λ c, isdecimal c = true) digits → digits ≠ [] →
  Reader.marker (marker_text kind ws digits ++ tail)
  = Some (digits, length (marker_text kind ws digits)).
Proof.
  intros Hkind Hws Hd Hne. unfold marker_text, Reader.marker.
  rewrite <- !app_assoc. cbn [app]. rewrite N.eqb_refl.
  assert (Hk : kind_len (kind ++ ws ++ digits ++ ch "]" :: tail)
               = Some (length kind)).
  { destruct Hkind as [-> | ->]; reflexivity. }
  rewrite Hk, drop_app_length.
  rewrite span_run; [|done|].
  2:{ destruct digits as [|c digits]; [done|]. simpl.
      apply digit_not_space. by apply Forall_cons in Hd as [Hc _]. }
  rewrite span_run; [|done|].
  2:{ simpl. apply (mark_not_digit U HU). apply in_marks; auto. }
  destruct digits as [|c digits]; [done|].
  rewrite N.eqb_refl. f_equal. f_equal.
  simpl. rewrite !length_app. simpl. rewrite !length_app. simpl. lia.
Qed.

Lemma marker_text_inside (kind ws digits : list N) :
  kind = py "Doc" ∨ kind = py "Cell" →
  Forall (λ c, isspace c = true) ws →
  Forall (λ c, isdecimal c = true) digits →
  Forall (λ c, c ≠ ch "[") (kind ++ ws ++ digits ++ [ch "]"]).
Proof.
  intros Hkind Hws Hd. rewrite !Forall_app. split; [|split; [|split]].
  - destruct Hkind as [-> | ->]; norm_lits; repeat constructor; done.
  - eapply Forall_impl; [exact Hws|]. intros c Hc ->.
    rewrite (mark_not_space U HU) in Hc; [done|]. apply in_marks; auto.
  - eapply Forall_impl; [exact Hd|]. intros c Hc ->.
    rewrite (mark_not_digit U HU) in Hc; [done|]. apply in_marks; auto.
  - repeat constructor. done.
Qed.

Lemma parenthetical_space (c : N) (s : list N) :
  isspace c = true → Reader.parenthetical (c :: s) = S <$> Reader.parenthetical s.
Proof.
  intros Hc. unfold Reader.parenthetical. cbn [span]. rewrite Hc.
  destruct (span isspace s) as [ws s1].
  destruct s1 as [|x s2]; [done|].
  destruct (x =? ch "(")%N; [|done].
  destruct (span not_rparen s2) as [inner s3].
  destruct s3; [done|]. cbn [fmap option_fmap option_map length].
  f_equal.
Qed.

(** No parenthetical starts a text whose first character other than
    white space is not an opening parenthesis. *)
Lemma parenthetical_none (r b : list N) :
  ch "(" ∉ r → b = [] ∨ (∃ b', b = ch "[" :: b') →
  Reader.parenthetical (r ++ b) = None.
Proof.
  intros Hr Hb. induction r as [|c r IH].
  - destruct Hb as [-> | [b' ->]]; [done|].
    unfold Reader.parenthetical. cbn [app span].
    rewrite (mark_not_space U HU) by (apply in_marks; auto).
    by norm_lits.
  - apply not_elem_of_cons in Hr as [Hc Hr]. rewrite <- app_comm_cons.
    destruct (isspace c) eqn:Ec.
    + rewrite parenthetical_space by done. by rewrite IH.
    + unfold Reader.parenthetical. cbn [span]. rewrite Ec.
      replace (c =? ch "(")%N with false; [done|].
      symmetry. apply N.eqb_neq. congruence.
Qed.

Lemma parenthetical_length (s : list N) (n : nat) :
  Reader.parenthetical s = Some n → (0 < n ≤ length s)%nat.
Proof.
  unfold Reader.parenthetical.
  pose proof (span_app isspace s) as Hws.
  destruct (span isspace s) as [ws s1]. cbn [fst snd] in *.
  destruct s1 as [|x s2]; [done|].
  destruct (x =? ch "(")%N; [|done].
  pose proof (span_app not_rparen s2) as Hin.
  destruct (span not_rparen s2) as [inner s3]. cbn [fst snd] in *.
  destruct s3 as [|c s4]; [done|]. intros [= <-].
  rewrite <- Hws, length_app. simpl. rewrite <- Hin, length_app. simpl. lia.
Qed.

(** In a text without opening parenthesis, followed by nothing or by an
    opening bracket, no marker with a parenthetical is read. *)
Lemma reader1_none (t b : list N) :
  ch "(" ∉ t → b = [] ∨ (t ≠ [] ∧ ∃ b', b = ch "[" :: b') →
  reader1 (t ++ b) = None.
Proof.
  intros Ht Hb. unfold reader1.
  assert (Hm : Reader.marker (t ++ b) = Reader.marker t).
  { destruct Hb as [-> | [Hne [b' ->]]]; [by rewrite app_nil_r|].
    by apply marker_extend. }
  rewrite Hm. destruct (Reader.marker t) as [[d n]|] eqn:E; [|done]. simpl.
  apply marker_length in E.
  rewrite drop_app_le by lia. rewrite parenthetical_none; [done| |].
  - intros Hin. apply Ht. rewrite <- (take_drop n t).
    apply elem_of_app. by right.
  - destruct Hb as [-> | [_ ?]]; auto.
Qed.

Lemma suffix_not_in (x : N) (a t1 t2 : list N) : x ∉ a → a = t1 ++ t2 → x ∉ t2.
Proof. intros Ha -> Hin. apply Ha. apply elem_of_app. by right. Qed.

Lemma fragment_space (c : N) (s : list N) :
  isspace c = true → Reader.fragment (c :: s) = S <$> Reader.fragment s.
Proof.
  intros Hc. unfold Reader.fragment. cbn [span]. rewrite Hc.
  destruct (span isspace s) as [ws s1].
  destruct (Str.startswith (py "(doc_id=") s1); [|done].
  destruct (span not_rparen (drop 8 s1)) as [inner s3].
  destruct s3; [done|]. cbn [fmap option_fmap option_map length].
  f_equal.
Qed.

Lemma fragment_not_paren (c : N) (s : list N) :
  isspace c = false → c ≠ ch "(" → Reader.fragment (c :: s) = None.
Proof.
  intros Hc Hne. unfold Reader.fragment. cbn [span]. rewrite Hc.
  norm_lits. cbn [Str.startswith].
  replace (40 =? c)%N with false; [done|].
  symmetry. apply N.eqb_neq. intros E. apply Hne. by rewrite <- E.
Qed.

(** No fragment starts a text without opening parenthesis up to a
    character that is not white space. *)
Lemma fragment_none (u : list N) (c : N) (z : list N) :
  ch "(" ∉ u → c ≠ ch "(" → isspace c = false →
  Reader.fragment (u ++ c :: z) = None.
Proof.
  intros Hu Hc Hs. induction u as [|x u IH].
  - by apply fragment_not_paren.
  - apply not_elem_of_cons in Hu as [Hx Hu]. rewrite <- app_comm_cons.
    destruct (isspace x) eqn:Ex.
    + rewrite fragment_space by done. by rewrite IH.
    + apply fragment_not_paren; [done|congruence].
Qed.

Lemma fragment_none_all (u : list N) : ch "(" ∉ u → Reader.fragment u = None.
Proof.
  intros Hu. induction u as [|x u IH]; [done|].
  apply not_elem_of_cons in Hu as [Hx Hu].
  destruct (isspace x) eqn:Ex.
  - rewrite fragment_space by done. by rewrite IH.
  - apply fragment_not_paren; [done|congruence].
Qed.

(** What a rewriting leaves is made of what it read and of what it
    wrote. *)
Lemma rewrite_from_Forall (P : N → Prop)
    (reader : list N → option (list N * nat)) (skip : nat) (s : list N) :
  (∀ t out n, reader t = Some (out, n) → Forall P out) →
  Forall P s → Forall P (rewrite_from reader skip s).
Proof.
  intros Hout. revert skip. induction s as [|c s IH]; intros skip Hs.
  - destruct skip; cbn [rewrite_from]; [|done].
    destruct (reader []) as [[out len]|] eqn:E; [|done].
    rewrite app_nil_r. by eapply Hout.
  - apply Forall_cons in Hs as [Hc Hs].
    destruct skip as [|n]; cbn [rewrite_from]; [|by apply IH].
    destruct (reader (c :: s)) as [[out len]|] eqn:E.
    + apply Forall_app. split; [by eapply Hout|].
      destruct len; [apply Forall_cons; split; [done|]|]; by apply IH.
    + apply Forall_cons. split; [done|]. by apply IH.
Qed.

Lemma bracketed_no_paren (t out : list N) (n : nat) :
  reader2 t = Some (out, n) → Forall (λ c, c ≠ ch "(") out.
Proof.
  unfold reader2. destruct (Reader.marker t) as [[d k]|] eqn:E; [|done].
  intros [= <- <-]. apply marker_digits in E.
  unfold bracketed. rewrite !Forall_app. split; [|split].
  - repeat constructor. done.
  - eapply Forall_impl; [exact E|]. intros c Hc ->.
    rewrite (mark_not_digit U HU) in Hc; [done|]. apply in_marks; auto 10.
  - repeat constructor. done.
Qed.

Lemma rewrite_reader2_no_paren (s : list N) :
  ch "(" ∉ s → ch "(" ∉ rewrite reader2 s.
Proof.
  intros Hs Hin.
  assert (H : Forall (λ c, c ≠ ch "(") (rewrite reader2 s)).
  { apply rewrite_from_Forall; [apply bracketed_no_paren|].
    apply Forall_forall. intros c Hc ->. done. }
  rewrite Forall_forall in H. by apply (H _ Hin).
Qed.

(** **** The first pass *)

Lemma rewrite_reader1_no_paren (s : list N) :
  ch "(" ∉ s → rewrite reader1 s = s.
Proof.
  intros Hs. apply rewrite_all_miss. intros t1 t2 ->.
  rewrite <- (app_nil_r t2). apply reader1_none; [|by left].
  intros Hin. apply Hs. apply elem_of_app. by right.
Qed.

Lemma rewrite_reader1_before (pre b : list N) :
  ch "(" ∉ pre →
  rewrite reader1 (pre ++ ch "[" :: b) = pre ++ rewrite reader1 (ch "[" :: b).
Proof.
  intros Hpre. apply rewrite_app_miss. intros t1 t2 -> Hne.
  apply reader1_none.
  - intros Hin. apply Hpre. apply elem_of_app. by right.
  - right. split; [done|]. by eexists.
Qed.

Lemma reader1_marker (kind ws digits tail : list N) :
  kind = py "Doc" ∨ kind = py "Cell" →
  Forall (λ c, isspace c = true) ws →
  Forall (λ c, isdecimal c = true) digits → digits ≠ [] →
  reader1 (marker_text kind ws digits ++ tail)
  = m ← Reader.parenthetical tail;
    Some (bracketed digits, (length (marker_text kind ws digits) + m)%nat).
Proof.
  intros Hkind Hws Hd Hne. unfold reader1.
  rewrite marker_shape by done. cbn [mbind option_bind].
  by rewrite drop_app_length.
Qed.

Lemma proper_suffix_head (x : N) (a t1 t2 : list N) (P : N → Prop) :
  Forall P a → x :: a = t1 ++ t2 → t1 ≠ [] →
  match t2 with c :: _ => P c | [] => True end.
Proof.
  intros Ha E Ht1. destruct t1 as [|y t1]; [done|].
  injection E as _ ->. apply Forall_app in Ha as [_ Ha].
  destruct t2; [done|]. by apply Forall_cons in Ha as [? _].
Qed.

Lemma rewrite_reader1_marker (kind ws digits tail : list N) :
  kind = py "Doc" ∨ kind = py "Cell" →
  Forall (λ c, isspace c = true) ws →
  Forall (λ c, isdecimal c = true) digits → digits ≠ [] →
  rewrite reader1 (marker_text kind ws digits ++ tail)
  = match Reader.parenthetical tail with
    | Some _ => bracketed digits
    | None => marker_text kind ws digits
    end ++ rewrite reader1 (after_parenthetical tail).
Proof.
  intros Hkind Hws Hd Hne. unfold after_parenthetical.
  destruct (Reader.parenthetical tail) as [m|] eqn:Em.
  - pose proof (parenthetical_length _ _ Em) as Hm.
    rewrite <- (take_drop m tail) at 1. rewrite app_assoc.
    apply rewrite_hit.
    + unfold marker_text. by destruct (take m tail).
    + rewrite <- app_assoc, take_drop, reader1_marker, Em by done.
      cbn [mbind option_bind]. do 2 f_equal.
      rewrite length_app, length_take. lia.
  - apply rewrite_app_miss. intros t1 t2 E Hne2.
    destruct t1 as [|y t1].
    + simpl in E. subst t2. by rewrite reader1_marker, Em.
    + pose proof (proper_suffix_head _ _ (y :: t1) t2 _
                    (marker_text_inside kind ws digits Hkind Hws Hd) E) as H.
      destruct t2 as [|c t2]; [done|].
      unfold reader1. rewrite <- app_comm_cons.
      rewrite marker_not_bracket; [done|]. by apply H.
Qed.

(** **** The second pass *)

Lemma reader2_nil : reader2 [] = None.
Proof. done. Qed.

Lemma rewrite_from_reader2_app (a b : list N) (skip : nat) :
  (skip ≤ length a)%nat →
  rewrite_from reader2 skip (a ++ ch "[" :: b)
  = rewrite_from reader2 skip a ++ rewrite reader2 (ch "[" :: b).
Proof.
  revert skip. induction a as [|c a IH]; intros skip Hskip.
  - destruct skip; [|simpl in Hskip; lia]. done.
  - destruct skip as [|n]; rewrite <- app_comm_cons; cbn [rewrite_from].
    + assert (E : reader2 (c :: a ++ ch "[" :: b) = reader2 (c :: a)).
      { unfold reader2. rewrite app_comm_cons. by rewrite marker_extend. }
      rewrite E. destruct (reader2 (c :: a)) as [[out len]|] eqn:E2.
      * assert (0 < len ≤ length (c :: a))%nat as Hlen.
        { unfold reader2 in E2.
          destruct (Reader.marker (c :: a)) as [[d k]|] eqn:E3; [|done].
          injection E2 as _ <-. by eapply marker_length. }
        destruct len as [|n]; [lia|]. rewrite <- app_assoc. f_equal.
        apply IH. simpl in Hlen. lia.
      * rewrite <- app_comm_cons. f_equal. apply IH. lia.
    + apply IH. simpl in Hskip. lia.
Qed.

(** The second pass works on what precedes an opening bracket and on
    what the bracket starts apart. *)
Lemma rewrite_reader2_app (a b : list N) :
  rewrite reader2 (a ++ ch "[" :: b)
  = rewrite reader2 a ++ rewrite reader2 (ch "[" :: b).
Proof. apply rewrite_from_reader2_app. lia. Qed.

Lemma rewrite_reader2_marker (kind ws digits tail : list N) :
  kind = py "Doc" ∨ kind = py "Cell" →
  Forall (λ c, isspace c = true) ws →
  Forall (λ c, isdecimal c = true) digits → digits ≠ [] →
  rewrite reader2 (marker_text kind ws digits ++ tail)
  = bracketed digits ++ rewrite reader2 tail.
Proof.
  intros Hkind Hws Hd Hne. apply rewrite_hit; [done|].
  unfold reader2. by rewrite marker_shape.
Qed.

Lemma marker_bracketed (digits tail : list N) :
  Forall (λ c, isdecimal c = true) digits → digits ≠ [] →
  Reader.marker (bracketed digits ++ tail) = None.
Proof.
  intros Hd Hne. destruct digits as [|c digits]; [done|].
  apply Forall_cons in Hd as [Hc _].
  unfold bracketed, Reader.marker. cbn [app]. rewrite N.eqb_refl.
  unfold kind_len. norm_lits. cbn [Str.startswith].
  replace (68 =? c)%N with false.
  2:{ symmetry. apply N.eqb_neq. intros <-.
      rewrite (mark_not_digit U HU 68%N) in Hc; [done|].
      apply (in_marks 68%N); auto 10. }
  replace (67 =? c)%N with false.
  2:{ symmetry. apply N.eqb_neq. intros <-.
      rewrite (mark_not_digit U HU 67%N) in Hc; [done|].
      apply (in_marks 67%N); auto 10. }
  done.
Qed.

Lemma rewrite_reader2_bracketed (digits tail : list N) :
  Forall (λ c, isdecimal c = true) digits → digits ≠ [] →
  rewrite reader2 (bracketed digits ++ tail)
  = bracketed digits ++ rewrite reader2 tail.
Proof.
  intros Hd Hne. apply rewrite_app_miss. intros t1 t2 E Hne2.
  unfold reader2. destruct t1 as [|y t1].
  - simpl in E. subst t2. by rewrite marker_bracketed.
  - assert (Hin : Forall (λ c, c ≠ ch "[") (digits ++ [ch "]"])).
    { apply Forall_app. split; [|by repeat constructor].
      eapply Forall_impl; [exact Hd|]. intros c Hc ->.
      rewrite (mark_not_digit U HU) in Hc; [done|]. apply in_marks; auto. }
    pose proof (proper_suffix_head _ _ (y :: t1) t2 _ Hin E) as H.
    destruct t2 as [|c t2]; [done|]. rewrite <- app_comm_cons.
    rewrite marker_not_bracket; [done|]. by apply H.
Qed.

(** **** The third pass *)

Lemma rewrite_reader3_no_paren (s : list N) :
  ch "(" ∉ s → rewrite reader3 s = s.
Proof.
  intros Hs. apply rewrite_all_miss. intros t1 t2 ->.
  unfold reader3. rewrite fragment_none_all; [done|].
  intros Hin. apply Hs. apply elem_of_app. by right.
Qed.

Lemma rewrite_reader3_bracketed (pre digits tail : list N) :
  ch "(" ∉ pre → Forall (λ c, isdecimal c = true) digits →
  rewrite reader3 (pre ++ bracketed digits ++ tail)
  = pre ++ bracketed digits ++ rewrite reader3 tail.
Proof.
  intros Hpre Hd. rewrite !(app_assoc pre).
  apply rewrite_app_miss. intros t1 t2 E Hne.
  unfold bracketed in E. rewrite !app_assoc in E.
  destruct (exists_last Hne) as (u & x & ->).
  rewrite app_assoc in E. apply app_inj_tail in E as [E <-].
  unfold reader3. rewrite <- app_assoc. cbn [app].
  rewrite fragment_none; [done| |done|].
  - intros Hin.
    assert (Hall : ch "(" ∈ (pre ++ [ch "["]) ++ digits).
    { rewrite E. apply elem_of_app. by right. }
    rewrite !elem_of_app in Hall. destruct Hall as [[?|Hb]|Hdig]; [done| |].
    + apply elem_of_cons in Hb as [Hb|Hb]; [done|]. by apply elem_of_nil in Hb.
    + rewrite Forall_forall in Hd. apply Hd in Hdig.
      rewrite (mark_not_digit U HU) in Hdig; [done|]. apply in_marks; auto 10.
  - apply (mark_not_space U HU). apply in_marks; auto 10.
Qed.

(** **** The three passes on a marker *)

Lemma _clean_citation_leakage_at_marker (pre kind ws digits tail : list N) :
  kind = py "Doc" ∨ kind = py "Cell" →
  ch "(" ∉ pre →
  Forall (λ c, isspace c = true) ws →
  Forall (λ c, isdecimal c = true) digits → digits ≠ [] →
  _clean_citation_leakage (pre ++ marker_text kind ws digits ++ tail)
  = rewrite reader2 pre ++ bracketed digits
    ++ _clean_citation_leakage (after_parenthetical tail)
  ∧ _clean_citation_leakage pre = rewrite reader2 pre.
Proof.
  intros Hkind Hpre Hws Hd Hne.
  rewrite !_clean_citation_leakage_rewrite.
  pose proof (rewrite_reader2_no_paren pre Hpre) as Hpre2.
  split.
  2:{ rewrite rewrite_reader1_no_paren by done.
      by apply rewrite_reader3_no_paren. }
  assert (E1 : rewrite reader1 (pre ++ marker_text kind ws digits ++ tail)
               = pre ++ rewrite reader1 (marker_text kind ws digits ++ tail)).
  { unfold marker_text. rewrite <- !app_assoc. cbn [app].
    by apply rewrite_reader1_before. }
  rewrite E1, rewrite_reader1_marker by done.
  set (T1 := rewrite reader1 (after_parenthetical tail)).
  assert (E2 : rewrite reader2
                 (pre ++ match Reader.parenthetical tail with
                         | Some _ => bracketed digits
                         | None => marker_text kind ws digits
                         end ++ T1)
               = rewrite reader2 pre ++ bracketed digits ++ rewrite reader2 T1).
  { destruct (Reader.parenthetical tail).
    - rewrite <- rewrite_reader2_bracketed by done.
      unfold bracketed. rewrite <- !app_assoc. cbn [app].
      apply rewrite_reader2_app.
    - rewrite <- (rewrite_reader2_marker kind ws) by done.
      unfold marker_text. rewrite <- !app_assoc. cbn [app].
      apply rewrite_reader2_app. }
  rewrite E2. by apply rewrite_reader3_bracketed.
Qed.

(** **** The three passes on a fragment *)

Lemma startswith_self (w s : list N) : Str.startswith w (w ++ s) = true.
Proof. induction w as [|c w IH]; [done|]. simpl. by rewrite N.eqb_refl. Qed.

Lemma reader_no_bracket (t1 t2 a b : list N) :
  ch "[" ∉ a → a = t1 ++ t2 → t2 ≠ [] → Reader.marker (t2 ++ b) = None.
Proof.
  intros Ha -> Hne. destruct t2 as [|c t2]; [done|].
  rewrite <- app_comm_cons. apply marker_not_bracket. intros ->.
  apply Ha. apply elem_of_app. right. by left.
Qed.

Lemma rewrite_reader1_no_bracket (a b : list N) :
  ch "[" ∉ a → rewrite reader1 (a ++ b) = a ++ rewrite reader1 b.
Proof.
  intros Ha. apply rewrite_app_miss. intros t1 t2 E Hne.
  unfold reader1. by rewrite (reader_no_bracket t1 t2 a b).
Qed.

Lemma rewrite_reader2_no_bracket (a b : list N) :
  ch "[" ∉ a → rewrite reader2 (a ++ b) = a ++ rewrite reader2 b.
Proof.
  intros Ha. apply rewrite_app_miss. intros t1 t2 E Hne.
  unfold reader2. by rewrite (reader_no_bracket t1 t2 a b).
Qed.

Lemma rewrite_nil (reader : list N → option (list N * nat)) :
  reader [] = None → rewrite reader [] = [].
Proof. intros H. unfold rewrite. simpl. by rewrite H. Qed.

Lemma fragment_shape (ws inner tail : list N) :
  Forall (λ c, isspace c = true) ws → ch ")" ∉ inner →
  Reader.fragment ((ws ++ fragment_text inner) ++ tail)
  = Some (length (ws ++ fragment_text inner)).
Proof.
  intros Hws Hin. unfold Reader.fragment, fragment_text.
  rewrite <- !app_assoc. rewrite span_run; [|done|].
  2:{ norm_lits. cbn [app]. apply (mark_not_space U HU 40%N).
      apply (in_marks 40%N). auto 10. }
  rewrite startswith_self.
  change 8%nat with (length (py "(doc_id=")) at 1.
  rewrite drop_app_length.
  rewrite span_run.
  - cbn [app]. f_equal. rewrite !length_app. simpl. lia.
  - apply Forall_forall. intros c Hc. unfold not_rparen.
    apply negb_true_iff, N.eqb_neq. by intros ->.
  - cbn [app]. unfold not_rparen. by rewrite N.eqb_refl.
Qed.

Lemma fragment_text_no_bracket (ws inner : list N) :
  Forall (λ c, isspace c = true) ws → ch "[" ∉ inner →
  ch "[" ∉ ws ++ fragment_text inner.
Proof.
  intros Hws Hin. unfold fragment_text. rewrite !elem_of_app.
  intros [H|[H|[H|H]]].
  - rewrite Forall_forall in Hws. apply Hws in H.
    rewrite (mark_not_space U HU) in H; [done|]. apply in_marks; auto.
  - revert H. norm_lits. rewrite !elem_of_cons, elem_of_nil.
    intros H. repeat destruct H as [H|H]; done.
  - done.
  - revert H. norm_lits. rewrite !elem_of_cons, elem_of_nil.
    intros [H|H]; done.
Qed.

Lemma _clean_citation_leakage_at_fragment (pre ws inner tail : list N) :
  ch "[" ∉ pre → ch "(" ∉ pre →
  match last pre with Some c => isspace c = false | None => True end →
  Forall (λ c, isspace c = true) ws →
  ch "[" ∉ inner → ch ")" ∉ inner →
  _clean_citation_leakage (pre ++ ws ++ fragment_text inner ++ tail)
  = pre ++ _clean_citation_leakage tail.
Proof.
  intros Hb Hp Hlast Hws Hib Hip.
  rewrite !_clean_citation_leakage_rewrite.
  assert (Hfb : ch "[" ∉ pre ++ ws ++ fragment_text inner).
  { rewrite elem_of_app. intros [?|H]; [done|].
    by apply (fragment_text_no_bracket ws inner). }
  replace (pre ++ ws ++ fragment_text inner ++ tail)
    with ((pre ++ ws ++ fragment_text inner) ++ tail)
    by (by rewrite <- !app_assoc).
  rewrite rewrite_reader1_no_bracket, rewrite_reader2_no_bracket by done.
  set (T2 := rewrite reader2 (rewrite reader1 tail)).
  rewrite <- app_assoc. rewrite rewrite_app_miss.
  - f_equal.
    rewrite (rewrite_hit reader3 (ws ++ fragment_text inner) T2 []); [done| |].
    + unfold fragment_text. norm_lits. by destruct ws.
    + unfold reader3. by rewrite fragment_shape.
  - intros t1 t2 -> Hne.
    destruct (exists_last Hne) as (u & x & ->).
    rewrite app_assoc, last_snoc in Hlast.
    unfold reader3. rewrite <- app_assoc. cbn [app].
    rewrite fragment_none; [done| | |done].
    + intros Hin. apply Hp. rewrite !elem_of_app. auto.
    + intros ->. apply Hp. rewrite !elem_of_app. right. right. by left.
Qed.

(** **** Text without bracket or parenthesis *)

Lemma _clean_citation_leakage_plain (s : list N) :
  ch "[" ∉ s → ch "(" ∉ s → _clean_citation_leakage s = s.
Proof.
  intros Hb Hp. rewrite _clean_citation_leakage_rewrite.
  rewrite rewrite_reader1_no_paren by done.
  rewrite <- (app_nil_r s) at 1.
  rewrite rewrite_reader2_no_bracket, rewrite_nil, app_nil_r by done.
  by apply rewrite_reader3_no_paren.
Qed.

End ReaderFacts.

(** ** The document retriever: scoring and retrieval *)

Section ScoreFacts.

Lemma min__le_r (a b : Q) : (min_ a b <= b)%Q.
Proof.
  unfold min_. destruct (Qle_bool a b) eqn:E.
  - by apply Qle_bool_iff.
  - apply Qle_refl.
Qed.

Lemma min__nonneg (a b : Q) : (0 <= a)%Q → (0 <= b)%Q → (0 <= min_ a b)%Q.
Proof. intros Ha Hb. unfold min_. by destruct (Qle_bool a b). Qed.

Lemma foldl_nonneg {A : Type} (f : Q → A → Q) (l : list A) (q : Q) :
  (∀ q x, (0 <= q)%Q → (0 <= f q x)%Q) → (0 <= q)%Q → (0 <= foldl f q l)%Q.
Proof.
  intros Hf. revert q. induction l as [|x l IH]; intros q Hq; simpl; [done|].
  apply IH. by apply Hf.
Qed.

Lemma Qplus_nonneg (a b : Q) : (0 <= a)%Q → (0 <= b)%Q → (0 <= a + b)%Q.
Proof.
  intros Ha Hb. apply (Qle_trans _ (0 + 0)); [done|].
  by apply Qplus_le_compat.
Qed.

End ScoreFacts.

Section DocumentRetrievalFacts.
Context {U : Unicode}.
Import DocumentRetriever.

Lemma _score_chunk_relevance_bounds (chunk : DocChunk.t) (query_terms : list (list N)) :
  (0 <= _score_chunk_relevance chunk query_terms
   ∧ _score_chunk_relevance chunk query_terms <= 1)%Q.
Proof.
  unfold _score_chunk_relevance. split; [|apply min__le_r].
  apply min__nonneg; [|done].
  set (s0 := foldl _ 0%Q query_terms).
  assert (H0 : (0 <= s0)%Q).
  { apply foldl_nonneg; [|done]. intros q term Hq.
    destruct (0 <? _)%nat eqn:E; [|done].
    apply Qplus_nonneg; [done|]. apply min__nonneg; [|done].
    apply Qmult_le_0_compat; [|done].
    unfold Qle. simpl. lia. }
  destruct (DocChunk.section chunk) as [[|c s]|]; [done| |done].
  apply foldl_nonneg; [|done]. intros q term Hq.
  destruct (Str.contains _ _); [|done]. by apply Qplus_nonneg.
Qed.

Lemma _score_chunk_relevance_no_terms (chunk : DocChunk.t) :
  _score_chunk_relevance chunk [] = 0%Q.
Proof.
  unfold _score_chunk_relevance. simpl.
  by destruct (DocChunk.section chunk) as [[|c s]|].
Qed.

Lemma relevant_chunks_spec (self : DocumentRetriever.t) (query : list N)
    (documents : list Document.t) (min_relevance : Q) (c : DocChunk.t) :
  c ∈ flat_map (relevant_chunks self (query_terms_of query) min_relevance) documents
  ↔ retrievable self query documents min_relevance c.
Proof.
  rewrite list_elem_of_In, in_flat_map. unfold relevant_chunks, retrievable.
  split.
  - intros (doc & Hdoc & Hc). apply in_flat_map in Hc as (chunk & Hchunk & Hc).
    exists doc, chunk. rewrite <- !list_elem_of_In in *.
    destruct (Qle_bool _ _) eqn:E; [|by apply elem_of_nil in Hc].
    apply list_elem_of_singleton in Hc. subst c.
    repeat split; try done. by apply Qle_bool_iff.
  - intros (doc & chunk & Hdoc & Hchunk & -> & Hrel).
    exists doc. rewrite <- list_elem_of_In. split; [done|].
    apply in_flat_map. exists chunk. rewrite <- !list_elem_of_In.
    split; [done|]. apply Qle_bool_iff in Hrel. rewrite Hrel.
    by apply list_elem_of_singleton.
Qed.

Lemma up_to_split {A : Type} (n : Z) (l : list A) :
  ∃ k, up_to n l = take k l.
Proof. unfold up_to. destruct (0 <=? n); eauto. Qed.

(** [DocumentRetriever.retrieve] returns chunks of the documents given,
    each with its score for the query, between [min_relevance] and 1, by
    non-increasing score and never more than [max_chunks] of them; the
    chunks it leaves out for want of room are the candidates that score no
    higher than any it returns. *)
Theorem DocumentRetriever_retrieve_sound (self : DocumentRetriever.t)
    (query : list N) (documents : list Document.t) (max_chunks : Z)
    (k : nat) (min_relevance : Q) :
  let found := retrieve self query documents max_chunks min_relevance in
  StronglySorted
    (λ a b, (DocChunk.relevance_score b <= DocChunk.relevance_score a)%Q) found
  ∧ Forall (λ c, retrievable self query documents min_relevance c
                 ∧ (DocChunk.relevance_score c <= 1)%Q) found
  ∧ (∃ rest,
       found ++ rest
       ≡ₚ flat_map (relevant_chunks self (query_terms_of query) min_relevance)
            documents
       ∧ ∀ c c', c ∈ found → c' ∈ rest →
           (DocChunk.relevance_score c' <= DocChunk.relevance_score c)%Q)
  ∧ (length (retrieve self query documents (Z.of_nat k) min_relevance) ≤ k)%nat.
Proof.
  intros found. unfold found, retrieve.
  set (all_chunks := flat_map _ documents).
  pose proof (sort_desc_sorted DocChunk.relevance_score all_chunks) as Hsorted.
  pose proof (sort_desc_perm DocChunk.relevance_score all_chunks) as Hperm.
  destruct (up_to_split max_chunks (sort_desc DocChunk.relevance_score all_chunks))
    as [n ->].
  set (sorted := sort_desc DocChunk.relevance_score all_chunks) in *.
  rewrite <- (take_drop n sorted) in Hsorted.
  apply StronglySorted_app in Hsorted as (Hcross & Htake & Hdrop).
  split; [exact Htake|]. split; [|split].
  - apply Forall_forall. intros c Hc.
    assert (Hin : c ∈ all_chunks).
    { rewrite <- Hperm. rewrite <- (take_drop n sorted).
      apply elem_of_app. by left. }
    apply relevant_chunks_spec in Hin. split; [done|].
    destruct Hin as (doc & chunk & _ & _ & -> & _). simpl.
    apply _score_chunk_relevance_bounds.
  - exists (drop n sorted). split; [by rewrite take_drop|].
    intros c c' Hc Hc'. by apply Hcross.
  - unfold up_to. replace (0 <=? Z.of_nat k) with true
      by (symmetry; apply Z.leb_le; lia).
    rewrite Nat2Z.id, length_take. lia.
Qed.

(** A query in which no word has more than three characters has no
    terms: every chunk scores 0, and nothing is retrieved under a positive
    [min_relevance]. *)
Theorem DocumentRetriever_retrieve_short_words (self : DocumentRetriever.t)
    (query : list N) (documents : list Document.t) (max_chunks : Z)
    (min_relevance : Q) :
  Forall (λ w, (length w ≤ 3)%nat) (Str.split (lower query)) →
  (0 < min_relevance)%Q →
  retrieve self query documents max_chunks min_relevance = [].
Proof.
  intros Hshort Hpos. unfold retrieve.
  assert (Hterms : query_terms_of query = []).
  { unfold query_terms_of.
    induction Hshort as [|w ws Hw _ IH]; [done|]. simpl.
    replace (3 <? length w)%nat with false
      by (symmetry; apply Nat.ltb_ge; lia).
    exact IH. }
  rewrite Hterms.
  assert (Hnone : flat_map (relevant_chunks self [] min_relevance) documents = []).
  { induction documents as [|doc documents IH]; [done|]. simpl. rewrite IH.
    rewrite app_nil_r. unfold relevant_chunks.
    induction (_chunk_document self doc) as [|chunk chunks IHc]; [done|].
    cbn [flat_map]. rewrite IHc.
    cbn [with_score DocChunk.relevance_score].
    rewrite _score_chunk_relevance_no_terms.
    replace (Qle_bool min_relevance 0) with false; [done|].
    symmetry. apply not_true_iff_false. intros H.
    apply Qle_bool_iff in H. exact (Qle_not_lt _ _ H Hpos). }
  rewrite Hnone. unfold up_to. cbn [sort_desc foldr].
  destruct (0 <=? max_chunks); apply take_nil.
Qed.

End DocumentRetrievalFacts.

Lemma DocumentRetriever_retrieve_short_words_witness :
  let U := ascii_tables in
  let report :=
    Document.mk (py "N_6F03AD") (py "Annual report") (py "pdf")
      (py "The tax was due in Q3 and was paid.") 35 None in
  DocumentRetriever.retrieve DocumentRetriever.default_ (py "Q3 tax due")
    [report] 5 (2 # 10) = [].
Proof.
  intros U report.
  apply (DocumentRetriever_retrieve_short_words (U := U)).
  - apply (bool_decide_unpack _). by vm_compute.
  - reflexivity.
Defined.

(** ** The matrix retriever: what is retrieved *)

Section MatrixRetrievalFacts.
Context {U : Unicode}.
Import MatrixRetriever.

Lemma doc_lookup_from_last (documents : list Document.t)
    (m : gmap (list N) Document.t) (k : list N) :
  foldl (λ m doc, <[Document.id doc := doc]> m) m documents !! k
  = match last (List.filter (λ d, Str.eqb (Document.id d) k) documents) with
    | Some d => Some d
    | None => m !! k
    end.
Proof.
  revert m. induction documents as [|doc documents IH]; intros m; [done|].
  cbn [foldl List.filter]. rewrite IH. unfold Str.eqb at 2.
  destruct (decide (Document.id doc = k)) as [E|E].
  - rewrite bool_decide_eq_true_2 by done. rewrite last_cons.
    destruct (last _); [done|]. by rewrite E, lookup_insert_eq.
  - rewrite bool_decide_eq_false_2 by done.
    destruct (last _); [done|]. by rewrite lookup_insert_ne.
Qed.

(** The lookup built from the documents answers with the last document
    of the list that has the id asked for. *)
Lemma doc_lookup_last (documents : list Document.t) (k : list N) :
  doc_lookup documents !! k
  = last (List.filter (λ d, Str.eqb (Document.id d) k) documents).
Proof.
  unfold doc_lookup. rewrite doc_lookup_from_last.
  destruct (last _); [done|]. apply lookup_empty.
Qed.

Lemma metric_matches_spec (documents : list Document.t)
    (cells : list (list N * CellData.t)) (metric : Metric.t) (relevance : Q)
    (m : CellMatch.t) :
  m ∈ metric_matches (doc_lookup documents) cells metric relevance
  ↔ ∃ cell_key cell doc,
      (cell_key, cell) ∈ cells
      ∧ matched_cell documents metric cell_key cell doc
      ∧ m = CellMatch.mk (Document.id doc) (Document.name doc) (Metric.id metric)
              (Metric.label metric) cell relevance.
Proof.
  unfold metric_matches, matched_cell.
  rewrite list_elem_of_In, in_flat_map. split.
  - intros ([cell_key cell] & Hin & Hm). rewrite <- list_elem_of_In in *.
    destruct (Str.contains _ cell_key) eqn:Ec; [|by apply elem_of_nil in Hm].
    destruct (has_value cell) eqn:Ev; [|by apply elem_of_nil in Hm].
    cbn [andb] in Hm.
    destruct (doc_lookup documents !! _) as [doc|] eqn:Ed;
      [|by apply elem_of_nil in Hm].
    apply list_elem_of_singleton in Hm. subst m.
    pose proof (doc_lookup_Some _ _ _ Ed) as [_ Hid].
    rewrite doc_lookup_last in Ed.
    exists cell_key, cell, doc. rewrite Hid. repeat split; try done.
    by apply list_elem_of_In.
  - intros (cell_key & cell & doc & Hin & (Hc & Hv & Hd) & ->).
    exists (cell_key, cell). rewrite <- !list_elem_of_In. split; [done|].
    rewrite Hc, Hv. cbn [andb]. rewrite doc_lookup_last, Hd.
    apply list_elem_of_singleton. f_equal.
    rewrite <- doc_lookup_last in Hd. by apply doc_lookup_Some in Hd as [_ ?].
Qed.

(** What [MatrixRetriever.retrieve] returns, exactly: a match for a
    metric that scores at least [min_relevance] and a cell whose key
    contains ["-"] followed by the id of the metric (anywhere in the key:
    the cell of metric [m10] is also reported for metric [m1]), whose
    value is neither empty nor the placeholder, and whose key up to the
    first such occurrence is the id of a document; the match carries the
    score of the metric and the name of the last document of the list
    with that id.  Nothing else is returned and no such match is left
    out. *)
Theorem MatrixRetriever_retrieve_exact (query : list N)
    (cells : list (list N * CellData.t)) (metrics : list Metric.t)
    (documents : list Document.t) (min_relevance : Q) (m : CellMatch.t) :
  m ∈ retrieve query cells metrics documents min_relevance
  ↔ ∃ metric cell_key cell doc,
      metric ∈ metrics ∧ (cell_key, cell) ∈ cells
      ∧ (min_relevance
         <= _score_metric_relevance (Metric.label metric) (_normalize_query query))%Q
      ∧ matched_cell documents metric cell_key cell doc
      ∧ m = CellMatch.mk (Document.id doc) (Document.name doc) (Metric.id metric)
              (Metric.label metric) cell
              (_score_metric_relevance (Metric.label metric)
                 (_normalize_query query)).
Proof.
  unfold retrieve. rewrite sort_desc_perm.
  rewrite list_elem_of_In, in_flat_map. split.
  - intros (metric & Hmetric & Hm). apply list_elem_of_In in Hmetric, Hm.
    destruct (Qle_bool _ _) eqn:E; [|by apply elem_of_nil in Hm].
    apply Qle_bool_iff in E.
    apply metric_matches_spec in Hm as (cell_key & cell & doc & ? & ? & ->).
    by exists metric, cell_key, cell, doc.
  - intros (metric & cell_key & cell & doc & Hmetric & Hin & E & Hc & ->).
    exists metric. rewrite <- !list_elem_of_In. split; [done|].
    apply Qle_bool_iff in E. rewrite E.
    apply metric_matches_spec. by exists cell_key, cell, doc.
Qed.

(** The relevance of a metric for a query lies between 0 and 1, whatever
    the number of terms that match. *)
Theorem _score_metric_relevance_bounds (metric_label : list N)
    (query_terms : list (list N)) :
  (0 <= _score_metric_relevance metric_label query_terms
   ∧ _score_metric_relevance metric_label query_terms <= 1)%Q.
Proof.
  unfold _score_metric_relevance. split; [|apply min__le_r].
  apply min__nonneg; [|done].
  apply foldl_nonneg; [|done]. intros q term Hq.
  apply foldl_nonneg.
  - intros q' mapping Hq'. destruct (_ && _); [|done]. by apply Qplus_nonneg.
  - destruct (Str.contains _ _); [|done]. by apply Qplus_nonneg.
Qed.

End MatrixRetrievalFacts.

(** ** The citation generator *)

Section CitationGeneratorFacts.
Import CitationGenerator.

Lemma cell_loop (acc : list Citation) (n : nat) (cell_matches : list CellMatch.t) :
  foldl (λ (st : list Citation * CitationGenerator.t) match_,
           let (c, self) := create_cell_citation st.2 match_ in
           (st.1 ++ [Cell c], self))
        (acc, CitationGenerator.mk n) cell_matches
  = (acc ++ imap (λ i m, Cell (create_cell_citation (CitationGenerator.mk (n + i)) m).1)
             cell_matches,
     CitationGenerator.mk (n + length cell_matches)).
Proof.
  revert acc n. induction cell_matches as [|m ms IH]; intros acc n.
  - simpl. by rewrite app_nil_r, Nat.add_0_r.
  - cbn [foldl create_cell_citation fst snd _citation_index imap length].
    rewrite IH. rewrite <- app_assoc. cbn [app]. rewrite Nat.add_0_r.
    f_equal; [|f_equal; lia]. do 2 f_equal.
    apply imap_ext. intros i x _. simpl. do 3 f_equal. lia.
Qed.

Lemma document_loop (acc : list Citation) (n : nat) (doc_chunks : list DocChunk.t) :
  foldl (λ (st : list Citation * CitationGenerator.t) chunk,
           let (c, self) := create_document_citation st.2 chunk in
           (st.1 ++ [Doc c], self))
        (acc, CitationGenerator.mk n) doc_chunks
  = (acc ++ imap (λ i c, Doc (create_document_citation
                                (CitationGenerator.mk (n + i)) c).1)
             doc_chunks,
     CitationGenerator.mk (n + length doc_chunks)).
Proof.
  revert acc n. induction doc_chunks as [|c cs IH]; intros acc n.
  - simpl. by rewrite app_nil_r, Nat.add_0_r.
  - cbn [foldl create_document_citation fst snd _citation_index imap length].
    rewrite IH. rewrite <- app_assoc. cbn [app]. rewrite Nat.add_0_r.
    f_equal; [|f_equal; lia]. do 2 f_equal.
    apply imap_ext. intros i x _. simpl. do 3 f_equal. lia.
Qed.

Lemma build_citations_from_matches_eq (self : CitationGenerator.t)
    (cell_matches : list CellMatch.t) (doc_chunks : list DocChunk.t) :
  build_citations_from_matches self cell_matches doc_chunks
  = (imap (λ i m, Cell (create_cell_citation (CitationGenerator.mk i) m).1)
          cell_matches
     ++ imap (λ j c, Doc (create_document_citation
                            (CitationGenerator.mk (length cell_matches + j)) c).1)
             doc_chunks,
     CitationGenerator.mk (length cell_matches + length doc_chunks)).
Proof.
  unfold build_citations_from_matches, reset.
  rewrite (cell_loop [] 0). cbn [app Nat.add].
  by rewrite document_loop.
Qed.

Lemma indices_from {A : Type} (f : nat → A → Citation) (n : nat) (l : list A) :
  (∀ i x, Citation_index (f i x) = S (n + i)) →
  Citation_index <$> imap f l = seq (S n) (length l).
Proof.
  revert f n. induction l as [|x l IH]; intros f n Hf; [done|].
  cbn [imap fmap list_fmap length seq]. rewrite Hf, Nat.add_0_r. f_equal.
  apply (IH (f ∘ S) (S n)). intros i y. simpl. rewrite Hf. lia.
Qed.

(** [build_citations_from_matches] numbers its citations 1, 2, ... with
    no gap, the cells first and then the chunks, each in the order given
    and with the fields of its match or chunk; it leaves the counter at
    the number of citations, and what it returns does not depend on the
    state of the generator before the call. *)
Theorem build_citations_from_matches_numbering (self : CitationGenerator.t)
    (cell_matches : list CellMatch.t) (doc_chunks : list DocChunk.t) :
  let built := build_citations_from_matches self cell_matches doc_chunks in
  Citation_index <$> built.1
  = seq 1 (length cell_matches + length doc_chunks)
  ∧ _citation_index built.2 = (length cell_matches + length doc_chunks)%nat
  ∧ (∀ i m, cell_matches !! i = Some m →
       built.1 !! i
       = Some (Cell (create_cell_citation (CitationGenerator.mk i) m).1))
  ∧ (∀ j c, doc_chunks !! j = Some c →
       built.1 !! (length cell_matches + j)%nat
       = Some (Doc (create_document_citation
                      (CitationGenerator.mk (length cell_matches + j)) c).1))
  ∧ built
    = build_citations_from_matches CitationGenerator.new cell_matches doc_chunks.
Proof.
  intros built. unfold built. rewrite !build_citations_from_matches_eq.
  cbn [fst snd _citation_index]. split; [|split; [done|split; [|split; [|done]]]].
  - rewrite fmap_app, (indices_from _ 0), (indices_from _ (length cell_matches)).
    + by rewrite seq_app.
    + intros i x. simpl. lia.
    + intros i x. simpl. lia.
  - intros i m Hm. rewrite lookup_app_l.
    + by rewrite list_lookup_imap, Hm.
    + rewrite length_imap. by eapply lookup_lt_Some.
  - intros j c Hc. rewrite lookup_app_r by (rewrite length_imap; lia).
    rewrite length_imap.
    replace (length cell_matches + j - length cell_matches)%nat with j by lia.
    by rewrite list_lookup_imap, Hc.
Qed.

End CitationGeneratorFacts.

(** ** The state store *)

Section PyDictFacts.
Context {V : Type}.

Lemma PyDict_get_set (k k' : list N) (v : V) (d : list (list N * V)) :
  PyDict.get k' (PyDict.set k v d)
  = if decide (k' = k) then Some v else PyDict.get k' d.
Proof.
  unfold PyDict.get. induction d as [|[k0 v0] d IH]; simpl.
  - unfold Str.eqb. destruct (decide (k' = k)) as [->|Hne].
    + by rewrite bool_decide_eq_true_2.
    + rewrite bool_decide_eq_false_2; [done|]. congruence.
  - unfold Str.eqb in *. destruct (decide (k0 = k)) as [->|Hne0].
    + rewrite bool_decide_eq_true_2 by done. simpl.
      destruct (decide (k' = k)) as [->|Hne].
      * by rewrite bool_decide_eq_true_2.
      * rewrite !bool_decide_eq_false_2 by congruence. done.
    + rewrite bool_decide_eq_false_2 by done. simpl.
      destruct (decide (k0 = k')) as [->|Hne1].
      * rewrite bool_decide_eq_true_2 by done.
        destruct (decide (k' = k)); [congruence|done].
      * rewrite bool_decide_eq_false_2 by done. exact IH.
Qed.

Lemma PyDict_get_del (k k' : list N) (d : list (list N * V)) :
  PyDict.get k' (PyDict.del k d)
  = if decide (k' = k) then None else PyDict.get k' d.
Proof.
  unfold PyDict.get, PyDict.del. induction d as [|[k0 v0] d IH]; simpl.
  - by destruct (decide (k' = k)).
  - unfold Str.eqb in *. destruct (decide (k0 = k)) as [->|Hne0].
    + rewrite bool_decide_eq_true_2 by done. simpl. rewrite IH.
      destruct (decide (k' = k)) as [->|Hne]; [done|].
      rewrite bool_decide_eq_false_2 by congruence. done.
    + rewrite bool_decide_eq_false_2 by done. simpl.
      destruct (decide (k0 = k')) as [->|Hne1].
      * rewrite bool_decide_eq_true_2 by done.
        destruct (decide (k' = k)); [congruence|done].
      * rewrite bool_decide_eq_false_2 by done. exact IH.
Qed.

Lemma PyDict_get_del_all (keys : list (list N)) (k' : list N)
    (d : list (list N * V)) :
  PyDict.get k' (foldl (λ d key, PyDict.del key d) d keys)
  = if decide (k' ∈ keys) then None else PyDict.get k' d.
Proof.
  revert d. induction keys as [|k keys IH]; intros d; simpl.
  - destruct (decide (k' ∈ [])) as [H|_]; [by apply elem_of_nil in H|done].
  - rewrite IH, PyDict_get_del.
    destruct (decide (k' ∈ keys)) as [Hin|Hnin].
    + rewrite decide_True; [done|by right].
    + destruct (decide (k' = k)) as [->|Hne].
      * rewrite decide_True; [done|by left].
      * rewrite decide_False; [done|].
        intros [?|?]%elem_of_cons; done.
Qed.

Lemma PyDict_get_None (k : list N) (d : list (list N * V)) :
  k ∉ d.*1 → PyDict.get k d = None.
Proof.
  unfold PyDict.get. induction d as [|[k0 v0] d IH]; intros Hk; [done|].
  simpl in *. apply not_elem_of_cons in Hk as [Hne Hk].
  unfold Str.eqb. rewrite bool_decide_eq_false_2 by congruence.
  by apply IH.
Qed.

Lemma PyDict_set_values (k : list N) (v : V) (d : list (list N * V)) :
  match PyDict.get k d with
  | None => (PyDict.set k v d).*2 = d.*2 ++ [v]
  | Some _ => length (PyDict.set k v d).*2 = length d.*2
  end.
Proof.
  unfold PyDict.get. induction d as [|[k0 v0] d IH]; [done|].
  simpl. unfold Str.eqb in *. destruct (bool_decide (k0 = k)); simpl.
  - done.
  - destruct (List.find _ d); simpl in *; f_equal; exact IH.
Qed.

End PyDictFacts.

Section StateStoreFacts.
Import StateStore.

(** A document added is the one found under its id, whatever was there
    before; the other ids are not affected.  A document with a new id goes
    to the end of the list of all documents, one with a known id takes the
    place of the former. *)
Theorem StateStore_add_document (self : StateStore.t) (doc : Document.t)
    (doc_id : list N) :
  get_document (add_document self doc) doc_id
  = (if decide (doc_id = Document.id doc) then Some doc
     else get_document self doc_id)
  ∧ match get_document self (Document.id doc) with
    | None =>
        get_all_documents (add_document self doc)
        = get_all_documents self ++ [doc]
    | Some _ =>
        length (get_all_documents (add_document self doc))
        = length (get_all_documents self)
    end
  ∧ get_all_cells (add_document self doc) = get_all_cells self.
Proof.
  unfold get_document, add_document, get_all_documents, get_all_cells. simpl.
  split; [apply PyDict_get_set|]. split; [|done].
  apply PyDict_set_values.
Qed.

Lemma startswith_prefix (p s : list N) : Str.startswith p (p ++ s) = true.
Proof. induction p as [|c p IH]; [done|]. simpl. by rewrite N.eqb_refl. Qed.

(** Removing a document that is not in the store changes nothing and
    answers [False].  Removing one that is answers [True], takes the
    document away and, with it, every cell whose key starts with the id
    and ["-"]: the cells of the document, and those of any document whose
    id starts in that way.  The other documents and cells, the metrics and
    the chat history stay. *)
Theorem StateStore_remove_document (self : StateStore.t) (doc_id : list N) :
  match get_document self doc_id with
  | None => remove_document self doc_id = (false, self)
  | Some _ =>
      let removed := remove_document self doc_id in
      removed.1 = true
      ∧ (∀ other,
           get_document removed.2 other
           = if decide (other = doc_id) then None else get_document self other)
      ∧ (∀ key,
           PyDict.get key (get_all_cells removed.2)
           = if Str.startswith (cell_prefix doc_id) key then None
             else PyDict.get key (get_all_cells self))
      ∧ (∀ metric_id, get_cell removed.2 doc_id metric_id = None)
      ∧ _metrics removed.2 = _metrics self
      ∧ _chat_history removed.2 = _chat_history self
  end.
Proof.
  unfold get_document, remove_document.
  destruct (PyDict.get doc_id (_documents self)) as [doc|] eqn:E; [|done].
  cbn [fst snd _documents _metrics _chat_history get_all_cells _cells].
  assert (Hcells : ∀ key,
    PyDict.get key
      (foldl (λ cells key, PyDict.del key cells) (_cells self)
         (List.filter (Str.startswith (cell_prefix doc_id)) (_cells self).*1))
    = if Str.startswith (cell_prefix doc_id) key then None
      else PyDict.get key (_cells self)).
  { intros key. rewrite PyDict_get_del_all.
    destruct (Str.startswith (cell_prefix doc_id) key) eqn:Ep.
    - destruct (decide _) as [_|Hnin]; [done|].
      apply PyDict_get_None. intros Hin. apply Hnin.
      apply list_elem_of_In, filter_In. split; [by apply list_elem_of_In|done].
    - rewrite decide_False; [done|].
      intros Hin%list_elem_of_In%filter_In. destruct Hin as [_ H]. congruence. }
  split; [done|]. split; [intros other; apply PyDict_get_del|].
  split; [exact Hcells|]. split; [|done].
  intros metric_id. unfold get_cell. cbn zeta. cbn [_cells].
  rewrite Hcells. unfold cell_key, cell_prefix.
  by rewrite app_assoc, startswith_prefix.
Qed.

(** A cell is found under the text [doc_id-metric_id], so that it is
    found again with any two ids that make the same text: the cell set
    for document [a-b] and metric [c] is the cell of document [a] and
    metric [b-c]. *)
Theorem StateStore_set_cell (self : StateStore.t) (doc_id metric_id : list N)
    (cell : CellData.t) (doc_id' metric_id' a b c : list N) :
  get_cell (set_cell self doc_id metric_id cell) doc_id' metric_id'
  = (if decide (cell_key doc_id' metric_id' = cell_key doc_id metric_id)
     then Some cell else get_cell self doc_id' metric_id')
  ∧ get_cell (set_cell self (a ++ py "-" ++ b) c cell) a (b ++ py "-" ++ c)
    = Some cell
  ∧ get_all_documents (set_cell self doc_id metric_id cell)
    = get_all_documents self.
Proof.
  unfold get_cell, set_cell. cbn [_cells]. split; [apply PyDict_get_set|].
  split; [|done]. rewrite PyDict_get_set, decide_True; [done|].
  unfold cell_key. by rewrite <- !app_assoc.
Qed.

Lemma slice_from_neg_pos {A : Type} (p : positive) (l : list A) :
  slice_from (- Z.pos p) l = drop (length l - Pos.to_nat p) l.
Proof. unfold slice_from. simpl. done. Qed.

(** The history of a session.  A message added is the last of the history
    of its session and leaves the other sessions alone.  A positive
    [limit] gives the last [limit] messages, a [limit] of 0 gives the
    whole history and not an empty one, a negative [limit] drops that many
    messages from the start.  The last 6 of the last 10 messages, as the
    chat endpoint takes them, are the last 6.  Clearing empties the
    history of the session and of no other. *)
Theorem StateStore_chat_history (self : StateStore.t) (session_id other : list N)
    (message : ChatMessage.t) (limit : Z) (p : positive) :
  let history := get_chat_history self session_id 0 in
  history = default [] (_chat_history self !! session_id)
  ∧ get_chat_history self session_id (Z.pos p)
    = drop (length history - Pos.to_nat p) history
  ∧ get_chat_history self session_id (Z.neg p) = drop (Pos.to_nat p) history
  ∧ get_chat_history (add_chat_message self session_id message) other limit
    = (if decide (other = session_id)
       then slice_from (- limit) (history ++ [message])
       else get_chat_history self other limit)
  ∧ last (get_chat_history (add_chat_message self session_id message)
            session_id (Z.pos p)) = Some message
  ∧ slice_from (- 6) (get_chat_history self session_id 10)
    = get_chat_history self session_id 6
  ∧ get_chat_history (clear_chat_history self session_id) other limit
    = (if decide (other = session_id) then []
       else get_chat_history self other limit).
Proof.
  intros history. unfold history, get_chat_history.
  set (h := default [] (_chat_history self !! session_id)).
  assert (H0 : slice_from (- 0) h = h) by done. rewrite H0.
  split; [done|]. split; [apply slice_from_neg_pos|].
  split; [unfold slice_from; simpl; by rewrite Pos2Nat.id || done|].
  split; [|split; [|split]].
  - unfold add_chat_message. cbn [_chat_history]. fold h.
    destruct (decide (other = session_id)) as [->|Hne].
    + by rewrite lookup_insert_eq.
    + by rewrite lookup_insert_ne.
  - unfold add_chat_message. cbn [_chat_history]. fold h.
    rewrite lookup_insert_eq. cbn [default]. rewrite slice_from_neg_pos.
    unfold id. rewrite length_app. cbn [length].
    rewrite drop_app_le by lia.
    by rewrite last_snoc.
  - change (- 6) with (- Z.pos 6). change (- 10) with (- Z.pos 10).
    rewrite !slice_from_neg_pos, drop_drop, length_drop. f_equal. lia.
  - unfold clear_chat_history.
    destruct (_chat_history self !! session_id) as [msgs|] eqn:E.
    + cbn [_chat_history]. destruct (decide (other = session_id)) as [->|Hne].
      * rewrite lookup_insert_eq. unfold slice_from. simpl.
        destruct (0 <=? - limit); first [apply drop_nil | done].
      * by rewrite lookup_insert_ne.
    + destruct (decide (other = session_id)) as [->|Hne]; [|done].
      rewrite E. unfold slice_from. simpl.
      destruct (0 <=? - limit); first [apply drop_nil | done].
Qed.

End StateStoreFacts.

(** ** The cache of chart specs *)

Section CacheFacts.
Context {C : Collaborators}.

Lemma Qlt_bool_iff (a b : Q) : Qlt_bool a b = true ↔ (a < b)%Q.
Proof.
  unfold Qlt_bool. rewrite negb_true_iff. split.
  - intros H. apply Qnot_le_lt. intros Hle.
    apply Qle_bool_iff in Hle. congruence.
  - intros H. apply not_true_iff_false. intros Hle.
    apply Qle_bool_iff in Hle. by apply Qle_not_lt in Hle.
Qed.

Lemma Qlt_bool_false (a b : Q) : Qlt_bool a b = false ↔ (b <= a)%Q.
Proof.
  unfold Qlt_bool. rewrite negb_false_iff. apply Qle_bool_iff.
Qed.

Lemma ChartSpecCache_get_ttl (self : ChartSpecCache.t) (now : Q)
    (metric_label : list N) (values : list Q) :
  ChartSpecCache._ttl (ChartSpecCache.get self now metric_label values).2
  = ChartSpecCache._ttl self.
Proof.
  unfold ChartSpecCache.get.
  destruct (ChartSpecCache._cache self !! _) as [[spec timestamp]|]; [|done].
  by destruct (Qlt_bool _ _).
Qed.

Lemma ChartSpecCache_get_fresh (self : ChartSpecCache.t) (t0 now : Q)
    (metric_label : list N) (values : list Q) (spec : gmap (list N) pyval) :
  (now - t0 < ChartSpecCache._ttl self)%Q →
  ChartSpecCache.get (ChartSpecCache.set self t0 metric_label values spec)
    now metric_label values
  = (Some spec, ChartSpecCache.set self t0 metric_label values spec).
Proof.
  intros Hfresh. unfold ChartSpecCache.get, ChartSpecCache.set.
  cbn [ChartSpecCache._cache ChartSpecCache._ttl].
  rewrite lookup_insert_eq. apply Qlt_bool_iff in Hfresh. by rewrite Hfresh.
Qed.

(** What is stored in the cache is found again, under the same label and
    values, as long as less than the time to live has passed since it was
    stored, and the lookup leaves the cache as it is.  Once that time has
    passed, the lookup finds nothing and removes the entry, for good.
    A lookup never answers with an entry as old as the time to live, and
    nothing is found in a cache that was cleared. *)
Theorem ChartSpecCache_round_trip (self : ChartSpecCache.t) (t0 now later : Q)
    (metric_label : list N) (values : list Q) (spec : gmap (list N) pyval) :
  let key := ChartSpecCache._make_key metric_label values in
  let stored := ChartSpecCache.set self t0 metric_label values spec in
  match ChartSpecCache.get stored now metric_label values with
  | (Some found, cache) =>
      found = spec ∧ cache = stored ∧ (now - t0 < ChartSpecCache._ttl self)%Q
  | (None, cache) =>
      (ChartSpecCache._ttl self <= now - t0)%Q
      ∧ ChartSpecCache._cache cache !! key = None
      ∧ ChartSpecCache.get cache later metric_label values = (None, cache)
  end
  ∧ match ChartSpecCache.get self now metric_label values with
    | (Some found, cache) =>
        cache = self
        ∧ ∃ timestamp,
            ChartSpecCache._cache self !! key = Some (found, timestamp)
            ∧ (now - timestamp < ChartSpecCache._ttl self)%Q
    | (None, cache) => ChartSpecCache._cache cache !! key = None
    end
  ∧ ChartSpecCache.get (ChartSpecCache.clear self) now metric_label values
    = (None, ChartSpecCache.clear self).
Proof.
  intros key stored. split; [|split].
  - unfold ChartSpecCache.get, stored, ChartSpecCache.set.
    cbn [ChartSpecCache._cache ChartSpecCache._ttl]. fold key.
    rewrite lookup_insert_eq.
    destruct (Qlt_bool (now - t0) (ChartSpecCache._ttl self)) eqn:E.
    + apply Qlt_bool_iff in E. done.
    + apply Qlt_bool_false in E.
      cbn [ChartSpecCache._cache]. rewrite lookup_delete_eq. done.
  - unfold ChartSpecCache.get. fold key.
    destruct (ChartSpecCache._cache self !! key) as [[found timestamp]|] eqn:E;
      [|done].
    destruct (Qlt_bool (now - timestamp) (ChartSpecCache._ttl self)) eqn:Et.
    + apply Qlt_bool_iff in Et. split; [done|]. by exists timestamp.
    + cbn [ChartSpecCache._cache]. by rewrite lookup_delete_eq.
  - unfold ChartSpecCache.get, ChartSpecCache.clear.
    cbn [ChartSpecCache._cache]. by rewrite lookup_empty.
Qed.

End CacheFacts.

(** ** The chart orchestrator and its cache *)

Section OrchestratorFacts.
Context {C : Collaborators} {L : ChartLLM}.
Import VisualizationService.

(** When the cache holds no fresh spec for a column,
    [generate_chart_spec_llm] asks the model once.  The answer of the
    model is returned exactly when it validates: pydantic accepts its
    fields and [validate_render_fields] accepts the spec.  It is then
    stored in the cache at the time of the store, and asking again for the
    same label and values before the time to live has passed returns it
    without a call to the model, and leaves the service as it is.  When
    the model fails, or its answer does not validate, nothing is returned
    and the cache is as the lookup left it: the next request asks the
    model again. *)
Theorem generate_chart_spec_llm_caches (self : VisualizationService.t)
    (t_get t_set : Q) (metric_label : list N) (values : list Q)
    (unit_type : option (list N)) (related_columns : list pyval) :
  (ChartSpecCache.get (_cache self) t_get metric_label values).1 = None →
  let looked_up :=
    (ChartSpecCache.get (_cache self) t_get metric_label values).2 in
  let first :=
    generate_chart_spec_llm self t_get t_set metric_label values unit_type
      related_columns in
  let answer :=
    raw_response ← chart_provider metric_label unit_type values related_columns;
    validated_spec ← pydantic_fields raw_response
                       ≫= LLMChartSpec.validate_render_fields;
    Some raw_response in
  first.1 = answer
  ∧ llm_calls first.2 = S (llm_calls self)
  ∧ _use_llm first.2 = _use_llm self
  ∧ match answer with
    | Some spec =>
        _cache first.2
        = ChartSpecCache.set looked_up t_set metric_label values spec
        ∧ ∀ (t_get' t_set' : Q) (unit_type' : option (list N))
            (related_columns' : list pyval),
            (t_get' - t_set < ChartSpecCache._ttl (_cache self))%Q →
            generate_chart_spec_llm first.2 t_get' t_set' metric_label values
              unit_type' related_columns'
            = (Some spec, first.2)
    | None => _cache first.2 = looked_up
    end.
Proof.
  intros Hmiss looked_up first answer.
  unfold first, answer, looked_up, generate_chart_spec_llm.
  pose proof (ChartSpecCache_get_ttl (_cache self) t_get metric_label values)
    as Httl.
  destruct (ChartSpecCache.get (_cache self) t_get metric_label values)
    as [cached cache]. cbn [fst snd] in *. subst cached.
  cbn [_cache _use_llm llm_calls].
  destruct (chart_provider metric_label unit_type values related_columns)
    as [raw_response|]; [|done].
  change (Some raw_response ≫= ?f) with (f raw_response). cbv beta.
  destruct (pydantic_fields raw_response ≫= LLMChartSpec.validate_render_fields)
    as [validated_spec|];
    cbn [fst snd _cache _use_llm llm_calls mbind option_bind];
    [|repeat split; done].
  split; [done|]. split; [done|]. split; [done|]. split; [done|].
  intros t_get' t_set' unit_type' related_columns' Hfresh.
  rewrite ChartSpecCache_get_fresh by (by rewrite Httl). done.
Qed.

End OrchestratorFacts.

Lemma generate_chart_spec_llm_caches_witness :
  let C := Sample.collaborators in
  let first (L : ChartLLM) :=
    VisualizationService.generate_chart_spec_llm Sample.service 10 11
      (py "Revenue") [10; 20]%Q (Some (py "numeric")) [] in
  (first Sample.says_no).1 = Some Sample.no_chart
  ∧ VisualizationService.llm_calls (first Sample.says_no).2 = 1%nat
  ∧ VisualizationService.generate_chart_spec_llm (L := Sample.says_no)
      (first Sample.says_no).2 300 301
      (py "Revenue") [10; 20]%Q (Some (py "numeric")) []
    = (Some Sample.no_chart, (first Sample.says_no).2)
  ∧ (first Sample.says_chart).1 = None
  ∧ VisualizationService._cache (first Sample.says_chart).2
    = VisualizationService._cache Sample.service.
Proof.
  intros C first.
  destruct (generate_chart_spec_llm_caches (C := C) (L := Sample.says_no)
              Sample.service 10 11 (py "Revenue") [10; 20]%Q
              (Some (py "numeric")) [])
    as (Hfirst & Hcalls & _ & Hcache); [reflexivity|].
  destruct (generate_chart_spec_llm_caches (C := C) (L := Sample.says_chart)
              Sample.service 10 11 (py "Revenue") [10; 20]%Q
              (Some (py "numeric")) [])
    as (Hfirst' & _ & _ & Hcache'); [reflexivity|].
  cbv zeta in Hfirst, Hcache, Hfirst', Hcache'.
  change (chart_provider (py "Revenue") (Some (py "numeric")) [10; 20]%Q [])
    with (Some Sample.no_chart) in Hfirst, Hcache.
  change (@chart_provider Sample.says_chart (py "Revenue")
            (Some (py "numeric")) [10; 20]%Q [])
    with (Some Sample.bare_chart) in Hfirst', Hcache'.
  cbn in Hfirst, Hcache, Hfirst', Hcache'.
  destruct Hcache as [_ Hagain].
  split; [exact Hfirst|]. split; [exact Hcalls|].
  split; [apply Hagain; reflexivity|].
  split; [exact Hfirst'|exact Hcache'].
Defined.

(** ** What an analysis of a column looks like *)

Section AnalysisFacts.
Context {U : Unicode} {C : Collaborators}.
Import VisualizationService.

Lemma min__ge (x a b : Q) : (x <= a)%Q → (x <= b)%Q → (x <= min_ a b)%Q.
Proof. intros Ha Hb. unfold min_. by destruct (Qle_bool a b). Qed.

Lemma score_ge (base step : Q) (n : nat) :
  (4 # 10 <= base)%Q → (0 <= step)%Q →
  (4 # 10 <= base + inject_Z (Z.of_nat n) * step)%Q.
Proof.
  intros Hbase Hstep. apply (Qle_trans _ ((4 # 10) + 0)); [done|].
  apply Qplus_le_compat; [done|].
  apply Qmult_le_0_compat; [|done]. unfold Qle. simpl. lia.
Qed.

Lemma resolve_intent_range (metric_label : list N) (values : list Q)
    (unit_type : option (list N)) (all_metrics : list (gmap (list N) pyval))
    (all_values_by_metric : list (list N * list Q)) :
  let resolved :=
    resolve_intent metric_label values unit_type all_metrics
      all_values_by_metric in
  resolved.1 ∈ AnalyticalIntent.names
  ∧ (4 # 10 <= resolved.2)%Q ∧ (resolved.2 <= 95 # 100)%Q.
Proof.
  unfold resolve_intent.
  assert (Hin : ∀ name, bool_decide (name ∈ AnalyticalIntent.names) = true →
                        name ∈ AnalyticalIntent.names)
    by (intros name; apply bool_decide_eq_true_1).
  destruct (0 <? keyword_score TIME_KEYWORDS _)%nat.
  { cbn [fst snd]. split; [by apply Hin|]. split.
    - apply min__ge; [|done]. by apply score_ge.
    - apply min__le_r. }
  destruct (_ && _).
  { cbn [fst snd]. split; [by apply Hin|]. split.
    - apply min__ge; [|done]. by apply score_ge.
    - apply (Qle_trans _ (9 # 10)); [apply min__le_r|done]. }
  destruct (0 <? keyword_score COMPARISON_KEYWORDS _)%nat.
  { cbn [fst snd]. split; [by apply Hin|]. split.
    - apply min__ge; [|done]. by apply score_ge.
    - apply (Qle_trans _ (9 # 10)); [apply min__le_r|done]. }
  destruct (existsb _ _); [cbn [fst snd]; split; [by apply Hin|done]|].
  destruct (List.filter _ all_values_by_metric);
    [|cbn [fst snd]; split; [by apply Hin|done]].
  destruct (5 <=? length values)%nat; cbn [fst snd]; (split; [by apply Hin|done]).
Qed.

Lemma select_chart_type_names (intent : list N) (values : list Q)
    (unit_type : option (list N)) :
  select_chart_type intent values unit_type ∈ Some <$> ChartType.names.
Proof.
  assert (Hin : ∀ name : option (list N),
            bool_decide (name ∈ Some <$> ChartType.names) = true →
            name ∈ Some <$> ChartType.names)
    by (intros name; apply bool_decide_eq_true_1).
  unfold select_chart_type.
  repeat match goal with
         | |- context [if ?b then _ else _] => destruct b
         end; by apply Hin.
Qed.

Lemma reveals_new_information_threshold (intent : list N) (values : list Q)
    (cardinality : nat) :
  (reveals_new_information intent values cardinality).1
  = (2 <=? cardinality)%nat.
Proof.
  unfold reveals_new_information.
  destruct (cardinality <? 2)%nat eqn:E.
  - apply Nat.ltb_lt in E. symmetry. apply Nat.leb_gt. done.
  - apply Nat.ltb_ge in E.
    replace (2 <=? cardinality)%nat with true
      by (symmetry; by apply Nat.leb_le).
    repeat match goal with
           | |- context [if ?b then _ else _] => destruct b
           end; done.
Qed.

Lemma table_get_elem (table : list (list N * list N)) (key : pyval)
    (default_ : list N) :
  table_get table key default_ ∈ default_ :: table.*2.
Proof.
  unfold table_get. destruct key as [| |z|s]; try by left.
  destruct (List.find _ table) as [kv|] eqn:E; [|by left].
  right. apply find_some in E as [Hin _].
  apply list_elem_of_In in Hin. by apply (list_elem_of_fmap_2 snd).
Qed.

Lemma analyze_column_rule_based (metric_id metric_label : list N)
    (cells : list (list N * CellData.t))
    (all_metrics : list (gmap (list N) pyval))
    (all_values_by_metric : list (list N * list Q)) :
  analyze_column metric_id metric_label cells all_metrics all_values_by_metric
  = rule_based_result metric_id metric_label cells all_metrics
      all_values_by_metric.
Proof. unfold analyze_column, rule_based_result. by rewrite length_fmap. Qed.

(** What holds of the result of the rules. *)
Lemma rule_based_shape (metric_id metric_label : list N)
    (cells : list (list N * CellData.t))
    (all_metrics : list (gmap (list N) pyval))
    (all_values_by_metric : list (list N * list Q)) :
  let r :=
    rule_based_result metric_id metric_label cells all_metrics
      all_values_by_metric in
  ColumnAnalysis.intent r ∈ Some <$> AnalyticalIntent.names
  ∧ ColumnAnalysis.chart_type r ∈ Some <$> ChartType.names
  ∧ (4 # 10 <= ColumnAnalysis.intent_confidence r)%Q
  ∧ (ColumnAnalysis.intent_confidence r <= 95 # 100)%Q
  ∧ ColumnAnalysis.cardinality r = length (ColumnAnalysis.values r)
  ∧ length (ColumnAnalysis.value_doc_indices r) = ColumnAnalysis.cardinality r
  ∧ ColumnAnalysis.visualizable r = (2 <=? ColumnAnalysis.cardinality r)%nat
  ∧ ColumnAnalysis.reveals_info r = ColumnAnalysis.visualizable r
  ∧ ColumnAnalysis.data_type r = ColumnAnalysis.unit_type r.
Proof.
  intros r.
  assert (Hvis : ColumnAnalysis.visualizable r
                 = (2 <=? ColumnAnalysis.cardinality r)%nat).
  { unfold r. rewrite rule_based_visualizable, column_values_length.
    unfold rule_based_result, _fallback_analyze_column.
    destruct (resolve_intent _ _ _ _ _) as [intent conf].
    by destruct (reveals_new_information _ _ _) as [reveals reason]. }
  revert Hvis. unfold r, rule_based_result, _fallback_analyze_column.
  set (parsed := parsed_cells (metric_cells metric_id cells)).
  pose proof (resolve_intent_range metric_label
                ((λ p : nat * (Q * list N), p.2.1) <$> parsed)
                (most_common ((λ p : nat * (Q * list N), p.2.2) <$> parsed))
                all_metrics all_values_by_metric) as (Hname & Hlo & Hhi).
  destruct (resolve_intent _ _ _ _ _) as [intent conf]. cbn [fst snd] in *.
  pose proof (reveals_new_information_threshold intent
                ((λ p : nat * (Q * list N), p.2.1) <$> parsed) (length parsed))
    as Hreveals.
  destruct (reveals_new_information _ _ _) as [reveals reason].
  cbn [fst snd] in *.
  cbn [ColumnAnalysis.intent ColumnAnalysis.chart_type
       ColumnAnalysis.intent_confidence ColumnAnalysis.cardinality
       ColumnAnalysis.values ColumnAnalysis.value_doc_indices
       ColumnAnalysis.visualizable ColumnAnalysis.reveals_info
       ColumnAnalysis.data_type ColumnAnalysis.unit_type].
  intros Hvis. rewrite !length_fmap.
  split; [by apply list_elem_of_fmap_2|].
  split; [apply select_chart_type_names|].
  repeat split; try done. by rewrite Hvis.
Qed.

(** [analyze_column] always names one of the six intents and one of the
    chart types, with a confidence between 0.4 and 0.95; its cardinality
    is the number of its values and of their indices; it is visualizable
    exactly when it has two values or more, and then it reveals
    information; and it is never marked as decided by the model. *)
Theorem analyze_column_shape (metric_id metric_label : list N)
    (cells : list (list N * CellData.t))
    (all_metrics : list (gmap (list N) pyval))
    (all_values_by_metric : list (list N * list Q)) :
  let r :=
    analyze_column metric_id metric_label cells all_metrics
      all_values_by_metric in
  ColumnAnalysis.llm_powered r = false
  ∧ ColumnAnalysis.intent r ∈ Some <$> AnalyticalIntent.names
  ∧ ColumnAnalysis.chart_type r ∈ Some <$> ChartType.names
  ∧ (4 # 10 <= ColumnAnalysis.intent_confidence r)%Q
  ∧ (ColumnAnalysis.intent_confidence r <= 95 # 100)%Q
  ∧ ColumnAnalysis.cardinality r = length (ColumnAnalysis.values r)
  ∧ length (ColumnAnalysis.value_doc_indices r) = ColumnAnalysis.cardinality r
  ∧ ColumnAnalysis.visualizable r = (2 <=? ColumnAnalysis.cardinality r)%nat
  ∧ ColumnAnalysis.reveals_info r = ColumnAnalysis.visualizable r
  ∧ ColumnAnalysis.data_type r = ColumnAnalysis.unit_type r.
Proof.
  intros r. unfold r. rewrite analyze_column_rule_based.
  split; [apply rule_based_not_llm_powered|]. apply rule_based_shape.
Qed.

(** Whatever the model answers, [analyze_column_async] returns either
    what [analyze_column] returns, or a result marked as decided by the
    model; the latter only when the model is enabled, and it is then
    visualizable with confidence 0.95.  With the model disabled the result
    is that of [analyze_column] and the service is left as it is.  In every
    case the result names an intent and a chart type that the frontend
    knows, and it is visualizable exactly when it has two values or more:
    the answer of [_llm_spec_to_response] without chart never comes
    out. *)
Theorem analyze_column_async_shape {L : ChartLLM}
    (self : VisualizationService.t) (t_get t_set : Q)
    (metric_id metric_label : list N) (cells : list (list N * CellData.t))
    (all_metrics : list (gmap (list N) pyval))
    (all_values_by_metric : list (list N * list Q)) :
  let run :=
    analyze_column_async self t_get t_set metric_id metric_label cells
      all_metrics all_values_by_metric in
  let rules :=
    analyze_column metric_id metric_label cells all_metrics
      all_values_by_metric in
  (if ColumnAnalysis.llm_powered run.1
   then _use_llm self = true
        ∧ ColumnAnalysis.intent_confidence run.1 = (95 # 100)%Q
   else run.1 = rules)
  ∧ (if _use_llm self then True else run = (rules, self))
  ∧ ColumnAnalysis.intent run.1 ∈ Some <$> AnalyticalIntent.names
  ∧ ColumnAnalysis.chart_type run.1 ∈ Some <$> ChartType.names
  ∧ ColumnAnalysis.cardinality run.1 = length (ColumnAnalysis.values run.1)
  ∧ ColumnAnalysis.visualizable run.1
    = (2 <=? ColumnAnalysis.cardinality run.1)%nat
  ∧ ColumnAnalysis.reveals_info run.1 = ColumnAnalysis.visualizable run.1.
Proof.
  intros run rules. unfold run, rules.
  rewrite analyze_column_async_unfold, analyze_column_rule_based.
  set (fallback := rule_based_result metric_id metric_label cells all_metrics
                     all_values_by_metric).
  pose proof (rule_based_shape metric_id metric_label cells all_metrics
                all_values_by_metric)
    as (Hi & Hc & _ & _ & Hcard & _ & Hvis & Hrev & _).
  fold fallback in Hi, Hc, Hcard, Hvis, Hrev.
  pose proof (rule_based_not_llm_powered metric_id metric_label cells
                all_metrics all_values_by_metric) as Hllm.
  fold fallback in Hllm.
  destruct (_ || _) eqn:Eguard.
  { cbn [fst]. rewrite Hllm. repeat split; try done.
    by destruct (_use_llm self). }
  apply orb_false_elim in Eguard as [Hlen Hunit].
  apply Nat.ltb_ge in Hlen. apply bool_decide_eq_false in Hunit.
  destruct (_use_llm self) eqn:Euse.
  2:{ cbn [fst]. rewrite Hllm. repeat split; done. }
  destruct (generate_chart_spec_llm _ _ _ _ _ _ _) as [[llm_spec|] self'].
  2:{ cbn [fst]. rewrite Hllm. repeat split; done. }
  destruct (Py.truthy (Py.get llm_spec "should_render" (PBool false))) eqn:Et.
  2:{ cbn [fst]. rewrite Hllm. repeat split; done. }
  cbn [fst]. unfold _llm_spec_to_response. rewrite Et. cbn [negb].
  cbn [ColumnAnalysis.llm_powered ColumnAnalysis.intent
       ColumnAnalysis.chart_type ColumnAnalysis.intent_confidence
       ColumnAnalysis.cardinality ColumnAnalysis.values
       ColumnAnalysis.visualizable ColumnAnalysis.reveals_info].
  rewrite length_fmap.
  replace (2 <=? length (column_values metric_id cells))%nat with true
    by (symmetry; by apply Nat.leb_le).
  rewrite bool_decide_eq_true_2 by done.
  repeat split; try done.
  - apply list_elem_of_fmap_2.
    pose proof (table_get_elem LLM_TO_FRONTEND_INTENT
                  (Py.get llm_spec "intent" (PStr (py "DISTRIBUTION")))
                  (py "distribution")) as Hin.
    assert (Hsub : Forall (λ name, name ∈ AnalyticalIntent.names)
                     (py "distribution" :: LLM_TO_FRONTEND_INTENT.*2))
      by (apply (bool_decide_unpack _); by vm_compute).
    rewrite Forall_forall in Hsub. by apply Hsub.
  - apply list_elem_of_fmap_2.
    pose proof (table_get_elem LLM_TO_FRONTEND_CHART_TYPE
                  (Py.get llm_spec "chart_type" (PStr (py "HISTOGRAM")))
                  (py "histogram")) as Hin.
    assert (Hsub : Forall (λ name, name ∈ ChartType.names)
                     (py "histogram" :: LLM_TO_FRONTEND_CHART_TYPE.*2))
      by (apply (bool_decide_unpack _); by vm_compute).
    rewrite Forall_forall in Hsub. by apply Hsub.
Qed.

End AnalysisFacts.

(** ** White space around a cell value *)

Section StripFacts.
Context {U : Unicode}.

Lemma lstrip_idem (s : list N) : Str.lstrip (Str.lstrip s) = Str.lstrip s.
Proof.
  induction s as [|c s IH]; [done|]. cbn [Str.lstrip].
  destruct (isspace c) eqn:E; [done|]. cbn [Str.lstrip]. by rewrite E.
Qed.

Lemma lstrip_head (s : list N) :
  match Str.lstrip s with c :: _ => isspace c = false | [] => True end.
Proof.
  induction s as [|c s IH]; [done|]. cbn [Str.lstrip].
  by destruct (isspace c) eqn:E.
Qed.

Lemma lstrip_snoc (a : list N) (c : N) :
  isspace c = false → Str.lstrip (a ++ [c]) = Str.lstrip a ++ [c].
Proof.
  intros Hc. induction a as [|x a IH]; cbn [app Str.lstrip].
  - by rewrite Hc.
  - by destruct (isspace x).
Qed.

Lemma rstrip_cons (c : N) (t : list N) :
  isspace c = false → Str.rstrip (c :: t) = c :: Str.rstrip t.
Proof.
  intros Hc. unfold Str.rstrip.
  by rewrite reverse_cons, lstrip_snoc, reverse_app.
Qed.

Lemma strip_idem (s : list N) : Str.strip (Str.strip s) = Str.strip s.
Proof.
  unfold Str.strip. pose proof (lstrip_head s) as Hhead.
  destruct (Str.lstrip s) as [|c t]; [done|].
  rewrite rstrip_cons by done. cbn [Str.lstrip]. rewrite Hhead.
  rewrite <- rstrip_cons by done.
  unfold Str.rstrip. by rewrite reverse_involutive, lstrip_idem.
Qed.

End StripFacts.

(** White space before and after a value does not change what
    [parse_numeric_value] reads in it (with the tables of ASCII): the value
    is parsed as it is without that white space. *)
Theorem parse_numeric_value_strip (value_str : list N) :
  @VisualizationService.parse_numeric_value ascii_tables value_str
  = @VisualizationService.parse_numeric_value ascii_tables
      (@Str.strip ascii_tables value_str).
Proof.
  unfold VisualizationService.parse_numeric_value. cbv zeta.
  rewrite (strip_idem (U := ascii_tables)).
  unfold Str.eqb at 1 2 3.
  destruct (decide (value_str = [])) as [->|H1]; [done|].
  destruct (decide (value_str = em_dash)) as [->|H2]; [done|].
  destruct (decide (value_str = py "Fault")) as [->|H3]; [done|].
  rewrite !bool_decide_eq_false_2 by done. cbn [orb].
  unfold Str.eqb.
  destruct (decide (@Str.strip ascii_tables value_str = [])) as [E|E1].
  { rewrite E. by vm_compute. }
  destruct (decide (@Str.strip ascii_tables value_str = em_dash)) as [E|E2].
  { rewrite E. by vm_compute. }
  destruct (decide (@Str.strip ascii_tables value_str = py "Fault")) as [E|E3].
  { rewrite E. by vm_compute. }
  by rewrite !bool_decide_eq_false_2 by done.
Qed.

(** ** The cleanup only deletes *)

Section RewriteSublist.
Import Reader.

(** A rewriting whose readers answer with part of what they read gives
    part of the text. *)
Lemma rewrite_from_sublist (reader : list N → option (list N * nat))
    (skip : nat) (s : list N) :
  (∀ t out n, reader t = Some (out, n) → out `sublist_of` take n t) →
  rewrite_from reader skip s `sublist_of` drop skip s.
Proof.
  intros Hreader. revert skip.
  induction s as [|c s IH]; intros skip.
  - destruct skip; cbn [rewrite_from]; [|done].
    destruct (reader []) as [[out len]|] eqn:E; [|done].
    apply Hreader in E. rewrite take_nil in E. by rewrite app_nil_r.
  - destruct skip as [|n]; cbn [rewrite_from drop]; [|apply IH].
    destruct (reader (c :: s)) as [[out len]|] eqn:E.
    + apply Hreader in E. destruct len as [|n].
      * apply sublist_nil_r in E. subst out. cbn [app].
        apply sublist_skip. apply (IH 0%nat).
      * rewrite <- (take_drop (S n) (c :: s)).
        apply sublist_app; [done|]. apply (IH n).
    + apply sublist_skip. apply (IH 0%nat).
Qed.

Lemma rewrite_sublist (reader : list N → option (list N * nat)) (s : list N) :
  (∀ t out n, reader t = Some (out, n) → out `sublist_of` take n t) →
  rewrite reader s `sublist_of` s.
Proof. intros H. apply (rewrite_from_sublist reader 0 s H). Qed.

End RewriteSublist.

Section CleanupDeletes.
Context {U : Unicode}.
Import Reader.

(** The text of a marker that was read. *)
Lemma marker_take (s d : list N) (n : nat) :
  Reader.marker s = Some (d, n) →
  ∃ kind ws, take n s = [ch "["] ++ kind ++ ws ++ d ++ [ch "]"].
Proof.
  unfold Reader.marker. destruct s as [|x s1]; [done|].
  destruct (x =? ch "[")%N eqn:Ex; [|done]. apply N.eqb_eq in Ex. subst x.
  destruct (kind_len s1) as [k|] eqn:Ek; [|done].
  destruct (kind_len_app s1 k Ek) as (Hs1 & Hk & _).
  pose proof (span_app isspace (drop k s1)) as Hws.
  destruct (span isspace (drop k s1)) as [ws s3].
  pose proof (span_app isdecimal s3) as Hd.
  destruct (span isdecimal s3) as [d' s4]. cbn [fst snd] in *.
  destruct d' as [|y d']; [done|]. destruct s4 as [|y2 s5]; [done|].
  destruct (y2 =? ch "]")%N eqn:Ey; [|done]. apply N.eqb_eq in Ey. subst y2.
  intros [= <- <-]. remember (take k s1) as kind eqn:Ekind.
  assert (Es : s1 = (kind ++ ws ++ (y :: d') ++ [ch "]"]) ++ s5).
  { rewrite Hs1 at 1. by rewrite <- Hws, <- Hd, <- !app_assoc. }
  exists kind, ws. rewrite Es. cbn [take app]. f_equal.
  apply take_app_length'. rewrite !length_app. cbn [length].
  rewrite length_app. cbn [length]. lia.
Qed.

Lemma bracketed_sublist (kind ws d : list N) :
  bracketed d `sublist_of` [ch "["] ++ kind ++ ws ++ d ++ [ch "]"].
Proof.
  unfold bracketed. apply sublist_app; [done|].
  by do 2 apply sublist_inserts_l.
Qed.

Lemma reader2_sublist (t out : list N) (n : nat) :
  reader2 t = Some (out, n) → out `sublist_of` take n t.
Proof.
  unfold reader2. destruct (Reader.marker t) as [[d k]|] eqn:E; [|done].
  intros [= <- <-]. apply marker_take in E as (kind & ws & ->).
  apply bracketed_sublist.
Qed.

Lemma reader1_sublist (t out : list N) (n : nat) :
  reader1 t = Some (out, n) → out `sublist_of` take n t.
Proof.
  unfold reader1. destruct (Reader.marker t) as [[d k]|] eqn:E; [|done].
  cbn [mbind option_bind].
  destruct (Reader.parenthetical (drop k t)) as [m|]; [|done].
  intros [= <- <-]. apply marker_take in E as (kind & ws & E).
  trans (take k t); [rewrite E; apply bracketed_sublist|].
  replace (take k t) with (take k (take (k + m) t))
    by (rewrite take_take; f_equal; lia).
  apply sublist_take.
Qed.

Lemma reader3_sublist (t out : list N) (n : nat) :
  reader3 t = Some (out, n) → out `sublist_of` take n t.
Proof.
  unfold reader3. destruct (Reader.fragment t); [|done].
  intros [= <- <-]. apply sublist_nil_l.
Qed.

(** [_clean_citation_leakage] only deletes: what it returns is the text
    it was given with some characters left out, in the same order, so
    that it is never longer; and every character it returns is one of the
    text. *)
Theorem _clean_citation_leakage_only_deletes (HU : conforming U)
    (content : list N) :
  Chat._clean_citation_leakage content `sublist_of` content
  ∧ (length (Chat._clean_citation_leakage content) ≤ length content)%nat
  ∧ (∀ c, c ∈ Chat._clean_citation_leakage content → c ∈ content).
Proof.
  assert (H : Chat._clean_citation_leakage content `sublist_of` content).
  { rewrite (_clean_citation_leakage_rewrite HU).
    etrans; [apply rewrite_sublist, reader3_sublist|].
    etrans; [apply rewrite_sublist, reader2_sublist|].
    apply rewrite_sublist, reader1_sublist. }
  split; [exact H|]. split; [by apply sublist_length|].
  intros c Hc. by eapply elem_of_sublist.
Qed.

End CleanupDeletes.

Lemma _clean_citation_leakage_only_deletes_witness :
  let U := ascii_tables in
  let content := py "Growth [Cell 2] (doc_id=N_6F03AD, metric_id=m1) held." in
  Chat._clean_citation_leakage content = py "Growth [2] held."
  ∧ Chat._clean_citation_leakage content `sublist_of` content.
Proof.
  intros U content. split; [by vm_compute|].
  apply (_clean_citation_leakage_only_deletes (U := U) ascii_tables_conforming).
Defined.

(** ** Citations are repaired from the context by their index *)

Section EnrichByIndex.
Import Chat.

Lemma map_get_from {A : Type} (n : nat) (l : list A) (z : Z) :
  map_get z (imap (λ i x, (Z.of_nat (S (n + i)), x)) l)
  = if (Z.of_nat n <? z) && (z <=? Z.of_nat (n + length l))
    then l !! (Z.to_nat z - S n)%nat else None.
Proof.
  unfold map_get. revert n. induction l as [|x l IH]; intros n.
  - simpl. by destruct (_ && _).
  - cbn [imap List.find fst]. rewrite Nat.add_0_r.
    destruct (Z.of_nat (S n) =? z) eqn:E.
    + apply Z.eqb_eq in E. subst z.
      replace (Z.of_nat n <? Z.of_nat (S n)) with true
        by (symmetry; apply Z.ltb_lt; lia).
      replace (Z.of_nat (S n) <=? Z.of_nat (n + length (x :: l))) with true
        by (symmetry; apply Z.leb_le; simpl; lia).
      cbn [andb]. rewrite Nat2Z.id, Nat.sub_diag. done.
    + apply Z.eqb_neq in E.
      rewrite (imap_ext _ (λ i y, (Z.of_nat (S (S n + i)), y)))
        by (intros i y _; simpl; do 2 f_equal; lia).
      rewrite (IH (S n)).
      destruct (Z.of_nat (S n) <? z) eqn:E1.
      * apply Z.ltb_lt in E1.
        replace (Z.of_nat n <? z) with true by (symmetry; apply Z.ltb_lt; lia).
        replace (n + length (x :: l))%nat with (S n + length l)%nat
          by (simpl; lia).
        destruct (z <=? Z.of_nat (S n + length l)); cbn [andb]; [|done].
        replace (Z.to_nat z - S n)%nat with (S (Z.to_nat z - S (S n))) by lia.
        done.
      * apply Z.ltb_ge in E1. cbn [andb].
        destruct (Z.of_nat n <? z) eqn:E2; [|done].
        apply Z.ltb_lt in E2. lia.
Qed.

Lemma context_map_values {A : Type} (l : list A) : (context_map l).*2 = l.
Proof.
  unfold context_map.
  assert (H : ∀ n, (imap (λ i x, (Z.of_nat (S (n + i)), x)) l).*2 = l).
  { induction l as [|x l IH]; intros n; [done|].
    cbn [imap fmap list_fmap snd]. f_equal.
    rewrite <- (IH (S n)) at 2. f_equal.
    apply imap_ext. intros i y _. simpl. do 2 f_equal. lia. }
  exact (H 0%nat).
Qed.

Lemma enrich_from_clamped {A : Type}
    (fill : gmap (list N) pyval → A → gmap (list N) pyval)
    (c : gmap (list N) pyval) (l : list A) (z : Z) :
  is_placeholder (Py.get c "doc_id" (PStr [])) = Some true →
  Py.as_int (Py.get c "index" (PInt 0)) = Some z →
  enrich_from fill c (context_map l)
  = Some (match clamped z l with Some found => fill c found | None => c end).
Proof.
  intros Hp Hz. unfold enrich_from, map_lookup, map_fallback, clamped.
  rewrite Hp, Hz. cbn [mbind option_bind].
  rewrite context_map_values.
  assert (Hget : map_get z (context_map l)
                 = if (0 <? z) && (z <=? Z.of_nat (length l))
                   then l !! (Z.to_nat z - 1)%nat else None)
    by exact (map_get_from 0 l z).
  rewrite Hget. clear Hget.
  assert (Hlen : length (context_map l) = length l) by apply length_imap.
  destruct l as [|x l]; [by destruct (_ && _)|].
  rewrite Hlen. unfold context_map. cbn [imap length].
  destruct (0 <? z) eqn:E1; cbn [andb].
  - apply Z.ltb_lt in E1.
    destruct (z <=? Z.of_nat (S (length l))) eqn:E2.
    + apply Z.leb_le in E2.
      replace (Z.to_nat (Z.min (Z.max z 1) (Z.of_nat (S (length l))) - 1))
        with (Z.to_nat z - 1)%nat by lia.
      destruct ((x :: l) !! (Z.to_nat z - 1)%nat) as [found|] eqn:E3; [done|].
      apply lookup_ge_None in E3. simpl in E3. lia.
    + apply Z.leb_gt in E2.
      replace (Z.to_nat (Z.min (z - 1) (Z.of_nat (S (length l)) - 1)))
        with (length l) by lia.
      replace (Z.to_nat (Z.min (Z.max z 1) (Z.of_nat (S (length l))) - 1))
        with (length l) by lia.
      destruct ((x :: l) !! length l) as [found|] eqn:E3; [done|].
      apply lookup_ge_None in E3. simpl in E3. lia.
  - apply Z.ltb_ge in E1.
    replace (Z.to_nat (Z.min (Z.max z 1) (Z.of_nat (S (length l))) - 1))
      with 0%nat by lia.
    done.
Qed.

(** A citation of type ["cell"] or ["document"] whose [doc_id] is a
    placeholder and whose [index] is an integer is filled from the entry
    of the context of its type that the index names, counted from 1; an
    index beyond the context is taken for the last entry and an index
    below 1 for the first, so that the citation is left as it is only when
    the context is empty. *)
Theorem enrich_one_by_index (c : gmap (list N) pyval)
    (cell_matches : list CellMatch.t) (doc_chunks : list DocChunk.t) (z : Z) :
  is_placeholder (Py.get c "doc_id" (PStr [])) = Some true →
  Py.as_int (Py.get c "index" (PInt 0)) = Some z →
  enrich_one c (context_map cell_matches) (context_map doc_chunks)
  = Some
      (if bool_decide (Py.get_ c "type" = PStr (py "cell")) then
         match clamped z cell_matches with
         | Some found => fill_from_cell c found
         | None => c
         end
       else if bool_decide (Py.get_ c "type" = PStr (py "document")) then
         match clamped z doc_chunks with
         | Some found => fill_from_chunk c found
         | None => c
         end
       else c)
  ∧ (clamped z cell_matches = None ↔ cell_matches = [])
  ∧ clamped z cell_matches
    = cell_matches !! (Z.to_nat (Z.min (Z.max z 1)
                                   (Z.of_nat (length cell_matches))) - 1)%nat.
Proof.
  intros Hp Hz. split; [|split].
  - unfold enrich_one.
    destruct (bool_decide (Py.get_ c "type" = PStr (py "cell")));
      [by apply enrich_from_clamped|].
    destruct (bool_decide (Py.get_ c "type" = PStr (py "document")));
      [by apply enrich_from_clamped|done].
  - unfold clamped. rewrite lookup_ge_None.
    destruct cell_matches; cbn [length]; split; intros H;
      first [done | lia].
  - unfold clamped. f_equal. lia.
Qed.

End EnrichByIndex.

Lemma enrich_one_by_index_witness :
  let far := Sample.citation "cell" (PInt 7) in
  Chat.enrich_one far (context_map [Sample.cell_match "714m" High])
    (context_map [])
  = Some (Chat.fill_from_cell far (Sample.cell_match "714m" High)).
Proof.
  intros far.
  destruct (enrich_one_by_index far [Sample.cell_match "714m" High] [] 7)
    as [H _]; [reflexivity|reflexivity|].
  rewrite H. reflexivity.
Defined.

(** ** Rewriting a text piece by piece *)

Section RewriteLocal.
Import Reader.
Context (reader : list N → option (list N * nat)).

(** Where every reading that starts in [a] is the same with and without
    [b] behind, and stays within [a], the text [a ++ b] is rewritten as
    [a] and [b] are. *)
Lemma rewrite_from_app_local (a b : list N) (skip : nat) :
  reader [] = None →
  (∀ t1 t2, a = t1 ++ t2 → t2 ≠ [] → reader (t2 ++ b) = reader t2) →
  (∀ t1 t2 out n, a = t1 ++ t2 → reader t2 = Some (out, n) → (n ≤ length t2)%nat) →
  (skip ≤ length a)%nat →
  rewrite_from reader skip (a ++ b)
  = rewrite_from reader skip a ++ rewrite reader b.
Proof.
  intros Hnil. revert skip. induction a as [|c a IH]; intros skip Hloc Hlen Hskip.
  - destruct skip; [|simpl in Hskip; lia]. cbn [app rewrite_from].
    by rewrite Hnil.
  - assert (Hloc' : ∀ t1 t2, a = t1 ++ t2 → t2 ≠ [] → reader (t2 ++ b) = reader t2).
    { intros t1 t2 -> Hne. by apply (Hloc (c :: t1) t2). }
    assert (Hlen' : ∀ t1 t2 out n, a = t1 ++ t2 → reader t2 = Some (out, n)
                                   → (n ≤ length t2)%nat).
    { intros t1 t2 out n ->. by apply (Hlen (c :: t1) t2). }
    destruct skip as [|k]; rewrite <- app_comm_cons; cbn [rewrite_from].
    + rewrite app_comm_cons, (Hloc [] (c :: a)) by done.
      destruct (reader (c :: a)) as [[out len]|] eqn:E.
      * pose proof (Hlen [] (c :: a) out len eq_refl E) as Hle.
        rewrite <- app_assoc. f_equal. cbn [length] in Hle.
        destruct len as [|n].
        -- rewrite <- app_comm_cons. f_equal. apply IH; [done|done|lia].
        -- apply IH; [done|done|lia].
      * rewrite <- app_comm_cons. f_equal. apply IH; [done|done|lia].
    + apply IH; [done|done|]. cbn [length] in Hskip. lia.
Qed.

Lemma rewrite_app_local (a b : list N) :
  reader [] = None →
  (∀ t1 t2, a = t1 ++ t2 → t2 ≠ [] → reader (t2 ++ b) = reader t2) →
  (∀ t1 t2 out n, a = t1 ++ t2 → reader t2 = Some (out, n) → (n ≤ length t2)%nat) →
  rewrite reader (a ++ b) = rewrite reader a ++ rewrite reader b.
Proof. intros. apply rewrite_from_app_local; [done|done|done|lia]. Qed.

Lemma rewrite_from_ext (reader' : list N → option (list N * nat))
    (skip : nat) (s : list N) :
  (∀ t, reader t = reader' t) →
  rewrite_from reader skip s = rewrite_from reader' skip s.
Proof.
  intros H. revert skip. induction s as [|c s IH]; intros skip.
  - destruct skip; cbn [rewrite_from]; by rewrite ?H.
  - destruct skip as [|n]; cbn [rewrite_from]; [|apply IH].
    rewrite H. destruct (reader' (c :: s)) as [[out len]|].
    + f_equal. destruct len; by rewrite IH.
    + by rewrite IH.
Qed.

(** Where nothing is read, nothing is rewritten. *)
Lemma rewrite_silent (s : list N) : silent reader s = true → rewrite reader s = s.
Proof.
  intros H. apply rewrite_all_miss. intros t1 t2 ->.
  induction t1 as [|c t1 IH].
  - destruct t2; cbn [app silent] in H; by destruct (reader _).
  - apply IH. rewrite <- app_comm_cons in H. cbn [silent] in H.
    by destruct (reader (c :: t1 ++ t2)).
Qed.

Lemma silent_suffix (t1 t2 : list N) :
  silent reader (t1 ++ t2) = true → silent reader t2 = true.
Proof.
  induction t1 as [|c t1 IH]; [done|]. rewrite <- app_comm_cons.
  cbn [silent]. destruct (reader (c :: t1 ++ t2)); [done|]. exact IH.
Qed.

Lemma silent_head (s : list N) : silent reader s = true → reader s = None.
Proof. destruct s; cbn [silent]; by destruct (reader _). Qed.

End RewriteLocal.

(** ** The references of the text after [_normalize_citations] *)

Section ReferenceFacts.
Context {U : Unicode} (HU : conforming U).
Import Re Reader Chat.

(** [ref_pattern], whatever follows it. *)
Lemma run_reference (k : state → option state) (i : nat) (s : list N)
    (g : list (nat * list N)) :
  run ref_pattern k (mk i s g)
  = match reference s with
    | Some (d, n) => k (mk (n + i) (drop n s) ((1%nat, d) :: g))
    | None => None
    end.
Proof.
  unfold ref_pattern, reference.
  destruct s as [|x s1]; [done|].
  cbn [run rest pos groups].
  destruct (x =? ch "[")%N; [|done].
  cbn [run rest pos groups Plus].
  pose proof (span_app isdecimal s1) as Hd.
  destruct s1 as [|y s1']; [done|]. cbn [span] in *.
  destruct (isdecimal y) eqn:Ey; [|done].
  rewrite star_span.
  2:{ intros i' c s' g' Hc. cbn [run rest pos groups].
      rewrite (mark_neq_digit HU c (ch "]")) by (done || by apply in_marks; auto).
      done. }
  destruct (span isdecimal s1') as [d' s4]. cbn [fst snd length] in *.
  cbn [run rest pos groups].
  destruct s4 as [|y2 s5]; [done|].
  destruct (y2 =? ch "]")%N; [|done].
  injection Hd as Hd. f_equal. f_equal.
  - lia.
  - rewrite <- Hd. cbn [drop length].
    replace (S (length d') + 1)%nat with (S (length (d' ++ [y2])))
      by (rewrite length_app; simpl; lia).
    replace (d' ++ y2 :: s5) with ((d' ++ [y2]) ++ s5)
      by (by rewrite <- app_assoc).
    cbn [drop]. by rewrite drop_app_length.
  - f_equal. f_equal.
    replace (length d' + S (S i) - S i)%nat with (S (length d')) by lia.
    rewrite <- Hd. cbn [take]. by rewrite take_app_length.
Qed.

Lemma reference_length (s d : list N) (n : nat) :
  reference s = Some (d, n) →
  (0 < n ≤ length s)%nat ∧ take n s = bracketed d
  ∧ Forall (λ c, isdecimal c = true) d.
Proof.
  unfold reference. destruct s as [|x s1]; [done|].
  destruct (x =? ch "[")%N eqn:Ex; [|done]. apply N.eqb_eq in Ex. subst x.
  pose proof (span_app isdecimal s1) as Hd.
  pose proof (span_all isdecimal s1) as Hall.
  destruct (span isdecimal s1) as [d' s2]. cbn [fst snd] in *.
  destruct d' as [|y d']; [done|]. destruct s2 as [|y2 s3]; [done|].
  destruct (y2 =? ch "]")%N eqn:Ey; [|done]. apply N.eqb_eq in Ey. subst y2.
  intros [= <- <-]. rewrite <- Hd. split; [|split; [|done]].
  - cbn [length]. rewrite length_app. cbn [length]. lia.
  - change (S (length d' + 1)) with (length (y :: d') + 1)%nat.
    remember (y :: d') as D eqn:ED. clear ED.
    unfold bracketed. cbn [take app]. f_equal.
    replace (D ++ ch "]" :: s3) with ((D ++ [ch "]"]) ++ s3)
      by (by rewrite <- app_assoc).
    apply take_app_length'. rewrite length_app. simpl. lia.
Qed.

Lemma reads_ref_pattern (old_to_new : gmap (list N) nat) :
  reads ref_pattern (replace_ref old_to_new) (reader_ref (renumbered old_to_new)).
Proof.
  intros i s. unfold match_at, reader_ref. rewrite run_reference.
  destruct (reference s) as [[d n]|] eqn:E; [|done].
  cbn [mbind option_bind pos].
  replace (n + i - i)%nat with n by lia.
  apply reference_length in E as (_ & -> & _).
  do 2 f_equal. unfold replace_ref, renumbered, group.
  cbn [groups List.find fst snd Nat.eqb fmap option_fmap option_map default].
  change (id d) with d. by destruct (old_to_new !! d).
Qed.

(** A reference is found in a text, or not, whatever comes after the
    text, as long as that starts with an opening bracket. *)
Lemma reference_extend (t b : list N) :
  t ≠ [] → reference (t ++ ch "[" :: b) = reference t.
Proof.
  intros Ht. destruct t as [|x t]; [done|]. unfold reference.
  rewrite <- app_comm_cons.
  destruct (x =? ch "[")%N; [|done].
  rewrite span_app_stop
    by (apply (mark_not_digit U HU); apply in_marks; auto).
  destruct (span isdecimal t) as [d s2]. cbn [fst snd].
  destruct d as [|y d]; [done|].
  destruct s2 as [|y2 s3]; [|done]. done.
Qed.

Lemma reference_shape (d tail : list N) :
  Forall (λ c, isdecimal c = true) d → d ≠ [] →
  reference (bracketed d ++ tail) = Some (d, length (bracketed d)).
Proof.
  intros Hd Hne. unfold bracketed, reference.
  rewrite <- !app_assoc. cbn [app]. rewrite N.eqb_refl.
  rewrite span_run; [|done|].
  2:{ simpl. apply (mark_not_digit U HU). apply in_marks; auto. }
  destruct d as [|c d]; [done|]. rewrite N.eqb_refl.
  do 2 f_equal. simpl. rewrite !length_app. simpl. lia.
Qed.

(** Where [findall] finds nothing, nothing is read. *)
Lemma findall_nil (r : regex) (repl : list N → state → list N)
    (reader : list N → option (list N * nat)) (s : list N) (i : nat) :
  reads r repl reader →
  flat_map (λ p, match p with
                 | Text _ => []
                 | Hit _ m => [default [] (group 1 m)]
                 end) (scan r 0 i s) = [] →
  ∀ t1 t2, s = t1 ++ t2 → reader t2 = None.
Proof.
  intros Hr. revert i. induction s as [|c s IH]; intros i Hnil t1 t2 E.
  - apply eq_sym, app_eq_nil in E as [-> ->].
    specialize (Hr i []). cbn [scan] in Hnil.
    by destruct (match_at r i []).
  - cbn [scan] in Hnil. specialize (Hr i (c :: s)).
    destruct (match_at r i (c :: s)) as [m|]; [done|].
    cbn [flat_map app] in Hnil.
    destruct t1 as [|x t1]; [cbn [app] in E; by subst t2|].
    rewrite <- app_comm_cons in E. injection E as _ E. by eapply (IH (S i)).
Qed.

Lemma no_reference (s : list N) :
  findall ref_pattern s = [] → ∀ t1 t2, s = t1 ++ t2 → reference t2 = None.
Proof.
  intros Hnil t1 t2 E.
  pose proof (findall_nil _ _ _ s 0 (reads_ref_pattern ∅) Hnil t1 t2 E) as H.
  unfold reader_ref in H. by destruct (reference t2) as [[d n]|].
Qed.

Lemma reader_ref_length (f : list N → list N) (t out : list N) (n : nat) :
  reader_ref f t = Some (out, n) → (n ≤ length t)%nat.
Proof.
  unfold reader_ref. destruct (reference t) as [[d k]|] eqn:E; [|done].
  intros [= _ <-]. apply reference_length in E. lia.
Qed.

(** The rewriting of the references, reference by reference. *)
Lemma rewrite_reference (f : list N → list N) (pre d tail : list N) :
  Forall (λ c, isdecimal c = true) d → d ≠ [] →
  rewrite (reader_ref f) (pre ++ bracketed d ++ tail)
  = rewrite (reader_ref f) pre ++ bracketed (f d) ++ rewrite (reader_ref f) tail.
Proof.
  intros Hd Hne. rewrite rewrite_app_local.
  - f_equal. apply rewrite_hit; [done|].
    unfold reader_ref. by rewrite reference_shape.
  - done.
  - intros t1 t2 E Ht2. unfold reader_ref, bracketed.
    rewrite <- app_assoc. cbn [app]. by rewrite reference_extend.
  - intros t1 t2 out n _. apply reader_ref_length.
Qed.

Lemma rewrite_no_reference (f : list N → list N) (s : list N) :
  findall ref_pattern s = [] → rewrite (reader_ref f) s = s.
Proof.
  intros Hs. apply rewrite_all_miss. intros t1 t2 E.
  unfold reader_ref. by rewrite (no_reference s Hs t1 t2 E).
Qed.

Lemma renamed_renumbered {P : Pydantic} (raw : list (gmap (list N) pyval))
    (refs : list (list N)) (old_ref : list N) :
  NoDup refs →
  renumbered (renumber raw refs).2 old_ref = renamed raw refs old_ref.
Proof.
  intros Hnd. destruct (renumber_map raw refs Hnd) as [Hin Hout].
  unfold renumbered, renamed.
  destruct (list_find (λ r, r = old_ref) refs) as [[i r]|] eqn:E.
  - apply list_find_Some in E as (Hi & -> & _).
    rewrite (Hin i old_ref Hi). unfold new_index.
    by destruct (resolve raw (S i) old_ref).
  - apply list_find_None in E. rewrite Hout; [done|].
    intros Hel. rewrite Forall_forall in E. by apply (E old_ref).
Qed.

Lemma renamed_rank {P : Pydantic} (raw : list (gmap (list N) pyval))
    (refs : list (list N)) (i : nat) (old_ref : list N) :
  NoDup refs → refs !! i = Some old_ref →
  renamed raw refs old_ref
  = if resolve raw (S i) old_ref is Some _
    then Py.str_of_Z (Z.of_nat (S i)) else old_ref.
Proof.
  intros Hnd Hi. unfold renamed.
  destruct (list_find (λ r, r = old_ref) refs) as [[j r]|] eqn:E.
  - apply list_find_Some in E as (Hj & -> & _).
    by rewrite (NoDup_lookup refs i j old_ref Hnd Hi Hj).
  - apply list_find_None in E. rewrite Forall_forall in E.
    exfalso. apply (E old_ref); [|done]. by eapply list_elem_of_lookup_2.
Qed.

Lemma _normalize_citations_text {P : Pydantic} (content : list N)
    (raw_citations : list (gmap (list N) pyval)) :
  (_normalize_citations content raw_citations).1
  = if references content is [] then _clean_citation_leakage content
    else if raw_citations is [] then _clean_citation_leakage content
    else rewrite (reader_ref (renamed raw_citations (references content)))
           (_clean_citation_leakage content).
Proof.
  unfold _normalize_citations. fold (references content).
  pose proof (unique_NoDup (findall ref_pattern (_clean_citation_leakage content)))
    as Hnd. fold (references content) in Hnd.
  destruct (references content) as [|r refs] eqn:Er; [done|].
  destruct raw_citations as [|c raw] eqn:Eraw; [done|].
  pose proof (renamed_renumbered (c :: raw) (r :: refs)) as Hren.
  destruct (renumber (c :: raw) (r :: refs)) as [cs m]. cbn [fst snd] in *.
  rewrite (sub_rewrite _ _ _ _ (reads_ref_pattern m)).
  apply rewrite_from_ext. intros t. unfold reader_ref.
  destruct (reference t) as [[d n]|]; [|done].
  cbn [mbind option_bind]. by rewrite Hren.
Qed.

End ReferenceFacts.

Lemma filter_all (f : nat → bool) (l : list nat) :
  Forall (λ i, f i = true) l ↔ List.filter f l = l.
Proof.
  induction l as [|i l IH]; [done|]. cbn [List.filter]. split.
  - intros H. apply Forall_cons in H as [-> H]. f_equal. by apply IH.
  - destruct (f i) eqn:E.
    + intros [= H]. apply Forall_cons. split; [done|]. by apply IH.
    + intros H. pose proof (List.filter_length_le f l) as Hle.
      rewrite H in Hle. cbn [length] in Hle. lia.
Qed.

Section Normalize.
Context {U : Unicode} {P : Pydantic}.
Import Chat.

(** C1, as the code has it.  The indices of the citations that
    [_normalize_citations] returns are strictly increasing, hence
    distinct.  When the cleaned text has no reference, or no citation is
    given, they are the positions (from 1) of the raw citations that are
    of a known type and validate, and the text returned is the cleaned
    text.  Otherwise they are the ranks (from 1, in order of first
    appearance) of the references that resolve to a citation of a known
    type that validates; the text returned is the cleaned text with each
    reference rewritten where it stands, to its rank when it resolves
    and to itself when it does not, and nothing else changed.  So the
    indices are [1..k] exactly when each of the [k] references, or each of
    the [k] raw citations, yields a citation; one that does not is
    skipped, and its number is not used again. *)
Theorem _normalize_citations_indices (content : list N)
    (raw_citations : list (gmap (list N) pyval)) :
  let refs := references content in
  let cleaned := _clean_citation_leakage content in
  let answer := _normalize_citations content raw_citations in
  let indices := Citation_index <$> answer.2 in
  let k := if refs is [] then length raw_citations
           else if raw_citations is [] then 0%nat else length refs in
  let kept := if refs is [] then parses raw_citations
              else yields raw_citations refs in
  indices = List.filter kept (seq 1 k)
  ∧ StronglySorted lt indices
  ∧ (Forall (λ i, kept i = true) (seq 1 k) ↔ indices = seq 1 k)
  ∧ NoDup refs
  ∧ (∀ (i : nat) (old_ref : list N),
       refs !! i = Some old_ref →
       (renumber raw_citations refs).2 !! old_ref = new_index raw_citations i old_ref
       ∧ renamed raw_citations refs old_ref
         = if resolve raw_citations (S i) old_ref is Some _
           then Py.str_of_Z (Z.of_nat (S i)) else old_ref)
  ∧ (conforming U →
     answer.1
     = (if refs is [] then cleaned
        else if raw_citations is [] then cleaned
        else Reader.rewrite (Reader.reader_ref (renamed raw_citations refs)) cleaned)
     ∧ (∀ (f : list N → list N) (pre d tail : list N),
          Forall (λ c, isdecimal c = true) d → d ≠ [] →
          Reader.rewrite (Reader.reader_ref f) (pre ++ Reader.bracketed d ++ tail)
          = Reader.rewrite (Reader.reader_ref f) pre ++ Reader.bracketed (f d)
            ++ Reader.rewrite (Reader.reader_ref f) tail)
     ∧ (∀ (f : list N → list N) (s : list N),
          Re.findall ref_pattern s = [] →
          Reader.rewrite (Reader.reader_ref f) s = s)).
Proof.
  intros refs cleaned answer indices k kept.
  assert (Hnd : NoDup refs) by apply unique_NoDup.
  assert (Hind : indices = List.filter kept (seq 1 k)).
  { unfold indices, answer, k, kept, _normalize_citations.
    fold (references content). fold refs. destruct refs as [|r refs'] eqn:Er.
    - simpl. apply _parse_citations_indices.
    - destruct raw_citations as [|c raw'] eqn:Eraw; [done|].
      pose proof (renumber_indices (c :: raw') (r :: refs')) as H.
      destruct (renumber (c :: raw') (r :: refs')) as [cs m]. exact H. }
  split; [exact Hind|]. split; [rewrite Hind; apply filter_seq_sorted|].
  split; [rewrite Hind; apply filter_all|].
  split; [exact Hnd|]. split.
  { intros i old_ref Hi. split.
    - by apply renumber_map.
    - by apply renamed_rank. }
  intros HU. split; [|split].
  - by apply _normalize_citations_text.
  - intros f pre d tail. by apply rewrite_reference.
  - intros f s. by apply rewrite_no_reference.
Qed.

End Normalize.

Lemma _normalize_citations_indices_witness :
  let U := ascii_tables in
  let P := pydantic_v2 in
  let content := py "[7] [8] [1]" in
  let raw_citations := [ Sample.cited "cell" (PInt 1) ] in
  conforming U
  ∧ (Chat._normalize_citations content raw_citations).1
    = Reader.rewrite
        (Reader.reader_ref (renamed raw_citations (references content)))
        (Chat._clean_citation_leakage content)
  ∧ (Chat._normalize_citations content raw_citations).1 = py "[1] [8] [3]"
  ∧ references content = [py "7"; py "8"; py "1"]
  ∧ renamed raw_citations (references content) <$> references content
    = [py "1"; py "8"; py "3"].
Proof.
  intros U P content raw_citations.
  destruct (_normalize_citations_indices (U := U) (P := P) content raw_citations)
    as (_ & _ & _ & _ & _ & H).
  destruct (H ascii_tables_conforming) as (Htext & _ & _).
  split; [exact ascii_tables_conforming|].
  split; [exact Htext|]. by vm_compute.
Defined.

(** C1 as stated fails.  The second of three references resolves to no
    citation and leaves the gap between 1 and 3; and without references, a
    citation of an unknown type leaves position 1 empty. *)
Lemma _normalize_citations_gap :
  let U := ascii_tables in
  let P := pydantic_v2 in
  let with_refs :=
    Chat._normalize_citations (py "[7] [8] [1]") [ Sample.cited "cell" (PInt 1) ] in
  let without_refs :=
    Chat._normalize_citations (py "see the table")
      [ Sample.cited "note" (PInt 1); Sample.cited "cell" (PInt 2) ] in
  with_refs.1 = py "[1] [8] [3]"
  ∧ Citation_index <$> with_refs.2 = [1; 3]%nat
  ∧ bool_decide (Citation_index <$> with_refs.2 = seq 1 (length with_refs.2)) = false
  ∧ Citation_index <$> without_refs.2 = [2]%nat
  ∧ bool_decide (Citation_index <$> without_refs.2 = seq 1 (length without_refs.2))
    = false.
Proof. vm_compute. repeat split; reflexivity. Qed.

(** ** The laws of the cleaning *)

Section SpanFacts.
Import Reader.

Lemma span_app_closed (p : N → bool) (r b : list N) :
  (span p r).2 ≠ [] → span p (r ++ b) = ((span p r).1, (span p r).2 ++ b).
Proof.
  induction r as [|c r IH]; cbn [span app]; [done|].
  destruct (p c); [|done]. intros H.
  destruct (span p r) as [x y] eqn:E. cbn [fst snd] in *.
  by rewrite IH.
Qed.

Lemma forallb_span (p : N → bool) (s : list N) :
  forallb p s = true ↔ (span p s).2 = [].
Proof.
  induction s as [|c s IH]; cbn [forallb span]; [done|].
  destruct (p c); cbn [andb]; [|done].
  destruct (span p s) as [x y]. exact IH.
Qed.

Lemma forallb_not_rparen (s : list N) :
  forallb Chat.not_rparen s = true ↔ ch ")" ∉ s.
Proof.
  rewrite forallb_forall. unfold Chat.not_rparen. split.
  - intros H Hin. apply list_elem_of_In, H in Hin. by rewrite N.eqb_refl in Hin.
  - intros H c Hc. apply negb_true_iff, N.eqb_neq. intros ->.
    by apply H, list_elem_of_In.
Qed.

Lemma span_not_rparen (inner rest : list N) :
  ch ")" ∉ inner →
  span Chat.not_rparen (inner ++ ch ")" :: rest) = (inner, ch ")" :: rest).
Proof.
  intros H. apply span_run.
  - apply Forall_forall. intros c Hc. unfold Chat.not_rparen.
    apply negb_true_iff, N.eqb_neq. by intros ->.
  - unfold Chat.not_rparen. by rewrite N.eqb_refl.
Qed.

Lemma span_not_rparen_all (r : list N) :
  ch ")" ∉ r → span Chat.not_rparen r = (r, []).
Proof.
  intros H. rewrite <- (app_nil_r r) at 1. apply span_run; [|done].
  apply Forall_forall. intros c Hc. unfold Chat.not_rparen.
  apply negb_true_iff, N.eqb_neq. by intros ->.
Qed.

End SpanFacts.

Section MarkerFacts.
Context {U : Unicode} (HU : conforming U).
Import Re Reader Chat.

Lemma marker_inv (s d : list N) (n : nat) :
  Reader.marker s = Some (d, n) →
  ∃ kind ws,
    (kind = py "Doc" ∨ kind = py "Cell")
    ∧ Forall (λ c, isspace c = true) ws
    ∧ Forall (λ c, isdecimal c = true) d ∧ d ≠ []
    ∧ n = length (marker_text kind ws d)
    ∧ s = marker_text kind ws d ++ drop n s.
Proof.
  intros H. pose proof (marker_length _ _ _ H) as Hn. revert H.
  unfold Reader.marker. destruct s as [|x s1]; [done|].
  destruct (x =? ch "[")%N eqn:Ex; [|done]. apply N.eqb_eq in Ex. subst x.
  destruct (kind_len s1) as [k|] eqn:Ek; [|done].
  destruct (kind_len_app s1 k Ek) as (Hs1 & Hk & Hkind).
  pose proof (span_app isspace (drop k s1)) as Hws.
  pose proof (span_all isspace (drop k s1)) as Hwsall.
  destruct (span isspace (drop k s1)) as [ws s3].
  pose proof (span_app isdecimal s3) as Hd.
  pose proof (span_all isdecimal s3) as Hdall.
  destruct (span isdecimal s3) as [d' s4]. cbn [fst snd] in *.
  destruct d' as [|y d']; [done|]. destruct s4 as [|y2 s5]; [done|].
  destruct (y2 =? ch "]")%N eqn:Ey; [|done]. apply N.eqb_eq in Ey. subst y2.
  intros [= <- <-]. remember (take k s1) as kind eqn:Ekind.
  remember (y :: d') as d eqn:Ed.
  assert (Es : s1 = (kind ++ ws ++ d ++ [ch "]"]) ++ s5).
  { rewrite Hs1 at 1. by rewrite <- Hws, <- Hd, <- !app_assoc. }
  assert (Hlen : S (k + length ws + length d + 1)
                 = length (marker_text kind ws d)).
  { unfold marker_text. cbn [app length]. rewrite !length_app. cbn [length]. lia. }
  exists kind, ws. split; [done|]. split; [done|]. split; [done|].
  split; [by subst d|].
  change (S (length d')) with (length (y :: d')). rewrite <- Ed.
  split; [exact Hlen|].
  rewrite Hlen. unfold marker_text. cbn [app length drop].
  rewrite Es at 1. f_equal. f_equal. rewrite Es. by rewrite drop_app_length.
Qed.

Lemma marker_app (t b d : list N) (n : nat) :
  Reader.marker t = Some (d, n) → Reader.marker (t ++ b) = Some (d, n).
Proof.
  intros H. apply marker_inv in H as (kind & ws & Hk & Hws & Hd & Hne & -> & Ht).
  rewrite Ht, <- app_assoc. by apply marker_shape.
Qed.

Lemma marker_cut (t b d : list N) (n : nat) :
  Reader.marker (t ++ b) = Some (d, n) → (n ≤ length t)%nat →
  Reader.marker t = Some (d, n).
Proof.
  intros H Hn. apply marker_inv in H as (kind & ws & Hk & Hws & Hd & Hne & -> & Ht).
  assert (E : take (length (marker_text kind ws d)) t = marker_text kind ws d).
  { rewrite <- (take_app_le t b) by done. rewrite Ht. by rewrite take_app_length. }
  rewrite <- (take_drop (length (marker_text kind ws d)) t), E.
  by apply marker_shape.
Qed.

(** The last character of a marker is the closing bracket. *)
Lemma marker_last (s d : list N) (n : nat) :
  Reader.marker s = Some (d, n) → s !! (n - 1)%nat = Some (ch "]").
Proof.
  intros H. apply marker_inv in H as (kind & ws & Hk & Hws & Hd & Hne & -> & Ht).
  set (M := [ch "["] ++ kind ++ ws ++ d).
  assert (EM : marker_text kind ws d = M ++ [ch "]"]).
  { unfold marker_text, M. by rewrite <- !app_assoc. }
  rewrite Ht, EM, <- app_assoc, length_app. cbn [length].
  replace (length M + 1 - 1)%nat with (length M) by lia.
  by apply list_lookup_middle.
Qed.

(** A marker is read, or not, whatever white space comes after the
    text. *)
Lemma marker_spaces (t ws : list N) :
  Forall (λ c, isspace c = true) ws →
  Reader.marker (t ++ ws) = Reader.marker t.
Proof.
  intros Hws. destruct (Reader.marker t) as [[d n]|] eqn:E.
  - by apply marker_app.
  - destruct (Reader.marker (t ++ ws)) as [[d n]|] eqn:E2; [|done].
    destruct (decide (n ≤ length t)%nat) as [Hle|Hgt].
    + apply marker_cut in E2; [congruence|done].
    + pose proof (marker_length _ _ _ E2) as Hn.
      apply marker_last in E2. rewrite lookup_app_r in E2 by lia.
      apply list_elem_of_lookup_2 in E2.
      rewrite Forall_forall in Hws. apply Hws in E2.
      rewrite (mark_not_space U HU) in E2; [done|]. apply in_marks; auto.
Qed.

Lemma open_mark_cases (c : N) :
  c ∈ py "[()" → c = 91%N ∨ c = 40%N ∨ c = 41%N.
Proof.
  norm_lits. rewrite !elem_of_cons, elem_of_nil.
  intros [->|[->|[->|[]]]]; auto.
Qed.

Lemma in_marks3 (c : N) :
  c = ch "[" ∨ c = ch "(" ∨ c = ch ")" → c ∈ py "[()".
Proof.
  norm_lits. rewrite !elem_of_cons, elem_of_nil.
  intros [->|[->| ->]]; auto.
Qed.

Lemma kind_len_extend_mark (t b : list N) (c : N) :
  c ∈ py "[()" → kind_len (t ++ c :: b) = kind_len t.
Proof.
  intros Hc. apply open_mark_cases in Hc.
  unfold kind_len. rewrite !startswith_extend; [done| |];
    norm_lits; rewrite !elem_of_cons, elem_of_nil;
    destruct Hc as [->|[->| ->]]; intros H;
    repeat destruct H as [H|H]; done.
Qed.

Lemma open_mark (c : N) : c ∈ py "[()" → c ∈ py "[]()DC" ∧ c ≠ ch "]".
Proof.
  intros Hc. apply open_mark_cases in Hc. norm_lits.
  rewrite !elem_of_cons, elem_of_nil.
  destruct Hc as [->|[->| ->]]; split; auto 10; done.
Qed.

(** A marker is read, or not, whatever comes after the text, as long as
    that starts with a bracket or a parenthesis that opens, or a
    parenthesis that closes. *)
Lemma marker_extend_mark (t b : list N) (c : N) :
  t ≠ [] → c ∈ py "[()" →
  Reader.marker (t ++ c :: b) = Reader.marker t.
Proof.
  intros Ht Hc. destruct (open_mark c Hc) as [Hm Hne].
  destruct t as [|x t]; [done|]. unfold Reader.marker.
  rewrite <- app_comm_cons.
  destruct (x =? ch "[")%N; [|done].
  rewrite kind_len_extend_mark by done.
  destruct (kind_len t) as [k|] eqn:Ek; [|done].
  rewrite drop_app_le by (by apply kind_len_le).
  rewrite span_app_stop by (by apply (mark_not_space U HU)).
  destruct (span isspace (drop k t)) as [ws s3]. cbn [fst snd].
  rewrite span_app_stop by (by apply (mark_not_digit U HU)).
  destruct (span isdecimal s3) as [d s4]. cbn [fst snd].
  destruct d as [|y d]; [done|].
  destruct s4 as [|y2 s5]; [|done]. cbn [app].
  replace (c =? ch "]")%N with false; [done|].
  symmetry. by apply N.eqb_neq.
Qed.

Lemma marker_local (t ws b : list N) (c : N) :
  t ≠ [] → Forall (λ c, isspace c = true) ws → c ∈ py "[()" →
  Reader.marker (t ++ ws ++ c :: b) = Reader.marker t.
Proof.
  intros Ht Hws Hc. rewrite app_assoc, marker_extend_mark.
  - by apply marker_spaces.
  - by destruct t.
  - done.
Qed.

End MarkerFacts.

Section ParenFacts.
Context {U : Unicode} (HU : conforming U).
Import Reader Chat.

Lemma lparen_not_space : isspace (ch "(") = false.
Proof. apply (mark_not_space U HU). apply in_marks; auto. Qed.

Lemma rparen_not_space : isspace (ch ")") = false.
Proof. apply (mark_not_space U HU). apply in_marks; auto. Qed.

Lemma spaces_no_rparen (ws : list N) :
  Forall (λ c, isspace c = true) ws → ch ")" ∉ ws.
Proof.
  intros Hws Hin. rewrite Forall_forall in Hws. apply Hws in Hin.
  by rewrite rparen_not_space in Hin.
Qed.

Lemma parenthetical_closed (ws inner rest : list N) :
  Forall (λ c, isspace c = true) ws → ch ")" ∉ inner →
  parenthetical (ws ++ ch "(" :: inner ++ ch ")" :: rest)
  = Some (length ws + 1 + length inner + 1)%nat
  ∧ opens (ws ++ ch "(" :: inner ++ ch ")" :: rest) = false.
Proof.
  intros Hws Hin. unfold parenthetical, opens.
  rewrite span_run; [|done|exact lparen_not_space].
  rewrite N.eqb_refl, span_not_rparen by done. split; [done|].
  cbn [andb]. apply not_true_iff_false. rewrite forallb_not_rparen.
  intros H. apply H. apply elem_of_app. right. by left.
Qed.

Lemma parenthetical_open (ws r : list N) :
  Forall (λ c, isspace c = true) ws → ch ")" ∉ r →
  parenthetical (ws ++ ch "(" :: r) = None ∧ opens (ws ++ ch "(" :: r) = true.
Proof.
  intros Hws Hr. unfold parenthetical, opens.
  rewrite span_run; [|done|exact lparen_not_space].
  rewrite N.eqb_refl, span_not_rparen_all by done. split; [done|].
  cbn [andb]. by apply forallb_not_rparen.
Qed.

Lemma parenthetical_other (ws : list N) (x : N) (r : list N) :
  Forall (λ c, isspace c = true) ws → isspace x = false → x ≠ ch "(" →
  parenthetical (ws ++ x :: r) = None ∧ opens (ws ++ x :: r) = false.
Proof.
  intros Hws Hx Hne. unfold parenthetical, opens.
  rewrite span_run; [|done|exact Hx].
  replace (x =? ch "(")%N with false; [done|].
  symmetry. by apply N.eqb_neq.
Qed.

Lemma parenthetical_blank (ws : list N) :
  Forall (λ c, isspace c = true) ws →
  parenthetical ws = None ∧ opens ws = false.
Proof.
  intros Hws. unfold parenthetical, opens.
  rewrite <- (app_nil_r ws). by rewrite span_run.
Qed.

(** The shapes of a text, as to the parenthetical it may start with. *)
Lemma parenthetical_cases (s : list N) :
  (∃ ws inner rest, Forall (λ c, isspace c = true) ws ∧ (ch ")" ∉ inner)
                    ∧ s = ws ++ ch "(" :: inner ++ ch ")" :: rest)
  ∨ (∃ ws r, Forall (λ c, isspace c = true) ws ∧ (ch ")" ∉ r)
             ∧ s = ws ++ ch "(" :: r)
  ∨ (∃ ws x r, Forall (λ c, isspace c = true) ws ∧ isspace x = false
               ∧ x ≠ ch "(" ∧ s = ws ++ x :: r)
  ∨ Forall (λ c, isspace c = true) s.
Proof.
  pose proof (span_app isspace s) as Hs.
  pose proof (span_all isspace s) as Hws.
  pose proof (span_stop isspace s) as Hstop.
  destruct (span isspace s) as [ws s1]. cbn [fst snd] in *.
  destruct s1 as [|x s2].
  { right. right. right. rewrite app_nil_r in Hs. by subst. }
  destruct (decide (x = ch "(")) as [->|Hx].
  2:{ right. right. left. by exists ws, x, s2. }
  pose proof (span_app not_rparen s2) as Hs2.
  pose proof (span_all not_rparen s2) as Hin.
  pose proof (span_stop not_rparen s2) as Hstop2.
  destruct (span not_rparen s2) as [inner s3]. cbn [fst snd] in *.
  assert (Hinner : ch ")" ∉ inner).
  { intros Hel. rewrite Forall_forall in Hin. apply Hin in Hel.
    unfold not_rparen in Hel. by rewrite N.eqb_refl in Hel. }
  destruct s3 as [|c s4].
  - right. left. exists ws, s2. rewrite app_nil_r in Hs2. by subst.
  - left. exists ws, inner, s4. apply not_rparen_stop, N.eqb_eq in Hstop2.
    by subst.
Qed.

Lemma parenthetical_no_rparen (s : list N) : ch ")" ∉ s → parenthetical s = None.
Proof.
  intros Hs.
  destruct (parenthetical_cases s)
    as [(ws & inner & rest & Hws & Hin & ->)|[(ws & r & Hws & Hr & ->)
       |[(ws & x & r & Hws & Hx & Hne & ->)|Hws]]].
  - exfalso. apply Hs. rewrite elem_of_app, elem_of_cons, elem_of_app, elem_of_cons.
    auto.
  - by apply parenthetical_open.
  - by apply parenthetical_other.
  - by apply parenthetical_blank.
Qed.

(** A parenthetical is read, or not, whatever comes after the text, as
    long as the text leaves no parenthesis open and what comes does not
    start with one. *)
Lemma parenthetical_local (t b : list N) :
  opens t = false →
  match b with c :: _ => isspace c = false ∧ c ≠ ch "(" | [] => True end →
  parenthetical (t ++ b) = parenthetical t.
Proof.
  intros Ht Hb.
  destruct (parenthetical_cases t)
    as [(ws & inner & rest & Hws & Hin & ->)|[(ws & r & Hws & Hr & ->)
       |[(ws & x & r & Hws & Hx & Hne & ->)|Hws]]].
  - rewrite <- app_assoc, <- app_comm_cons, <- app_assoc, <- app_comm_cons.
    destruct (parenthetical_closed ws inner rest Hws Hin) as [-> _].
    by destruct (parenthetical_closed ws inner (rest ++ b) Hws Hin) as [-> _].
  - destruct (parenthetical_open ws r Hws Hr) as [_ E]. congruence.
  - rewrite <- app_assoc, <- app_comm_cons.
    destruct (parenthetical_other ws x r Hws Hx Hne) as [-> _].
    by destruct (parenthetical_other ws x (r ++ b) Hws Hx Hne) as [-> _].
  - destruct (parenthetical_blank t Hws) as [-> _].
    destruct b as [|c b]; [rewrite app_nil_r; by apply parenthetical_blank|].
    destruct Hb as [Hc Hne].
    by destruct (parenthetical_other t c b Hws Hc Hne) as [-> _].
Qed.

(** The same when what comes holds no closing parenthesis and leaves
    none open. *)
Lemma parenthetical_local_open (t y : list N) :
  ch ")" ∉ y → opens (t ++ y) = false →
  parenthetical (t ++ y) = parenthetical t.
Proof.
  intros Hy Ht.
  destruct (parenthetical_cases t)
    as [(ws & inner & rest & Hws & Hin & ->)|[(ws & r & Hws & Hr & ->)
       |[(ws & x & r & Hws & Hx & Hne & ->)|Hws]]].
  - rewrite <- app_assoc, <- app_comm_cons, <- app_assoc, <- app_comm_cons.
    destruct (parenthetical_closed ws inner rest Hws Hin) as [-> _].
    by destruct (parenthetical_closed ws inner (rest ++ y) Hws Hin) as [-> _].
  - exfalso. rewrite <- app_assoc, <- app_comm_cons in Ht.
    assert (Hry : ch ")" ∉ r ++ y) by (rewrite elem_of_app; tauto).
    destruct (parenthetical_open ws (r ++ y) Hws Hry) as [_ E]. congruence.
  - rewrite <- app_assoc, <- app_comm_cons.
    destruct (parenthetical_other ws x r Hws Hx Hne) as [-> _].
    by destruct (parenthetical_other ws x (r ++ y) Hws Hx Hne) as [-> _].
  - destruct (parenthetical_blank t Hws) as [-> _].
    apply parenthetical_no_rparen. rewrite elem_of_app.
    intros [H|H]; [|done]. by apply (spaces_no_rparen t).
Qed.

Lemma after_parenthetical_closed (ws inner rest : list N) :
  Forall (λ c, isspace c = true) ws → ch ")" ∉ inner →
  after_parenthetical (ws ++ [ch "("] ++ inner ++ [ch ")"] ++ rest) = rest.
Proof.
  intros Hws Hin. unfold after_parenthetical. cbn [app].
  destruct (parenthetical_closed ws inner rest Hws Hin) as [-> _].
  replace (length ws + 1 + length inner + 1)%nat
    with (length (ws ++ ch "(" :: inner ++ [ch ")"]))
    by (rewrite length_app; cbn [length]; rewrite length_app; cbn [length]; lia).
  replace (ws ++ ch "(" :: inner ++ ch ")" :: rest)
    with ((ws ++ ch "(" :: inner ++ [ch ")"]) ++ rest).
  - by rewrite drop_app_length.
  - rewrite <- app_assoc, <- app_comm_cons. by rewrite <- app_assoc.
Qed.

Lemma after_parenthetical_no_rparen (tail : list N) :
  ch ")" ∉ tail → after_parenthetical tail = tail.
Proof.
  intros H. unfold after_parenthetical. by rewrite parenthetical_no_rparen.
Qed.

Lemma after_parenthetical_other (ws : list N) (x : N) (r : list N) :
  Forall (λ c, isspace c = true) ws → isspace x = false → x ≠ ch "(" →
  after_parenthetical (ws ++ x :: r) = ws ++ x :: r.
Proof.
  intros Hws Hx Hne. unfold after_parenthetical.
  by destruct (parenthetical_other ws x r Hws Hx Hne) as [-> _].
Qed.

(** *** The first pattern *)

Lemma open_parenthetical_suffix (t1 t2 : list N) :
  open_parenthetical (t1 ++ t2) = false → open_parenthetical t2 = false.
Proof.
  induction t1 as [|c t1 IH]; [done|]. rewrite <- app_comm_cons.
  cbn [open_parenthetical]. intros H. apply orb_false_elim in H as [_ H].
  by apply IH.
Qed.

Lemma open_parenthetical_head (t d : list N) (n : nat) :
  open_parenthetical t = false → Reader.marker t = Some (d, n) →
  opens (drop n t) = false.
Proof.
  destruct t as [|c t]; [done|]. cbn [open_parenthetical].
  intros H E. apply orb_false_elim in H as [H _]. by rewrite E in H.
Qed.

Lemma reader1_length (t out : list N) (n : nat) :
  reader1 t = Some (out, n) → (n ≤ length t)%nat.
Proof.
  unfold reader1. destruct (Reader.marker t) as [[d k]|] eqn:E; [|done].
  cbn [mbind option_bind].
  destruct (parenthetical (drop k t)) as [m|] eqn:Em; [|done].
  intros [= _ <-]. apply marker_length in E. apply parenthetical_length in Em.
  rewrite length_drop in Em. lia.
Qed.

Lemma reader1_nil : reader1 [] = None.
Proof. done. Qed.

(** The first pattern works on what precedes an opening bracket or a
    closing parenthesis, and on what these start, apart, when no
    parenthesis after a marker is left open before. *)
Lemma rewrite_reader1_cut (a : list N) (c : N) (b : list N) :
  open_parenthetical a = false → c = ch "[" ∨ c = ch ")" →
  rewrite reader1 (a ++ c :: b) = rewrite reader1 a ++ rewrite reader1 (c :: b).
Proof.
  intros Ha Hc. apply rewrite_app_local; [done| |].
  - intros t1 t2 -> Hne. apply open_parenthetical_suffix in Ha.
    unfold reader1. rewrite marker_extend_mark; [|done|done|].
    2:{ apply in_marks3. tauto. }
    destruct (Reader.marker t2) as [[d n]|] eqn:E; [|done].
    cbn [mbind option_bind]. pose proof (marker_length _ _ _ E) as Hn.
    rewrite drop_app_le by lia. rewrite parenthetical_local; [done| |].
    + by eapply open_parenthetical_head.
    + split.
      * apply (mark_not_space U HU). apply in_marks. tauto.
      * destruct Hc as [-> | ->]; done.
  - intros t1 t2 out n _. apply reader1_length.
Qed.

End ParenFacts.

Section FragmentFacts.
Context {U : Unicode} (HU : conforming U).
Import Reader Chat.

Lemma startswith_extend_tail (c : N) (w t : list N) (x : N) (b : list N) :
  t ≠ [] → x ∉ w →
  Str.startswith (c :: w) (t ++ x :: b) = Str.startswith (c :: w) t.
Proof.
  intros Ht Hx. destruct t as [|y t]; [done|]. rewrite <- app_comm_cons.
  cbn [Str.startswith]. by rewrite startswith_extend.
Qed.

Lemma fragment_other (ws s1 : list N) :
  Forall (λ c, isspace c = true) ws →
  match s1 with c :: _ => isspace c = false | [] => True end →
  Str.startswith (py "(doc_id=") s1 = false →
  fragment (ws ++ s1) = None.
Proof.
  intros Hws Hs1 Hw. unfold fragment. rewrite span_run by done. by rewrite Hw.
Qed.

Lemma fragment_open (ws r : list N) :
  Forall (λ c, isspace c = true) ws → ch ")" ∉ r →
  fragment (ws ++ py "(doc_id=" ++ r) = None.
Proof.
  intros Hws Hr. unfold fragment. rewrite span_run; [|done|].
  2:{ norm_lits. cbn [app]. apply (mark_not_space U HU 40%N).
      apply (in_marks 40%N). auto 10. }
  rewrite startswith_self.
  change 8%nat with (length (py "(doc_id=")) at 1.
  rewrite drop_app_length. by rewrite span_not_rparen_all.
Qed.

(** The shapes of a text, as to the fragment it may start with. *)
Lemma fragment_cases (s : list N) :
  (∃ ws inner rest, Forall (λ c, isspace c = true) ws ∧ (ch ")" ∉ inner)
                    ∧ s = (ws ++ fragment_text inner) ++ rest)
  ∨ (∃ ws r, Forall (λ c, isspace c = true) ws ∧ (ch ")" ∉ r)
             ∧ s = ws ++ py "(doc_id=" ++ r)
  ∨ (∃ ws s1, Forall (λ c, isspace c = true) ws
              ∧ match s1 with c :: _ => isspace c = false | [] => True end
              ∧ Str.startswith (py "(doc_id=") s1 = false
              ∧ s = ws ++ s1).
Proof.
  pose proof (span_app isspace s) as Hs.
  pose proof (span_all isspace s) as Hws.
  pose proof (span_stop isspace s) as Hstop.
  destruct (span isspace s) as [ws s1]. cbn [fst snd] in *.
  destruct (Str.startswith (py "(doc_id=") s1) eqn:Ew.
  2:{ right. right. by exists ws, s1. }
  apply startswith_app in Ew.
  change (length (py "(doc_id=")) with 8%nat in Ew.
  pose proof (span_app not_rparen (drop 8 s1)) as Hs2.
  pose proof (span_all not_rparen (drop 8 s1)) as Hin.
  pose proof (span_stop not_rparen (drop 8 s1)) as Hstop2.
  destruct (span not_rparen (drop 8 s1)) as [inner s3]. cbn [fst snd] in *.
  assert (Hinner : ch ")" ∉ inner).
  { intros Hel. rewrite Forall_forall in Hin. apply Hin in Hel.
    unfold not_rparen in Hel. by rewrite N.eqb_refl in Hel. }
  destruct s3 as [|c s4].
  - right. left. exists ws, inner. rewrite app_nil_r in Hs2.
    split; [done|]. split; [done|]. rewrite <- Hs, Ew at 1. by rewrite Hs2.
  - left. exists ws, inner, s4. apply not_rparen_stop, N.eqb_eq in Hstop2.
    subst c. split; [done|]. split; [done|].
    rewrite <- Hs, Ew at 1. rewrite <- Hs2. unfold fragment_text.
    rewrite <- !app_assoc. done.
Qed.

Lemma fragment_length (t : list N) (n : nat) :
  fragment t = Some n → (n ≤ length t)%nat.
Proof.
  destruct (fragment_cases t)
    as [(ws & inner & rest & Hws & Hin & ->)|[(ws & r & Hws & Hr & ->)
       |(ws & s1 & Hws & Hs1 & Hw & ->)]].
  - rewrite fragment_shape by done. intros [= <-]. rewrite (length_app _ rest). lia.
  - by rewrite fragment_open.
  - by rewrite fragment_other.
Qed.

Lemma reader3_length (t out : list N) (n : nat) :
  reader3 t = Some (out, n) → (n ≤ length t)%nat.
Proof.
  unfold reader3. destruct (fragment t) as [m|] eqn:E; [|done].
  intros [= _ <-]. by apply fragment_length.
Qed.

Lemma reader3_nil : reader3 [] = None.
Proof. done. Qed.

Lemma open_fragment_suffix (t1 t2 : list N) :
  open_fragment (t1 ++ t2) = false → open_fragment t2 = false.
Proof.
  induction t1 as [|c t1 IH]; [done|]. rewrite <- app_comm_cons.
  cbn [open_fragment]. intros H. apply orb_false_elim in H as [_ H].
  by apply IH.
Qed.

Lemma open_fragment_open (ws r : list N) :
  ch ")" ∉ r → open_fragment (ws ++ py "(doc_id=" ++ r) = true.
Proof.
  intros Hr.
  destruct (open_fragment (ws ++ py "(doc_id=" ++ r)) eqn:E; [done|].
  apply open_fragment_suffix in E. revert E.
  change (py "(doc_id=" ++ r) with (40%N :: (py "doc_id=" ++ r)).
  cbn [open_fragment].
  change (40%N :: (py "doc_id=" ++ r)) with (py "(doc_id=" ++ r).
  rewrite startswith_self.
  change 8%nat with (length (py "(doc_id=")) at 1.
  rewrite drop_app_length.
  replace (forallb not_rparen r) with true; [done|].
  symmetry. by apply forallb_not_rparen.
Qed.

(** A fragment is read, or not, whatever comes after the text, as long as
    the text leaves no [(doc_id=] open and what comes starts with an
    opening bracket. *)
Lemma fragment_local_bracket (t b : list N) :
  open_fragment t = false →
  fragment (t ++ ch "[" :: b) = fragment t.
Proof.
  intros Ht.
  destruct (fragment_cases t)
    as [(ws & inner & rest & Hws & Hin & ->)|[(ws & r & Hws & Hr & ->)
       |(ws & s1 & Hws & Hs1 & Hw & ->)]].
  - rewrite <- app_assoc. by rewrite !fragment_shape.
  - rewrite open_fragment_open in Ht; done.
  - rewrite <- app_assoc. rewrite (fragment_other ws s1) by done.
    apply fragment_other; [done| |].
    + destruct s1 as [|c s1]; [|done]. cbn [app].
      apply (mark_not_space U HU). apply in_marks; auto.
    + rewrite startswith_extend; [done|]. norm_lits.
      rewrite !elem_of_cons, elem_of_nil. intros H.
      repeat destruct H as [H|H]; done.
Qed.

(** The same when what comes is white space and a fragment, and the text
    does not end with white space. *)
Lemma fragment_local_fragment (t sp b : list N) :
  (∀ c, c ∈ py "doc_id=" → isspace c = false) →
  open_fragment t = false →
  match last t with Some c => isspace c = false | None => False end →
  Forall (λ c, isspace c = true) sp →
  fragment (t ++ sp ++ py "(doc_id=" ++ b) = fragment t.
Proof.
  intros Hletters Ht Hlast Hsp.
  destruct (fragment_cases t)
    as [(ws & inner & rest & Hws & Hin & ->)|[(ws & r & Hws & Hr & ->)
       |(ws & s1 & Hws & Hs1 & Hw & ->)]].
  - rewrite <- app_assoc. by rewrite !fragment_shape.
  - rewrite open_fragment_open in Ht; done.
  - destruct s1 as [|c s1].
    { exfalso. rewrite app_nil_r in Hlast.
      destruct (last ws) as [c|] eqn:El; [|done].
      apply last_Some in El as [l' ->]. apply Forall_app in Hws as [_ Hc].
      apply Forall_cons in Hc as [Hc _]. congruence. }
    rewrite <- app_assoc. rewrite (fragment_other ws (c :: s1)) by done.
    apply fragment_other; [done|done|].
    assert (E : ∃ x b', sp ++ py "(doc_id=" ++ b = x :: b' ∧ x ∉ py "doc_id=").
    { destruct sp as [|x sp'].
      - exists 40%N, (py "doc_id=" ++ b). split; [done|]. norm_lits.
        rewrite !elem_of_cons, elem_of_nil. intros H.
        repeat destruct H as [H|H]; done.
      - exists x, (sp' ++ py "(doc_id=" ++ b). split; [done|].
        apply Forall_cons in Hsp as [Hx _]. intros Hin.
        apply Hletters in Hin. congruence. }
    destruct E as (x & b' & -> & Hx).
    change (py "(doc_id=") with (40%N :: py "doc_id=").
    rewrite startswith_extend_tail; [exact Hw|done|done].
Qed.

(** *** The third pattern *)

Lemma rewrite_reader3_cut (a b : list N) :
  open_fragment a = false →
  rewrite reader3 (a ++ ch "[" :: b)
  = rewrite reader3 a ++ rewrite reader3 (ch "[" :: b).
Proof.
  intros Ha. apply rewrite_app_local; [done| |].
  - intros t1 t2 -> Hne. apply open_fragment_suffix in Ha.
    unfold reader3. by rewrite fragment_local_bracket.
  - intros t1 t2 out n _. apply reader3_length.
Qed.

Lemma last_suffix (t1 t2 : list N) : t2 ≠ [] → last (t1 ++ t2) = last t2.
Proof.
  intros H. destruct (exists_last H) as (u & x & ->).
  by rewrite app_assoc, !last_snoc.
Qed.

Lemma rewrite_reader3_fragment (a ws inner b : list N) :
  (∀ c, c ∈ py "doc_id=" → isspace c = false) →
  open_fragment a = false →
  match last a with Some c => isspace c = false | None => True end →
  Forall (λ c, isspace c = true) ws → ch ")" ∉ inner →
  rewrite reader3 (a ++ ws ++ fragment_text inner ++ b)
  = rewrite reader3 a ++ rewrite reader3 b.
Proof.
  intros Hletters Ha Hlast Hws Hin. rewrite rewrite_app_local.
  - f_equal. rewrite app_assoc.
    rewrite (rewrite_hit reader3 (ws ++ fragment_text inner) b []); [done| |].
    + unfold fragment_text. norm_lits. by destruct ws.
    + unfold reader3. by rewrite fragment_shape.
  - done.
  - intros t1 t2 -> Hne. apply open_fragment_suffix in Ha.
    rewrite last_suffix in Hlast by done.
    unfold reader3, fragment_text. rewrite <- !app_assoc.
    rewrite fragment_local_fragment; try done.
    destruct (last t2) eqn:E; [done|]. apply last_None in E. done.
  - intros t1 t2 out n _. apply reader3_length.
Qed.

End FragmentFacts.

Section CleanLaws.
Context {U : Unicode} (HU : conforming U).
Import Reader Chat.

(** *** The second pattern *)

Lemma reader2_length (t out : list N) (n : nat) :
  reader2 t = Some (out, n) → (n ≤ length t)%nat.
Proof.
  unfold reader2. destruct (Reader.marker t) as [[d k]|] eqn:E; [|done].
  intros [= _ <-]. apply marker_length in E. lia.
Qed.

(** The second pattern works on what precedes white space and a bracket
    or a parenthesis, and on what these start, apart. *)
Lemma rewrite_reader2_cut (a ws : list N) (c : N) (b : list N) :
  Forall (λ c, isspace c = true) ws → c ∈ py "[()" →
  rewrite reader2 (a ++ ws ++ c :: b)
  = rewrite reader2 a ++ rewrite reader2 (ws ++ c :: b).
Proof.
  intros Hws Hc. apply rewrite_app_local; [done| |].
  - intros t1 t2 -> Hne. unfold reader2. by rewrite (marker_local HU).
  - intros t1 t2 out n _. apply reader2_length.
Qed.

Lemma rewrite_reader2_rparen (b : list N) :
  rewrite reader2 (ch ")" :: b) = ch ")" :: rewrite reader2 b.
Proof. apply rewrite_miss. unfold reader2. by rewrite marker_not_bracket. Qed.

Lemma rewrite_reader1_rparen (b : list N) :
  rewrite reader1 (ch ")" :: b) = ch ")" :: rewrite reader1 b.
Proof. apply rewrite_miss. unfold reader1. by rewrite marker_not_bracket. Qed.

Lemma rewrite_reader2_no_rparen (s : list N) :
  ch ")" ∉ s → ch ")" ∉ rewrite reader2 s.
Proof.
  intros Hs Hin. apply Hs.
  eapply elem_of_sublist; [exact Hin|].
  apply rewrite_sublist. apply reader2_sublist.
Qed.

(** *** A marker *)

Lemma _clean_citation_leakage_marker (pre kind ws digits tail : list N) :
  kind = py "Doc" ∨ kind = py "Cell" →
  Forall (λ c, isspace c = true) ws →
  Forall (λ c, isdecimal c = true) digits → digits ≠ [] →
  open_parenthetical pre = false →
  open_fragment (markers_rewritten pre) = false →
  _clean_citation_leakage (pre ++ marker_text kind ws digits ++ tail)
  = _clean_citation_leakage pre ++ bracketed digits
    ++ _clean_citation_leakage (after_parenthetical tail).
Proof.
  intros Hkind Hws Hd Hne Hpre Hfrag.
  rewrite !(_clean_citation_leakage_rewrite HU).
  assert (E1 : rewrite reader1 (pre ++ marker_text kind ws digits ++ tail)
               = rewrite reader1 pre
                 ++ rewrite reader1 (marker_text kind ws digits ++ tail)).
  { unfold marker_text. rewrite <- !app_assoc. cbn [app].
    apply (rewrite_reader1_cut HU); auto. }
  rewrite E1, (rewrite_reader1_marker HU) by done.
  set (T1 := rewrite reader1 (after_parenthetical tail)).
  assert (E2 : rewrite reader2
                 (rewrite reader1 pre
                  ++ match Reader.parenthetical tail with
                     | Some _ => bracketed digits
                     | None => marker_text kind ws digits
                     end ++ T1)
               = markers_rewritten pre ++ bracketed digits ++ rewrite reader2 T1).
  { unfold markers_rewritten. destruct (Reader.parenthetical tail).
    - rewrite <- (rewrite_reader2_bracketed HU) by done.
      unfold bracketed. rewrite <- !app_assoc. cbn [app].
      apply (rewrite_reader2_app HU).
    - rewrite <- (rewrite_reader2_marker HU kind ws) by done.
      unfold marker_text. rewrite <- !app_assoc. cbn [app].
      apply (rewrite_reader2_app HU). }
  rewrite E2. fold (markers_rewritten pre).
  assert (E3 : bracketed digits ++ rewrite reader2 T1
               = ch "[" :: (digits ++ [ch "]"]) ++ rewrite reader2 T1).
  { unfold bracketed. by rewrite <- !app_assoc. }
  rewrite E3, (rewrite_reader3_cut HU) by done. f_equal. rewrite <- E3.
  exact (rewrite_reader3_bracketed HU [] digits (rewrite reader2 T1)
           (not_elem_of_nil _) Hd).
Qed.

(** *** A fragment *)

Lemma rewrite_reader1_before_fragment (pre y : list N) (sp r : list N) :
  y = sp ++ ch "(" :: r → Forall (λ c, isspace c = true) sp →
  ch ")" ∉ y → open_parenthetical (pre ++ y) = false →
  rewrite reader1 (pre ++ y) = rewrite reader1 pre ++ y.
Proof.
  intros Ey Hsp Hy Hopen. rewrite rewrite_app_local.
  - f_equal. apply rewrite_all_miss. intros t1 t2 E.
    unfold reader1. destruct (Reader.marker t2) as [[d n]|]; [|done].
    cbn [mbind option_bind]. rewrite (parenthetical_no_rparen HU); [done|].
    intros Hin. apply Hy. rewrite E. apply elem_of_app. right.
    rewrite <- (take_drop n t2). apply elem_of_app. by right.
  - done.
  - intros t1 t2 -> Hne. rewrite <- app_assoc in Hopen.
    apply open_parenthetical_suffix in Hopen.
    unfold reader1. rewrite Ey at 1. rewrite (marker_local HU) by
      (done || apply in_marks3; auto).
    destruct (Reader.marker t2) as [[d n]|] eqn:E; [|done].
    cbn [mbind option_bind]. pose proof (marker_length _ _ _ E) as Hn.
    rewrite drop_app_le by lia.
    rewrite (parenthetical_local_open HU); [done|done|].
    rewrite <- drop_app_le by lia.
    eapply open_parenthetical_head; [exact Hopen|].
    by apply (marker_app HU).
  - intros t1 t2 out n _. apply reader1_length.
Qed.

Lemma _clean_citation_leakage_fragment (pre ws inner tail : list N) :
  (∀ c, c ∈ py "doc_id=" → isspace c = false) →
  Forall (λ c, isspace c = true) ws → ch ")" ∉ inner →
  open_parenthetical (pre ++ ws ++ py "(doc_id=" ++ inner) = false →
  open_fragment (markers_rewritten pre) = false →
  match last (markers_rewritten pre) with
  | Some c => isspace c = false
  | None => True
  end →
  _clean_citation_leakage (pre ++ ws ++ fragment_text inner ++ tail)
  = _clean_citation_leakage pre ++ _clean_citation_leakage tail.
Proof.
  intros Hletters Hws Hin Hopen Hfrag Hlast.
  rewrite !(_clean_citation_leakage_rewrite HU).
  set (y := ws ++ py "(doc_id=" ++ inner).
  assert (Hy : ch ")" ∉ y).
  { unfold y. rewrite !elem_of_app. intros [H|[H|H]]; [|revert H|done].
    - by apply (spaces_no_rparen HU ws).
    - norm_lits. rewrite !elem_of_cons, elem_of_nil. intros H.
      repeat destruct H as [H|H]; done. }
  assert (Hyb : ch "[" ∉ ws ++ py "(doc_id=").
  { rewrite elem_of_app. intros [H|H]; revert H.
    - intros H. rewrite Forall_forall in Hws. apply Hws in H.
      rewrite (mark_not_space U HU) in H; [done|]. apply in_marks; auto.
    - norm_lits. rewrite !elem_of_cons, elem_of_nil. intros H.
      repeat destruct H as [H|H]; done. }
  assert (Es : pre ++ ws ++ fragment_text inner ++ tail
               = (pre ++ y) ++ ch ")" :: tail).
  { unfold y, fragment_text. by rewrite <- !app_assoc. }
  rewrite Es, (rewrite_reader1_cut HU) by (done || auto).
  rewrite rewrite_reader1_rparen.
  rewrite (rewrite_reader1_before_fragment pre y ws (py "doc_id=" ++ inner))
    by done.
  set (T1 := rewrite reader1 tail).
  assert (E2 : rewrite reader2 ((rewrite reader1 pre ++ y) ++ ch ")" :: T1)
               = markers_rewritten pre ++ ws
                 ++ fragment_text (rewrite reader2 inner) ++ rewrite reader2 T1).
  { unfold y. rewrite <- !app_assoc.
    change (py "(doc_id=" ++ inner ++ ch ")" :: T1)
      with (ch "(" :: (py "doc_id=" ++ inner ++ ch ")" :: T1)).
    rewrite rewrite_reader2_cut by (done || apply in_marks3; auto).
    fold (markers_rewritten pre). f_equal.
    change (ch "(" :: (py "doc_id=" ++ inner ++ ch ")" :: T1))
      with (py "(doc_id=" ++ inner ++ ch ")" :: T1).
    rewrite (app_assoc ws), rewrite_reader2_no_bracket by done.
    rewrite <- app_assoc. f_equal. unfold fragment_text.
    rewrite <- !app_assoc. f_equal.
    pose proof (rewrite_reader2_cut inner [] (ch ")") T1) as Hcut.
    cbn [app] in Hcut. rewrite Hcut by (done || apply in_marks3; auto).
    by rewrite rewrite_reader2_rparen. }
  rewrite E2. apply (rewrite_reader3_fragment HU); try done.
  by apply rewrite_reader2_no_rparen.
Qed.

(** *** Text without marker or fragment *)

Lemma _clean_citation_leakage_silent (s : list N) :
  silent reader2 s = true → silent reader3 s = true →
  _clean_citation_leakage s = s.
Proof.
  intros H2 H3. rewrite (_clean_citation_leakage_rewrite HU).
  assert (E1 : rewrite reader1 s = s).
  { apply rewrite_all_miss. intros t1 t2 ->.
    apply silent_suffix, silent_head in H2. unfold reader2 in H2.
    unfold reader1. by destruct (Reader.marker t2) as [[d n]|]. }
  by rewrite E1, (rewrite_silent reader2 s H2), (rewrite_silent reader3 s H3).
Qed.

End CleanLaws.

(** *** What the first two patterns keep of a text *)

Section RewriteKeeps.
Import Reader.
Context (reader : list N → option (list N * nat)).
Context (Hout : ∀ t out n, reader t = Some (out, n) →
                  ∃ d, out = bracketed d ∧ ch "(" ∉ d).

Lemma startswith_bracket (w out z : list N) :
  w ≠ [] → ch "[" ∉ w → (∃ d, out = bracketed d) →
  Str.startswith w (out ++ z) = false.
Proof.
  intros Hw Hb [d ->]. destruct w as [|x w]; [done|].
  unfold bracketed. cbn [app Str.startswith].
  apply not_elem_of_cons in Hb as [Hx _].
  replace (x =? ch "[")%N with false; [done|].
  symmetry. apply N.eqb_neq. congruence.
Qed.

Lemma startswith_rewrite (w s : list N) :
  ch "[" ∉ w →
  Str.startswith w (rewrite_from reader 0 s) = true → Str.startswith w s = true.
Proof.
  revert w. induction s as [|c s IH]; intros w Hw.
  - cbn [rewrite_from]. destruct (reader []) as [[out len]|] eqn:E; [|done].
    destruct w as [|x w]; [done|].
    rewrite startswith_bracket; [done|done|done|].
    apply Hout in E as (d & -> & _). by exists d.
  - destruct w as [|x w]; [done|].
    cbn [rewrite_from]. destruct (reader (c :: s)) as [[out len]|] eqn:E.
    + rewrite startswith_bracket; [done|done|done|].
      apply Hout in E as (d & -> & _). by exists d.
    + cbn [Str.startswith]. intros H. apply andb_prop in H as [-> H].
      apply not_elem_of_cons in Hw as [_ Hw]. by rewrite IH.
Qed.

Lemma contains_nil (s : list N) : Str.contains [] s = true.
Proof. by destruct s. Qed.

Lemma contains_bracketed (w d z : list N) :
  match w with x :: _ => x ≠ ch "[" ∧ x ≠ ch "]" ∧ x ∉ d | [] => True end →
  Str.contains w (bracketed d ++ z) = Str.contains w z.
Proof.
  destruct w as [|x w]; [intros _; by rewrite !contains_nil|].
  intros (H1 & H2 & H3). unfold bracketed. rewrite <- !app_assoc.
  assert (Hx : ∀ y r, x ≠ y →
            Str.contains (x :: w) (y :: r) = Str.contains (x :: w) r).
  { intros y r Hy. cbn [Str.contains Str.startswith].
    replace (x =? y)%N with false; [done|].
    symmetry. by apply N.eqb_neq. }
  cbn [app]. rewrite Hx by done.
  induction d as [|y d IH].
  - cbn [app]. by rewrite Hx.
  - apply not_elem_of_cons in H3 as [Hy H3]. rewrite <- app_comm_cons.
    rewrite Hx by done. by apply IH.
Qed.

Lemma contains_rewrite_from (w : list N) (skip : nat) (s : list N) :
  ch "[" ∉ w →
  match w with x :: _ => x = ch "(" | [] => True end →
  Str.contains w (rewrite_from reader skip s) = true → Str.contains w s = true.
Proof.
  intros Hb Hw. destruct w as [|x w]; [intros _; apply contains_nil|].
  subst x. revert skip.
  assert (Hkeep : ∀ t out n z, reader t = Some (out, n) →
            Str.contains (ch "(" :: w) (out ++ z) = Str.contains (ch "(" :: w) z).
  { intros t out n z E. apply Hout in E as (d & -> & Hd).
    by apply contains_bracketed. }
  assert (Hstep : ∀ c s',
            Str.startswith (ch "(" :: w) (c :: rewrite_from reader 0 s') = true →
            Str.startswith (ch "(" :: w) (c :: s') = true).
  { intros c s'. cbn [Str.startswith]. intros H.
    apply andb_prop in H as [-> H]. apply not_elem_of_cons in Hb as [_ Hb].
    by rewrite startswith_rewrite. }
  induction s as [|c s IH]; intros skip.
  - destruct skip; cbn [rewrite_from]; [|done].
    destruct (reader []) as [[out len]|] eqn:E; [|done].
    by rewrite (Hkeep _ _ _ _ E).
  - destruct skip as [|n]; cbn [rewrite_from].
    2:{ intros H. apply IH in H. cbn [Str.contains]. rewrite H.
        by rewrite orb_true_r. }
    assert (Hcons : Str.contains (ch "(" :: w) (c :: rewrite_from reader 0 s) = true
                    → Str.contains (ch "(" :: w) (c :: s) = true).
    { intros H. change (Str.contains (ch "(" :: w) (c :: rewrite_from reader 0 s))
        with (Str.startswith (ch "(" :: w) (c :: rewrite_from reader 0 s)
              || Str.contains (ch "(" :: w) (rewrite_from reader 0 s)) in H.
      change (Str.contains (ch "(" :: w) (c :: s))
        with (Str.startswith (ch "(" :: w) (c :: s)
              || Str.contains (ch "(" :: w) s).
      apply orb_prop in H as [H|H].
      - by rewrite (Hstep c s H).
      - rewrite (IH 0%nat H). by rewrite orb_true_r. }
    destruct (reader (c :: s)) as [[out len]|] eqn:E; [|exact Hcons].
    rewrite (Hkeep _ _ _ _ E). destruct len as [|n]; [exact Hcons|].
    intros H. apply IH in H.
    change (Str.contains (ch "(" :: w) (c :: s))
      with (Str.startswith (ch "(" :: w) (c :: s) || Str.contains (ch "(" :: w) s).
    rewrite H. by rewrite orb_true_r.
Qed.

(** The last character of the rewritten text is the last of the text, or
    a closing bracket. *)
Lemma rewrite_from_last (P : N → Prop) (skip : nat) (s : list N) :
  P (ch "]") →
  match last s with Some c => P c | None => True end →
  match last (rewrite_from reader skip s) with Some c => P c | None => True end.
Proof.
  intros Hbr.
  assert (Hq : ∀ out z t n, reader t = Some (out, n) →
            match last z with Some c => P c | None => True end →
            match last (out ++ z) with Some c => P c | None => True end).
  { intros out z t n E Hz. destruct z as [|y z].
    - apply Hout in E as (d & -> & _). rewrite app_nil_r. unfold bracketed.
      by rewrite app_assoc, last_snoc.
    - by rewrite last_suffix. }
  assert (Hne : ∀ s', s' ≠ [] → rewrite_from reader 0 s' ≠ []).
  { intros [|y s'] Hs'; [done|]. cbn [rewrite_from].
    destruct (reader (y :: s')) as [[out len]|] eqn:E; [|done].
    apply Hout in E as (d & -> & _). done. }
  assert (Htail : ∀ c s', match last (c :: s') with Some c => P c | None => True end
                          → match last s' with Some c => P c | None => True end).
  { intros c [|y s']; [done|]. by rewrite last_cons_cons. }
  assert (Hcons : ∀ c s',
            match last (c :: s') with Some c => P c | None => True end →
            match last (rewrite_from reader 0 s') with Some c => P c | None => True end →
            match last (c :: rewrite_from reader 0 s') with
            | Some c => P c | None => True end).
  { intros c s' Hs Hr. destruct s' as [|y s'].
    - cbn [rewrite_from]. destruct (reader []) as [[out len]|] eqn:E; [|done].
      apply Hout in E as (d & -> & _). rewrite app_nil_r. unfold bracketed.
      by rewrite app_comm_cons, app_assoc, last_snoc.
    - pose proof (Hne (y :: s') ltac:(done)) as Hn.
      destruct (rewrite_from reader 0 (y :: s')) as [|z r]; [done|].
      by rewrite last_cons_cons. }
  revert skip. induction s as [|c s IH]; intros skip Hs.
  - destruct skip; cbn [rewrite_from]; [|done].
    destruct (reader []) as [[out len]|] eqn:E; [|done].
    by apply (Hq out [] [] len).
  - destruct skip as [|n]; cbn [rewrite_from].
    2:{ apply IH. by apply (Htail c). }
    destruct (reader (c :: s)) as [[out len]|] eqn:E.
    + apply (Hq _ _ _ _ E). destruct len as [|n].
      * apply Hcons; [done|]. apply IH. by apply (Htail c).
      * apply IH. by apply (Htail c).
    + apply Hcons; [done|]. apply IH. by apply (Htail c).
Qed.

End RewriteKeeps.

Section CleanKeeps.
Context {U : Unicode} (HU : conforming U).
Import Reader Chat.

Lemma reader2_writes (t out : list N) (n : nat) :
  reader2 t = Some (out, n) → ∃ d, out = bracketed d ∧ ch "(" ∉ d.
Proof.
  unfold reader2. destruct (Reader.marker t) as [[d k]|] eqn:E; [|done].
  intros [= <- <-]. exists d. split; [done|]. intros Hin.
  apply marker_digits in E. rewrite Forall_forall in E. apply E in Hin.
  rewrite (mark_not_digit U HU) in Hin; [done|]. apply in_marks; auto.
Qed.

Lemma reader1_writes (t out : list N) (n : nat) :
  reader1 t = Some (out, n) → ∃ d, out = bracketed d ∧ ch "(" ∉ d.
Proof.
  unfold reader1. destruct (Reader.marker t) as [[d k]|] eqn:E; [|done].
  cbn [mbind option_bind].
  destruct (parenthetical (drop k t)) as [m|]; [|done].
  intros [= <- <-]. exists d. split; [done|]. intros Hin.
  apply marker_digits in E. rewrite Forall_forall in E. apply E in Hin.
  rewrite (mark_not_digit U HU) in Hin; [done|]. apply in_marks; auto.
Qed.

Lemma open_fragment_contains (s : list N) :
  open_fragment s = true → Str.contains (py "(doc_id=") s = true.
Proof.
  induction s as [|c s IH]; [done|]. cbn [open_fragment]. intros H.
  change (Str.contains (py "(doc_id=") (c :: s))
    with (Str.startswith (py "(doc_id=") (c :: s)
          || Str.contains (py "(doc_id=") s).
  apply orb_prop in H as [H|H].
  - apply andb_prop in H as [-> _]. done.
  - rewrite IH by done. by rewrite orb_true_r.
Qed.

(** Text without [(doc_id=] leaves none open once its markers are
    rewritten. *)
Lemma markers_rewritten_closed (pre : list N) :
  Str.contains (py "(doc_id=") pre = false →
  open_fragment (markers_rewritten pre) = false.
Proof.
  intros H. destruct (open_fragment (markers_rewritten pre)) eqn:E; [|done].
  apply open_fragment_contains in E. unfold markers_rewritten, rewrite in E.
  assert (Hb : ch "[" ∉ py "(doc_id=").
  { norm_lits. rewrite !elem_of_cons, elem_of_nil. intros H0.
    repeat destruct H0 as [H0|H0]; done. }
  apply (contains_rewrite_from reader2 reader2_writes) in E; [|done|done].
  apply (contains_rewrite_from reader1 reader1_writes) in E; [|done|done].
  congruence.
Qed.

(** The text with its markers rewritten ends as the text does, or with a
    closing bracket. *)
Lemma markers_rewritten_last (pre : list N) :
  match last pre with Some c => isspace c = false | None => True end →
  match last (markers_rewritten pre) with
  | Some c => isspace c = false
  | None => True
  end.
Proof.
  intros H. unfold markers_rewritten, rewrite.
  assert (Hbr : isspace (ch "]") = false).
  { apply (mark_not_space U HU). apply in_marks; auto. }
  apply (rewrite_from_last reader2 reader2_writes (λ c, isspace c = false));
    [done|].
  by apply (rewrite_from_last reader1 reader1_writes (λ c, isspace c = false)).
Qed.

(** Text without marker leaves no parenthesis open after one. *)
Lemma silent_closed (s : list N) :
  silent reader2 s = true → open_parenthetical s = false.
Proof.
  induction s as [|c s IH]; [done|]. intros H.
  pose proof (silent_head _ _ H) as Hh. unfold reader2 in Hh.
  cbn [open_parenthetical].
  destruct (Reader.marker (c :: s)) as [[d n]|]; [done|].
  cbn [orb]. apply IH. by apply (silent_suffix reader2 [c] s).
Qed.

End CleanKeeps.

(** C4.  [_clean_citation_leakage] maps the example of the specification
    to ["See [1] for details"].  In general, with tables of Unicode, it
    is the three patterns applied once each and in this order, each left
    to right on what the one before has left.  A [[Doc n]] or [[Cell n]]
    marker is rewritten to [[n]], the parenthetical that directly follows
    it (white space included, whatever it holds but a closing
    parenthesis) is dropped with it, and the text before and the text
    after are cleaned on their own, whenever the text before leaves no
    parenthesis open after one of its markers and, its markers rewritten,
    leaves no [(doc_id=] open; text without [(doc_id=] leaves none open,
    text without marker leaves no parenthesis open after one.  A
    [(doc_id=...)] fragment is removed with the white space before it and
    with what it holds, markers included, and the text before and the
    text after are cleaned on their own, under the same conditions on the
    text before, when no marker in the fragment is followed by an opening
    parenthesis.  Text without marker and without fragment is left as it
    is. *)
Theorem _clean_citation_leakage_laws :
  @Chat._clean_citation_leakage ascii_tables
    (py "See [Doc 1] (doc_id=N_6F03AD) for details")
  = py "See [1] for details"
  ∧ ∀ U : Unicode, conforming U →
    (∀ content : list N,
       Chat._clean_citation_leakage content
       = Reader.rewrite Reader.reader3
           (Reader.rewrite Reader.reader2
              (Reader.rewrite Reader.reader1 content)))
    ∧ (∀ pre kind ws digits tail : list N,
         kind = py "Doc" ∨ kind = py "Cell" →
         Forall (λ c, isspace c = true) ws →
         Forall (λ c, isdecimal c = true) digits → digits ≠ [] →
         Reader.open_parenthetical pre = false →
         Reader.open_fragment (markers_rewritten pre) = false →
         Chat._clean_citation_leakage (pre ++ marker_text kind ws digits ++ tail)
         = Chat._clean_citation_leakage pre ++ Reader.bracketed digits
           ++ Chat._clean_citation_leakage (after_parenthetical tail))
    ∧ (∀ ws inner rest : list N,
         Forall (λ c, isspace c = true) ws → ch ")" ∉ inner →
         after_parenthetical (ws ++ [ch "("] ++ inner ++ [ch ")"] ++ rest) = rest)
    ∧ (∀ tail : list N, ch ")" ∉ tail → after_parenthetical tail = tail)
    ∧ (∀ (ws : list N) (x : N) (rest : list N),
         Forall (λ c, isspace c = true) ws → isspace x = false → x ≠ ch "(" →
         after_parenthetical (ws ++ x :: rest) = ws ++ x :: rest)
    ∧ (∀ pre ws inner tail : list N,
         (∀ c, c ∈ py "doc_id=" → isspace c = false) →
         Forall (λ c, isspace c = true) ws → ch ")" ∉ inner →
         match last pre with Some c => isspace c = false | None => True end →
         Reader.open_parenthetical (pre ++ ws ++ py "(doc_id=" ++ inner) = false →
         Reader.open_fragment (markers_rewritten pre) = false →
         Chat._clean_citation_leakage (pre ++ ws ++ fragment_text inner ++ tail)
         = Chat._clean_citation_leakage pre ++ Chat._clean_citation_leakage tail)
    ∧ (∀ s : list N,
         Reader.silent Reader.reader2 s = true →
         Reader.silent Reader.reader3 s = true →
         Chat._clean_citation_leakage s = s)
    ∧ (∀ pre : list N,
         Str.contains (py "(doc_id=") pre = false →
         Reader.open_fragment (markers_rewritten pre) = false)
    ∧ (∀ pre : list N,
         Reader.silent Reader.reader2 pre = true →
         Reader.open_parenthetical pre = false).
Proof.
  split; [by vm_compute|]. intros U HU.
  split; [intros content; by apply _clean_citation_leakage_rewrite|].
  split; [intros pre kind ws digits tail; by apply _clean_citation_leakage_marker|].
  split; [intros ws inner rest; by apply after_parenthetical_closed|].
  split; [intros tail; by apply after_parenthetical_no_rparen|].
  split; [intros ws x rest; by apply after_parenthetical_other|].
  split.
  { intros pre ws inner tail Hletters Hws Hin Hlast Hopen Hfrag.
    apply _clean_citation_leakage_fragment; try done.
    by apply markers_rewritten_last. }
  split; [intros s; by apply _clean_citation_leakage_silent|].
  split; [intros pre; by apply markers_rewritten_closed|].
  intros pre. by apply silent_closed.
Qed.

Lemma _clean_citation_leakage_laws_witness :
  let U := ascii_tables in
  conforming U
  ∧ Chat._clean_citation_leakage
      (py "Margin (net) rose " ++ marker_text (py "Doc") (py " ") (py "1")
       ++ py " (doc_id=N_6F03AD).")
    = Chat._clean_citation_leakage (py "Margin (net) rose ")
      ++ Reader.bracketed (py "1")
      ++ Chat._clean_citation_leakage
           (after_parenthetical (py " (doc_id=N_6F03AD)."))
  ∧ Chat._clean_citation_leakage (py "Margin (net) rose [Doc 1] (doc_id=N_6F03AD).")
    = py "Margin (net) rose [1]."
  ∧ Chat._clean_citation_leakage
      (py "[Doc 1] (doc_id=a) and " ++ marker_text (py "Cell") [] (py "2")
       ++ py " (see [Doc 3]) too")
    = Chat._clean_citation_leakage (py "[Doc 1] (doc_id=a) and ")
      ++ Reader.bracketed (py "2")
      ++ Chat._clean_citation_leakage
           (after_parenthetical (py " (see [Doc 3]) too"))
  ∧ Chat._clean_citation_leakage (py "[Doc 1] (doc_id=a) and [Cell2] (see [Doc 3]) too")
    = py "[1] and [2] too"
  ∧ Chat._clean_citation_leakage
      (py "see [1]" ++ py " " ++ fragment_text (py "a [Doc 3] b")
       ++ py " and [Doc 2]")
    = Chat._clean_citation_leakage (py "see [1]")
      ++ Chat._clean_citation_leakage (py " and [Doc 2]")
  ∧ Chat._clean_citation_leakage (py "see [1] (doc_id=a [Doc 3] b) and [Doc 2]")
    = py "see [1] and [2]"
  ∧ Chat._clean_citation_leakage (py "A (b) [1] c") = py "A (b) [1] c".
Proof.
  intros U.
  destruct _clean_citation_leakage_laws as [_ H].
  destruct (H U ascii_tables_conforming)
    as (_ & Hmarker & _ & _ & _ & Hfragment & Hsilent & _ & _).
  split; [exact ascii_tables_conforming|].
  split; [|split; [by vm_compute|]].
  { apply Hmarker.
    - by left.
    - repeat constructor.
    - repeat constructor.
    - done.
    - by vm_compute.
    - by vm_compute. }
  split; [|split; [by vm_compute|]].
  { apply Hmarker.
    - by right.
    - constructor.
    - repeat constructor.
    - done.
    - by vm_compute.
    - by vm_compute. }
  split; [|split; [by vm_compute|]].
  { apply Hfragment.
    - intros c. norm_lits. rewrite !elem_of_cons, elem_of_nil. intros Hc.
      repeat destruct Hc as [->|Hc]; try reflexivity. done.
    - repeat constructor.
    - apply (bool_decide_unpack _). by vm_compute.
    - by vm_compute.
    - by vm_compute.
    - by vm_compute. }
  apply Hsilent; by vm_compute.
Defined.

(** C4 as stated fails: a marker inside the parenthetical that follows
    another marker is dropped with the parenthetical, it is not rewritten;
    and a marker that a fragment interrupts, or a fragment that another
    interrupts, is put together by the removal and stays in the answer. *)
Lemma _clean_citation_leakage_drops_marker :
  let U := ascii_tables in
  Chat._clean_citation_leakage (py "[Doc 1] ([Doc 2])") = py "[1]"
  ∧ Str.contains (py "[2]") (Chat._clean_citation_leakage (py "[Doc 1] ([Doc 2])"))
    = false
  ∧ Chat._clean_citation_leakage (py "[Doc (doc_id=x)1]") = py "[Doc1]"
  ∧ Chat._clean_citation_leakage (py "(doc_id(doc_id=x)=y)") = py "(doc_id=y)".
Proof. vm_compute. repeat split; reflexivity. Qed.
